(** * snake_game.py: the grid simulation and the BFS opponent

    A shallow embedding of [Snake] and [Game] of [snake_game.py] and the
    properties of the simulation core: movement, collision detection,
    breadth-first path search, spawning, input handling and the per-tick
    update.

    Conventions of the embedding.
    - Python integers are [Z]; a grid cell is a pair of integers.
    - A [deque] of cells is a [list] with the head of the snake first;
      a Python [set] of cells is a [gset]; the [power_ups] dictionary is a
      [gmap] from power-up kind to the recorded clock value.
    - A method [def m(self, args)] becomes a function of [self] that returns
      the method's result together with the object after the call, inside
      [outcome], which also carries the exceptions the body can raise.
    - The [random] module reads from a tape of raw integer draws that is
      threaded through the [Game] methods; a sampling loop that runs out of
      draws stops with [TapeExhausted].
    - Rendering and fonts are not part of the model, nor are the fields
      that only they read: the colours, the never changed
      [speed_multiplier], the window and the fonts. Of the screens the
      model keeps what they do with their input, and of the score file what
      is read from it and handed over to be written. *)

From stdpp Require Import gmap list sorting strings.
From Stdlib Require Import ZArith Lia.

Open Scope Z_scope.

(** ** Constants *)

Definition WINDOW_WIDTH : Z := 800.
Definition WINDOW_HEIGHT : Z := 600.
Definition GRID_SIZE : Z := 20.
Definition GRID_WIDTH : Z := WINDOW_WIDTH `div` GRID_SIZE.
Definition GRID_HEIGHT : Z := WINDOW_HEIGHT `div` GRID_SIZE.

Abbreviation Cell := (Z * Z)%type.

(** ** Outcomes of fallible code *)

Inductive exn : Type :=
| IndexError      (* indexing an empty deque *)
| TapeExhausted   (* a sampling loop asked for more draws than the tape holds *)
| AttributeError. (* an attribute of [None] *)

Inductive outcome (A : Type) : Type :=
| Ok (a : A)
| Raise (e : exn).
Arguments Ok {A} a.
Arguments Raise {A} e.

#[global] Instance outcome_ret : MRet outcome := λ A a, Ok a.
#[global] Instance outcome_bind : MBind outcome := λ A B f m,
  match m with
  | Ok a => f a
  | Raise e => Raise e
  end.
#[global] Instance outcome_fmap : FMap outcome := λ A B f m,
  match m with
  | Ok a => Ok (f a)
  | Raise e => Raise e
  end.

(** ** Enumerations *)

Inductive Direction : Type := UP | DOWN | LEFT | RIGHT.

#[global] Instance Direction_eq_dec : EqDecision Direction.
Proof. solve_decision. Defined.

(** [Direction.value] *)
Definition value (d : Direction) : Cell :=
  match d with
  | UP => (0, -1)
  | DOWN => (0, 1)
  | LEFT => (-1, 0)
  | RIGHT => (1, 0)
  end.

(** [for direction in Direction]: members in definition order. *)
Definition Directions : list Direction := [UP; DOWN; LEFT; RIGHT].

Inductive PowerUpType : Type :=
| SPEED_BOOST | SLOW_DOWN | DOUBLE_POINTS | INVINCIBILITY.

#[global] Instance PowerUpType_eq_dec : EqDecision PowerUpType.
Proof. solve_decision. Defined.

Definition PowerUpType_to_nat (k : PowerUpType) : nat :=
  match k with
  | SPEED_BOOST => 0 | SLOW_DOWN => 1 | DOUBLE_POINTS => 2 | INVINCIBILITY => 3
  end%nat.

Definition PowerUpType_of_nat (n : nat) : option PowerUpType :=
  match n with
  | 0 => Some SPEED_BOOST | 1 => Some SLOW_DOWN
  | 2 => Some DOUBLE_POINTS | 3 => Some INVINCIBILITY
  | _ => None
  end%nat.

#[global] Program Instance PowerUpType_countable : Countable PowerUpType :=
  inj_countable PowerUpType_to_nat PowerUpType_of_nat _.
Next Obligation. by intros []. Qed.

(** [list(PowerUpType)] *)
Definition PowerUpTypes : list PowerUpType :=
  [SPEED_BOOST; SLOW_DOWN; DOUBLE_POINTS; INVINCIBILITY].

(** ** class PowerUp *)

Module PowerUp.

Record t : Type := mk {
  x : Z;
  y : Z;
  type : PowerUpType;
  duration : Z
}.

(** [PowerUp.__init__] (the colour is presentation only) *)
Definition init (x y : Z) (power_type : PowerUpType) : t :=
  {| x := x; y := y; type := power_type; duration := 5000 |}.

End PowerUp.

(** ** class Snake *)

Module Snake.

Record t : Type := mk {
  body : list Cell;
  direction : Direction;
  score : Z;
  is_ai : bool;
  alive : bool;
  power_ups : gmap PowerUpType Z
}.

Definition set_body (b : list Cell) (self : t) : t :=
  {| body := b; direction := direction self; score := score self;
     is_ai := is_ai self; alive := alive self; power_ups := power_ups self |}.

Definition set_direction (d : Direction) (self : t) : t :=
  {| body := body self; direction := d; score := score self;
     is_ai := is_ai self; alive := alive self; power_ups := power_ups self |}.

Definition set_score (n : Z) (self : t) : t :=
  {| body := body self; direction := direction self; score := n;
     is_ai := is_ai self; alive := alive self; power_ups := power_ups self |}.

Definition set_alive (a : bool) (self : t) : t :=
  {| body := body self; direction := direction self; score := score self;
     is_ai := is_ai self; alive := a; power_ups := power_ups self |}.

Definition set_power_ups (m : gmap PowerUpType Z) (self : t) : t :=
  {| body := body self; direction := direction self; score := score self;
     is_ai := is_ai self; alive := alive self; power_ups := m |}.

(** A method: the result and the object after the call. *)
Definition method (A : Type) : Type := t → outcome (A * t).

(** [Snake.__init__] *)
Definition init (x y : Z) (is_ai : bool) : t :=
  {| body := [(x, y)]; direction := RIGHT; score := 0;
     is_ai := is_ai; alive := true; power_ups := ∅ |}.

(** [self.body[0]] *)
Definition body_first (self : t) : outcome Cell :=
  match body self with
  | c :: _ => Ok c
  | [] => Raise IndexError
  end.

(** [self.body[-1]] *)
Definition body_last (self : t) : outcome Cell :=
  match last (body self) with
  | Some c => Ok c
  | None => Raise IndexError
  end.

Definition move (grow : bool) : method () := λ self,
  '(head_x, head_y) ← body_first self;
  let '(dx, dy) := value (direction self) in
  let new_head := (head_x + dx, head_y + dy) in
  let body1 := new_head :: body self in           (* appendleft *)
  Ok ((), set_body (if grow then body1 else removelast body1) self).

Definition grow : method () := λ self,
  tail ← body_last self;
  Ok ((), set_body (body self ++ [tail]) self).

(** [obstacles and c in obstacles], where [obstacles] is a set or [None] *)
Definition truthy_and_in (c : Cell) (obstacles : option (gset Cell)) : bool :=
  match obstacles with
  | Some o => bool_decide (o ≠ ∅) && bool_decide (c ∈ o)
  | None => false
  end.

Definition check_collision (obstacles : option (gset Cell)) : method bool :=
  λ self,
  '(head_x, head_y) ← body_first self;
  if (head_x <? 0) || (head_x >=? GRID_WIDTH)
     || (head_y <? 0) || (head_y >=? GRID_HEIGHT)
  then Ok (true, self)
  else if bool_decide ((head_x, head_y) ∈ drop 1 (body self))
  then Ok (true, self)
  else if truthy_and_in (head_x, head_y) obstacles
  then Ok (true, self)
  else Ok (false, self).

(** The test guarding the enqueue in [bfs_path]. *)
Definition can_enter (obstacles : gset Cell) (self : t)
    (visited : gset Cell) (next_pos : Cell) : bool :=
  bool_decide (next_pos ∉ visited)
  && ((0 <=? next_pos.1) && (next_pos.1 <? GRID_WIDTH))
  && ((0 <=? next_pos.2) && (next_pos.2 <? GRID_HEIGHT))
  && bool_decide (next_pos ∉ obstacles)
  && bool_decide (next_pos ∉ body self).

(** One pass of the body of [for direction in Direction]. *)
Definition expand (obstacles : gset Cell) (self : t) (x y : Z)
    (path : list Cell) (st : list (Cell * list Cell) * gset Cell)
    (direction : Direction) : list (Cell * list Cell) * gset Cell :=
  let '(queue, visited) := st in
  let '(dx, dy) := value direction in
  let next_pos := (x + dx, y + dy) in
  if can_enter obstacles self visited next_pos
  then (queue ++ [(next_pos, path ++ [next_pos])], visited ∪ {[next_pos]})
  else (queue, visited).

(** [while queue:] with a bound on the number of iterations; the outer
    [None] means the bound was reached. *)
Fixpoint bfs_loop (fuel : nat) (goal : Cell) (obstacles : gset Cell)
    (self : t) (queue : list (Cell * list Cell)) (visited : gset Cell)
    : option (option (list Cell)) :=
  match fuel with
  | O => None
  | S fuel =>
      match queue with
      | [] => Some None
      | ((x, y), path) :: queue =>
          if bool_decide ((x, y) = goal) then Some (Some path)
          else
            let '(queue, visited) :=
              foldl (expand obstacles self x y path) (queue, visited)
                    Directions in
            bfs_loop fuel goal obstacles self queue visited
      end
  end.

(** Every cell is enqueued at most once and only the start can lie
    outside the grid, so the loop runs at most once per grid cell, once
    for the start and once more to see the empty queue. *)
Definition bfs_fuel : nat := Z.to_nat (GRID_WIDTH * GRID_HEIGHT) + 2.

Definition bfs_search (start goal : Cell) (obstacles : option (gset Cell))
    (self : t) : option (list Cell) :=
  let obstacles := default ∅ obstacles in
  let queue := [(start, [start])] in
  let visited : gset Cell := {[start]} in
  match bfs_loop bfs_fuel goal obstacles self queue visited with
  | Some r => r
  | None => None
  end.

Definition bfs_path (start goal : Cell) (obstacles : option (gset Cell))
    : method (option (list Cell)) := λ self,
  Ok (bfs_search start goal obstacles self, self).

Definition ai_move (food_pos : Cell) (obstacles : option (gset Cell))
    : method () := λ self,
  if negb (is_ai self) then Ok ((), self)
  else
    head ← body_first self;
    '(path, self) ← bfs_path head food_pos obstacles self;
    match path with
    | Some (_ :: next_pos :: _) =>
        let dx := next_pos.1 - head.1 in
        let dy := next_pos.2 - head.2 in
        if dx =? 1 then Ok ((), set_direction RIGHT self)
        else if dx =? -1 then Ok ((), set_direction LEFT self)
        else if dy =? 1 then Ok ((), set_direction DOWN self)
        else if dy =? -1 then Ok ((), set_direction UP self)
        else Ok ((), self)
    | _ => Ok ((), self)
    end.

End Snake.

(** ** The [random] module

    A draw is a raw integer read from the tape. [randint a b] maps it into
    [a..b]; [random()] returns a float [k / 2^53] with [0 <= k < 2^53], of
    which the model keeps the numerator [k]; [choice] indexes the sequence. *)

Module random.

Definition randint (a b : Z) (tape : list Z) : outcome (Z * list Z) :=
  match tape with
  | r :: tape => Ok (a + r `mod` (b - a + 1), tape)
  | [] => Raise TapeExhausted
  end.

Definition random (tape : list Z) : outcome (Z * list Z) :=
  match tape with
  | r :: tape => Ok (r `mod` 2 ^ 53, tape)
  | [] => Raise TapeExhausted
  end.

(** [k / 2^53 < n / 2^54], the comparison of a [random()] result with a
    float literal whose exact value is [n / 2^54]. *)
Definition lt (k n : Z) : bool := 2 * k <? n.

(** The doubles nearest to 0.3 and 0.2, as numerators over [2^54]. *)
Definition float_0_3 : Z := 5404319552844595.
Definition float_0_2 : Z := 3602879701896397.

Definition choice {A : Type} (seq : list A) (tape : list Z)
    : outcome (A * list Z) :=
  match tape with
  | r :: tape =>
      match seq !! Z.to_nat (r `mod` Z.of_nat (length seq)) with
      | Some a => Ok (a, tape)
      | None => Raise IndexError
      end
  | [] => Raise TapeExhausted
  end.

End random.

(** ** Input events of one frame, as [pygame.event.get()] returns them *)

Inductive Key : Type :=
| K_UP | K_DOWN | K_LEFT | K_RIGHT | K_ESCAPE | K_RETURN | K_other.

Inductive Event : Type :=
| QUIT
| KEYDOWN (key : Key)
| other_event.

#[global] Instance Key_eq_dec : EqDecision Key.
Proof. solve_decision. Defined.

(** ** class Game *)

Module Game.

(** The fields the simulation reads or writes, once [init_game] has run. *)
Record t : Type := mk {
  player : Snake.t;
  ai_snake : option Snake.t;
  food : Cell;
  power_up : option PowerUp.t;
  obstacles : gset Cell;
  level : Z;
  game_mode : Z;
  running : bool
}.

Definition set_player (p : Snake.t) (self : t) : t :=
  {| player := p; ai_snake := ai_snake self; food := food self;
     power_up := power_up self; obstacles := obstacles self;
     level := level self; game_mode := game_mode self;
     running := running self |}.

Definition set_ai_snake (a : option Snake.t) (self : t) : t :=
  {| player := player self; ai_snake := a; food := food self;
     power_up := power_up self; obstacles := obstacles self;
     level := level self; game_mode := game_mode self;
     running := running self |}.

Definition set_food (c : Cell) (self : t) : t :=
  {| player := player self; ai_snake := ai_snake self; food := c;
     power_up := power_up self; obstacles := obstacles self;
     level := level self; game_mode := game_mode self;
     running := running self |}.

Definition set_power_up (p : option PowerUp.t) (self : t) : t :=
  {| player := player self; ai_snake := ai_snake self; food := food self;
     power_up := p; obstacles := obstacles self;
     level := level self; game_mode := game_mode self;
     running := running self |}.

Definition set_running (b : bool) (self : t) : t :=
  {| player := player self; ai_snake := ai_snake self; food := food self;
     power_up := power_up self; obstacles := obstacles self;
     level := level self; game_mode := game_mode self;
     running := b |}.

(** A method that may draw random numbers: the result, the object and the
    tape after the call. *)
Definition method (A : Type) : Type :=
  t → list Z → outcome (A * t * list Z).

(** [not self.ai_snake or c not in self.ai_snake.body] *)
Definition not_in_ai_body (c : Cell) (self : t) : bool :=
  match ai_snake self with
  | None => true
  | Some ai => bool_decide (c ∉ Snake.body ai)
  end.

(** [while True:] of [spawn_food]; every pass reads two draws. *)
Fixpoint spawn_food_loop (fuel : nat) : method () := λ self tape,
  match fuel with
  | O => Raise TapeExhausted
  | S fuel =>
      '(x, tape) ← random.randint 0 (GRID_WIDTH - 1) tape;
      '(y, tape) ← random.randint 0 (GRID_HEIGHT - 1) tape;
      if bool_decide ((x, y) ∉ Snake.body (player self))
         && not_in_ai_body (x, y) self
         && bool_decide ((x, y) ∉ obstacles self)
      then Ok ((), set_food (x, y) self, tape)
      else spawn_food_loop fuel self tape
  end.

(** A pass that finds the tape empty raises, so the loop can make no more
    passes than the tape has draws. *)
Definition spawn_food : method () := λ self tape,
  spawn_food_loop (S (length tape)) self tape.

(** [while True:] of [spawn_power_up] *)
Fixpoint spawn_power_up_loop (fuel : nat) : method () := λ self tape,
  match fuel with
  | O => Raise TapeExhausted
  | S fuel =>
      '(x, tape) ← random.randint 0 (GRID_WIDTH - 1) tape;
      '(y, tape) ← random.randint 0 (GRID_HEIGHT - 1) tape;
      if bool_decide ((x, y) ∉ Snake.body (player self))
         && bool_decide ((x, y) ≠ food self)
         && bool_decide ((x, y) ∉ obstacles self)
      then
        '(power_type, tape) ← random.choice PowerUpTypes tape;
        Ok ((), set_power_up (Some (PowerUp.init x y power_type)) self, tape)
      else spawn_power_up_loop fuel self tape
  end.

Definition spawn_power_up : method () := λ self tape,
  '(r, tape) ← random.random tape;
  if random.lt r random.float_0_3
  then spawn_power_up_loop (S (length tape)) self tape
  else Ok ((), self, tape).

(** [while True:] of [spawn_obstacles]. [init_game] calls [spawn_obstacles]
    before the first food of the round exists, so the loop is given what it
    reads: the player, the obstacles so far, and [self.food], which is still
    [None] or the food of the round before. *)
Fixpoint spawn_obstacle_loop (fuel : nat) (player : Snake.t)
    (food : option Cell) (obstacles : gset Cell) (tape : list Z)
    : outcome (gset Cell * list Z) :=
  match fuel with
  | O => Raise TapeExhausted
  | S fuel =>
      '(x, tape) ← random.randint 1 (GRID_WIDTH - 2) tape;
      '(y, tape) ← random.randint 1 (GRID_HEIGHT - 2) tape;
      if bool_decide ((x, y) ∉ Snake.body player)
         && bool_decide (Some (x, y) ≠ food)
         && bool_decide ((x, y) ∉ obstacles)
      then Ok (obstacles ∪ {[(x, y)]}, tape)
      else spawn_obstacle_loop fuel player food obstacles tape
  end.

(** [for _ in range(num_obstacles):] *)
Fixpoint spawn_obstacles_range (n : nat) (player : Snake.t)
    (food : option Cell) (obstacles : gset Cell) (tape : list Z)
    : outcome (gset Cell * list Z) :=
  match n with
  | O => Ok (obstacles, tape)
  | S n =>
      '(obstacles, tape) ←
        spawn_obstacle_loop (S (length tape)) player food obstacles tape;
      spawn_obstacles_range n player food obstacles tape
  end.

Definition spawn_obstacles (level : Z) (player : Snake.t)
    (food : option Cell) (tape : list Z) : outcome (gset Cell * list Z) :=
  let num_obstacles := 10 + level * 2 in
  spawn_obstacles_range (Z.to_nat num_obstacles) player food ∅ tape.

(** [init_game]. Of the object before the call only [self.food] (read by
    [spawn_obstacles]) and [self.running] matter; [spawn_food] then
    overwrites the food without reading it. *)
Definition init_game (mode : Z) (food : option Cell) (running : bool)
    (tape : list Z) : outcome (t * list Z) :=
  let level := 1 in
  let player := Snake.init (GRID_WIDTH `div` 2) (GRID_HEIGHT `div` 2) false in
  let ai_snake :=
    if mode =? 2
    then Some (Snake.init (GRID_WIDTH `div` 4) (GRID_HEIGHT `div` 4) true)
    else None in
  '(obstacles, tape) ←
    (if mode =? 3 then spawn_obstacles level player food tape
     else Ok (∅, tape));
  let self :=
    {| player := player; ai_snake := ai_snake; food := default (0, 0) food;
       power_up := None; obstacles := obstacles; level := level;
       game_mode := mode; running := running |} in
  '(_, self, tape) ← spawn_food self tape;
  Ok (set_power_up None self, tape).

(** The assignment to [self.player.direction] in [handle_input]. *)
Definition turn (d : Direction) (self : t) : t :=
  set_player (Snake.set_direction d (player self)) self.

(** [handle_input], given the events of this frame. *)
Fixpoint handle_input (events : list Event) (self : t) : bool * t :=
  match events with
  | [] => (true, self)
  | QUIT :: _ => (false, set_running false self)
  | KEYDOWN key :: events =>
      let d := Snake.direction (player self) in
      if bool_decide (key = K_UP) && bool_decide (d ≠ DOWN)
      then handle_input events (turn UP self)
      else if bool_decide (key = K_DOWN) && bool_decide (d ≠ UP)
      then handle_input events (turn DOWN self)
      else if bool_decide (key = K_LEFT) && bool_decide (d ≠ RIGHT)
      then handle_input events (turn LEFT self)
      else if bool_decide (key = K_RIGHT) && bool_decide (d ≠ LEFT)
      then handle_input events (turn RIGHT self)
      else if bool_decide (key = K_ESCAPE)
      then (false, self)
      else handle_input events self
  | other_event :: events => handle_input events self
  end.

(** *** [update], phase by phase *)

(** [ai_will_eat = self.ai_snake and self.ai_snake.alive and
    self.ai_snake.body[0] == self.food], as a truth value *)
Definition ai_will_eat (self : t) : outcome bool :=
  match ai_snake self with
  | Some ai =>
      if Snake.alive ai
      then ai_head ← Snake.body_first ai;
           Ok (bool_decide (ai_head = food self))
      else Ok false
  | None => Ok false
  end.

(** "Move snakes (grow if they're about to eat)" *)
Definition move_snakes (player_will_eat ai_will_eat : bool) (self : t)
    : outcome t :=
  '(_, p) ← Snake.move player_will_eat (player self);
  let self := set_player p self in
  match ai_snake self with
  | Some ai =>
      if Snake.alive ai then
        '(_, ai) ← Snake.ai_move (food self) (Some (obstacles self)) ai;
        '(_, ai) ← Snake.move ai_will_eat ai;
        Ok (set_ai_snake (Some ai) self)
      else Ok self
  | None => Ok self
  end.

(** "Process food eating", the player's part *)
Definition player_eats (player_will_eat : bool) : method () := λ self tape,
  if player_will_eat then
    let points := 10 in
    let points :=
      if bool_decide (DOUBLE_POINTS ∈ dom (Snake.power_ups (player self)))
      then points * 2 else points in
    let p := player self in
    let self := set_player (Snake.set_score (Snake.score p + points) p) self in
    '(_, self, tape) ← spawn_food self tape;
    '(r, tape) ← random.random tape;
    if random.lt r random.float_0_2
    then spawn_power_up self tape
    else Ok ((), self, tape)
  else Ok ((), self, tape).

(** "Process food eating", the opponent's part; [ai_will_eat] is true only
    when [self.ai_snake] is a snake. *)
Definition ai_eats (player_will_eat ai_will_eat : bool) : method () :=
  λ self tape,
  if ai_will_eat then
    match ai_snake self with
    | Some ai =>
        let self :=
          set_ai_snake (Some (Snake.set_score (Snake.score ai + 10) ai)) self in
        if negb player_will_eat
        then spawn_food self tape
        else Ok ((), self, tape)
    | None => Raise AttributeError
    end
  else Ok ((), self, tape).

(** "Check power-up collision"; [ticks] is [pygame.time.get_ticks()]. *)
Definition collect_power_up (ticks : Z) (self : t) : outcome t :=
  match power_up self with
  | Some pu =>
      head ← Snake.body_first (player self);
      if bool_decide (head = (PowerUp.x pu, PowerUp.y pu)) then
        let p := player self in
        let p :=
          Snake.set_power_ups (<[PowerUp.type pu := ticks]> (Snake.power_ups p)) p in
        Ok (set_power_up None (set_player p self))
      else Ok self
  | None => Ok self
  end.

(** "Check collisions" *)
Definition check_collisions (self : t) : outcome (bool * t) :=
  '(hit, p) ← Snake.check_collision (Some (obstacles self)) (player self);
  let self := set_player p self in
  if (hit : bool) then
    Ok (false, set_player (Snake.set_alive false (player self)) self)
  else
    match ai_snake self with
    | Some ai =>
        if Snake.alive ai then
          '(hit, ai) ← Snake.check_collision (Some (obstacles self)) ai;
          if (hit : bool)
          then Ok (true, set_ai_snake (Some (Snake.set_alive false ai)) self)
          else Ok (true, set_ai_snake (Some ai) self)
        else Ok (true, self)
    | None => Ok (true, self)
    end.

Definition update (ticks : Z) : method bool := λ self tape,
  head ← Snake.body_first (player self);
  let player_will_eat := bool_decide (head = food self) in
  ai_will_eat ← ai_will_eat self;
  self ← move_snakes player_will_eat ai_will_eat self;
  '(_, self, tape) ← player_eats player_will_eat self tape;
  '(_, self, tape) ← ai_eats player_will_eat ai_will_eat self tape;
  self ← collect_power_up ticks self;
  '(alive, self) ← check_collisions self;
  Ok (alive, self, tape).

End Game.


(** * Vocabulary of the specification *)

(** ** Cells, walks and routes *)

(** The neighbour of [c] in direction [d]: [c] plus the unit delta of [d]. *)
Definition offset (c : Cell) (d : Direction) : Cell :=
  (c.1 + (value d).1, c.2 + (value d).2).

Definition out_of_bounds (c : Cell) : Prop :=
  c.1 < 0 ∨ GRID_WIDTH ≤ c.1 ∨ c.2 < 0 ∨ GRID_HEIGHT ≤ c.2.

(** The cells visited when following the directions [ds] from [c], [c]
    included: consecutive cells are 4-adjacent by construction. *)
Fixpoint walk (c : Cell) (ds : list Direction) : list Cell :=
  match ds with
  | [] => [c]
  | d :: ds => c :: walk (offset c d) ds
  end.

(** The last cell of [walk c ds]. *)
Definition destination (c : Cell) (ds : list Direction) : Cell :=
  foldl offset c ds.

(** A cell the search may step on: inside the grid, no obstacle, not part of
    the snake's own body. *)
Definition open (obstacles : gset Cell) (body : list Cell) (c : Cell) : Prop :=
  (0 ≤ c.1 < GRID_WIDTH) ∧ (0 ≤ c.2 < GRID_HEIGHT)
  ∧ (c ∉ obstacles) ∧ (c ∉ body).

(** [ds] is a route from [c]: every cell it steps on is open. The cell it
    starts from is not tested, as in the source, where the search starts at
    the snake's head, which is a cell of its body. *)
Fixpoint route (obstacles : gset Cell) (body : list Cell) (c : Cell)
    (ds : list Direction) : Prop :=
  match ds with
  | [] => True
  | d :: ds =>
      open obstacles body (offset c d)
      ∧ route obstacles body (offset c d) ds
  end.

(** ** The order in which the search reaches routes *)

(** Position of a direction in the enumeration [UP, DOWN, LEFT, RIGHT]. *)
Definition index (d : Direction) : Z :=
  match d with UP => 0 | DOWN => 1 | LEFT => 2 | RIGHT => 3 end.

(** [ds] and [es] agree up to some point, where [ds] takes the direction
    that is tried earlier. *)
Definition diverges_earlier (ds es : list Direction) : Prop :=
  ∃ (common : list Direction) (d e : Direction) (ds' es' : list Direction),
    ds = common ++ d :: ds' ∧ es = common ++ e :: es' ∧ index d < index e.

(** A route read as a number in base 4 behind a leading 1: shorter routes
    have smaller keys, and among routes of one length the keys are ordered
    as the routes are, direction by direction. *)
Definition key_from (k : Z) (ds : list Direction) : Z :=
  foldl (λ k d, 4 * k + index d) k ds.

Definition key (ds : list Direction) : Z := key_from 1 ds.

Definition before (ds es : list Direction) : Prop := key ds < key es.

(** ** The state of the search *)

Definition grid : gset Cell :=
  list_to_set (cprod (seqZ 0 GRID_WIDTH) (seqZ 0 GRID_HEIGHT)).

(** The queue entry of the route [ds]. *)
Definition entry (start : Cell) (ds : list Direction) : Cell * list Cell :=
  (destination start ds, walk start ds).

(** The directions whose neighbour of [(x, y)] passes the test of the loop. *)
Definition accepted (obstacles : gset Cell) (self : Snake.t) (x y : Z)
    (visited : gset Cell) (dl : list Direction) : list Direction :=
  filter (λ d, Snake.can_enter obstacles self visited (offset (x, y) d) = true)
         dl.

Definition successors (obstacles : gset Cell) (self : Snake.t) (x y : Z)
    (visited : gset Cell) (ds1 : list Direction) : list (list Direction) :=
  (λ d, ds1 ++ [d]) <$> accepted obstacles self x y visited Directions.

Definition visited_after (obstacles : gset Cell) (self : Snake.t) (x y : Z)
    (visited : gset Cell) : gset Cell :=
  visited
  ∪ list_to_set (offset (x, y) <$> accepted obstacles self x y visited Directions).

(** A visited cell that has left the queue: it is not the goal and all its
    open neighbours are visited. *)
Definition settled (obstacles : gset Cell) (self : Snake.t) (goal : Cell)
    (visited : gset Cell) (c : Cell) : Prop :=
  c ≠ goal
  ∧ ∀ d, open obstacles (Snake.body self) (offset c d) →
         offset c d ∈ visited.

(** The loop invariant of [bfs_path], for the queue [entry start <$> dss]. *)
Record inv (obstacles : gset Cell) (self : Snake.t) (start goal : Cell)
    (fuel : nat) (dss : list (list Direction)) (visited : gset Cell)
    : Prop := {
  inv_start : start ∈ visited;
  inv_route : ∀ ds, ds ∈ dss →
    route obstacles (Snake.body self) start ds
    ∧ destination start ds ∈ visited;
  inv_least : ∀ ds es, ds ∈ dss →
    route obstacles (Snake.body self) start es →
    destination start es = destination start ds →
    key ds ≤ key es;
  inv_sorted : StronglySorted before dss;
  inv_level : ∀ ds, ds ∈ dss → ∀ ds1, head dss = Some ds1 →
    key ds < 4 * key ds1;
  inv_closed : ∀ c, c ∈ visited →
    (∃ ds, ds ∈ dss ∧ destination start ds = c)
    ∨ settled obstacles self goal visited c;
  inv_frontier : ∀ es d,
    route obstacles (Snake.body self) start es →
    open obstacles (Snake.body self) (offset (destination start es) d) →
    offset (destination start es) d ∈ visited
    ∨ ∃ ds1, head dss = Some ds1 ∧ key ds1 ≤ key es;
  inv_universe : visited ⊆ {[start]} ∪ grid;
  inv_fuel :
    (length dss + size ({[start]} ∪ grid : gset Cell)
     < fuel + size visited)%nat
}.

(** What the search owes for its result [r]. *)
Definition found (obstacles : gset Cell) (self : Snake.t) (start goal : Cell)
    (r : option (list Cell)) : Prop :=
  match r with
  | Some path =>
      ∃ ds, path = walk start ds
            ∧ route obstacles (Snake.body self) start ds
            ∧ destination start ds = goal
            ∧ ∀ es, route obstacles (Snake.body self) start es →
                    destination start es = goal → key ds ≤ key es
  | None =>
      ∀ es, route obstacles (Snake.body self) start es →
            destination start es ≠ goal
  end.

(** ** The round *)

(** The opposite of a direction. *)
Definition opposite (d : Direction) : Direction :=
  match d with UP => DOWN | DOWN => UP | LEFT => RIGHT | RIGHT => LEFT end.

(** The collision test on a body, head first. *)
Definition collides (obstacles : gset Cell) (body : list Cell) : Prop :=
  match body with
  | head :: rest => out_of_bounds head ∨ head ∈ rest ∨ head ∈ obstacles
  | [] => False
  end.

(** The food lies on no obstacle and on no cell behind the head of the
    player or of a living opponent. *)
Definition food_clear (g : Game.t) : Prop :=
  (Game.food g ∉ Game.obstacles g)
  ∧ (Game.food g ∉ tail (Snake.body (Game.player g)))
  ∧ ∀ ai, Game.ai_snake g = Some ai → Snake.alive ai = true →
          Game.food g ∉ tail (Snake.body ai).

(** The food lies on no cell of either snake, heads included. *)
Definition food_off_snakes (g : Game.t) : Prop :=
  (Game.food g ∉ Snake.body (Game.player g))
  ∧ ∀ ai, Game.ai_snake g = Some ai → Game.food g ∉ Snake.body ai.

(** The states of a round: the one [init_game] sets up, and those reached
    from there by the input handling and the ticks of the game loop. *)
Inductive in_round : Game.t → Prop :=
| in_round_init (mode : Z) (food : option Cell) (running : bool)
    (tape tape' : list Z) (g : Game.t) :
    Game.init_game mode food running tape = Ok (g, tape') →
    in_round g
| in_round_input (events : list Event) (g g' : Game.t) (b : bool) :
    in_round g →
    Game.handle_input events g = (b, g') →
    in_round g'
| in_round_update (ticks : Z) (tape tape' : list Z) (g g' : Game.t)
    (a : bool) :
    in_round g →
    Game.update ticks g tape = Ok (a, g', tape') →
    in_round g'.

(** The state [g] with [m] as the player's power-up mapping. *)
Definition with_power_ups (m : gmap PowerUpType Z) (g : Game.t) : Game.t :=
  Game.set_player (Snake.set_power_ups m (Game.player g)) g.

(** The state with the player's power-up mapping emptied: two states with
    the same image differ at most in that mapping. *)
Definition forget_power_ups (g : Game.t) : Game.t := with_power_ups ∅ g.

(** The result of a [Game] method, with [m] as the player's mapping. *)
Definition result_with {A : Type} (m : gmap PowerUpType Z)
    (r : A * Game.t * list Z) : A * Game.t * list Z :=
  (r.1.1, with_power_ups m r.1.2, r.2).

(** Two outcomes that raise the same exception or return values related by
    [R]. *)
Definition agree {A : Type} (R : A → A → Prop) (o1 o2 : outcome A) : Prop :=
  match o1, o2 with
  | Ok a1, Ok a2 => R a1 a2
  | Raise e1, Raise e2 => e1 = e2
  | _, _ => False
  end.

(** The points of one food item for the player [p]. *)
Definition points_for (p : Snake.t) : Z :=
  if bool_decide (DOUBLE_POINTS ∈ dom (Snake.power_ups p)) then 20 else 10.

(** The state once the player has been credited for the food. *)
Definition scored (g : Game.t) : Game.t :=
  Game.set_player
    (Snake.set_score (Snake.score (Game.player g) + points_for (Game.player g))
                     (Game.player g)) g.

(** [c] is free for the food in [g]. *)
Definition free_for_food (g : Game.t) (c : Cell) : Prop :=
  c ∈ grid
  ∧ (c ∉ Snake.body (Game.player g))
  ∧ (∀ ai, Game.ai_snake g = Some ai → c ∉ Snake.body ai)
  ∧ (c ∉ Game.obstacles g).

(** ** The shape of a body *)

(** Two cells one step apart along one axis. *)
Definition adjacent (a b : Cell) : Prop :=
  Z.abs (a.1 - b.1) + Z.abs (a.2 - b.2) = 1.

(** Every cell of the body is next to the one behind it. *)
Fixpoint chain (body : list Cell) : Prop :=
  match body with
  | a :: rest =>
      match rest with
      | b :: _ => adjacent a b ∧ chain rest
      | [] => True
      end
  | [] => True
  end.

(** A body that the collision test has let pass tick after tick: no cell
    twice, every cell in the grid and none on an obstacle. *)
Definition tidy (obstacles : gset Cell) (body : list Cell) : Prop :=
  NoDup body ∧ ∀ c, c ∈ body → c ∈ grid ∧ c ∉ obstacles.

(** * The screens and the play loop

    Every pass of a screen's loop draws and then goes through the events
    that [pygame.event.get()] hands over: those that have come in since the
    call before. The input of a run is the list of these batches in the
    order of the calls, each with the reading that
    [pygame.time.get_ticks()] gives while it is handled: a [Frame]. A
    screen is given the frames still to come and returns those it has not
    asked for; a screen that asks for a frame when none is left is still
    open, which is [None]. Only the loops of the game itself read the
    clock. What the screens draw is not modelled; the one screen whose
    drawing can fail, that of the high scores when the score file held no
    dictionary, is taken up again with the high scores in [Session]. *)

Abbreviation Frame := (list Event * Z)%type.

Module Screens.

(** [event.type == pygame.QUIT or (event.type == pygame.KEYDOWN and
    event.key == pygame.K_ESCAPE)] *)
Definition closes (e : Event) : bool :=
  match e with
  | QUIT | KEYDOWN K_ESCAPE => true
  | _ => false
  end.

(** [show_high_scores]: an event that closes the screen clears [showing];
    the flag is tested once the batch has been gone through. *)
Fixpoint show_high_scores (frames : list Frame) : option (list Frame) :=
  match frames with
  | [] => None
  | (events, _) :: frames =>
      let showing :=
        foldl (λ showing e, if closes e then false else showing) true events in
      if showing then show_high_scores frames else Some frames
  end.

Definition max_pages : Z := 3.

(** One event of [show_instructions], on [showing] and [page]. *)
Definition instructions_event (st : bool * Z) (e : Event) : bool * Z :=
  let showing := if closes e then false else st.1 in
  let page :=
    match e with
    | KEYDOWN K_LEFT => Z.max 0 (st.2 - 1)
    | KEYDOWN K_RIGHT => Z.min (max_pages - 1) (st.2 + 1)
    | _ => st.2
    end in
  (showing, page).

Fixpoint show_instructions_loop (page : Z) (frames : list Frame)
    : option (list Frame) :=
  match frames with
  | [] => None
  | (events, _) :: frames =>
      let st := foldl instructions_event (true, page) events in
      if st.1 then show_instructions_loop st.2 frames else Some frames
  end.

Definition show_instructions (frames : list Frame) : option (list Frame) :=
  show_instructions_loop 0 frames.

(** What going through one batch of events does to [show_menu]. *)
Inductive menu_step : Type :=
| Chosen (mode : option Z) (frames : list Frame)  (* [return] *)
| Next (selected : Z) (frames : list Frame)       (* the batch is used up *)
| Beneath.                     (* a screen opened from the menu is open *)

(** [len(options)] *)
Definition options : Z := 6.

(** [for event in pygame.event.get():] of [show_menu]; [frames] are the
    frames after the batch, from which the other screens take theirs. *)
Fixpoint menu_batch (events : list Event) (selected : Z)
    (frames : list Frame) : menu_step :=
  match events with
  | [] => Next selected frames
  | QUIT :: _ => Chosen None frames
  | KEYDOWN K_UP :: events =>
      menu_batch events ((selected - 1) `mod` options) frames
  | KEYDOWN K_DOWN :: events =>
      menu_batch events ((selected + 1) `mod` options) frames
  | KEYDOWN K_RETURN :: events =>
      if selected =? 5 then Chosen None frames
      else if selected =? 4 then
        match show_high_scores frames with
        | Some frames => menu_batch events selected frames
        | None => Beneath
        end
      else if selected =? 3 then
        match show_instructions frames with
        | Some frames => menu_batch events selected frames
        | None => Beneath
        end
      else Chosen (Some (selected + 1)) frames
  | _ :: events => menu_batch events selected frames
  end.

(** [while menu_running:]; every pass takes a frame, so that the loop makes
    no more passes than there are frames. *)
Fixpoint show_menu_loop (fuel : nat) (selected : Z) (frames : list Frame)
    : option (option Z * list Frame) :=
  match fuel, frames with
  | S fuel, (events, _) :: frames =>
      match menu_batch events selected frames with
      | Chosen mode frames => Some (mode, frames)
      | Next selected frames => show_menu_loop fuel selected frames
      | Beneath => None
      end
  | _, _ => None
  end.

Definition show_menu (frames : list Frame)
    : option (option Z * list Frame) :=
  show_menu_loop (length frames) 0 frames.

(** [{1: 'classic', 2: 'ai_battle', 3: 'obstacle'}[self.game_mode]];
    [None] is a [KeyError]. *)
Definition mode_key (game_mode : Z) : option string :=
  if game_mode =? 1 then Some "classic"
  else if game_mode =? 2 then Some "ai_battle"
  else if game_mode =? 3 then Some "obstacle"
  else None.

(** [for event in pygame.event.get():] of [game_over] *)
Fixpoint game_over_batch (events : list Event) : option bool :=
  match events with
  | [] => None
  | e :: events =>
      if closes e then Some false
      else match e with
           | KEYDOWN K_RETURN => Some true
           | _ => game_over_batch events
           end
  end.

(** [while showing:] of [game_over] *)
Fixpoint game_over_loop (frames : list Frame) : option (bool * list Frame) :=
  match frames with
  | [] => None
  | (events, _) :: frames =>
      match game_over_batch events with
      | Some again => Some (again, frames)
      | None => game_over_loop frames
      end
  end.

(** The inner loop of [run], [while playing and self.running:], entered
    with [playing = True]. It ends with the game as it is then and what is
    left of the input; [None] is a loop that waits for its next frame. *)
Fixpoint play (frames : list Frame) (self : Game.t) (tape : list Z)
    : outcome (option (Game.t * list Frame * list Z)) :=
  match frames with
  | [] => if Game.running self then Ok None else Ok (Some (self, [], tape))
  | (events, ticks) :: frames' =>
      if Game.running self then
        let '(go, self) := Game.handle_input events self in
        if (go : bool) then
          '(alive, self, tape) ← Game.update ticks self tape;
          if (alive : bool) then play frames' self tape
          else Ok (Some (self, frames', tape))
        else Ok (Some (self, frames', tape))
      else Ok (Some (self, frames, tape))
  end.

End Screens.

(** ** Vocabulary for the screens *)

(** An event on which the loop of [game_over] returns. *)
Definition decides (e : Event) : bool :=
  Screens.closes e || match e with KEYDOWN K_RETURN => true | _ => false end.

(** * The score file and a whole run

    [load_high_scores] returns what [json.load] makes of the score file,
    whatever that is: the file is not validated. So the high scores are a
    JSON value, and the code that reads them is embedded with the errors
    it raises on values that are no dictionary of numbers. *)

(** A Python [float] as [json.load] returns it: [m * 2^e], or one of the
    three values that are no numbers of the line. *)
Inductive float : Type :=
| Finite (m e : Z)
| Infinity
| NegInfinity
| NaN.

Set Warnings "-register-all".

(** The values of [json.load]: [None], [bool], [int], [float], [str],
    [list] and [dict], whose keys are strings. *)
Inductive json : Type :=
| JNull
| JBool (b : bool)
| JInt (n : Z)
| JFloat (x : float)
| JString (s : string)
| JArray (l : list json)
| JObject (m : gmap string json).

Set Warnings "+register-all".

Module Session.

(** [load_high_scores]: [file] is the value that [json.load] reads, and
    [None] when the file is not there, cannot be read or holds no JSON,
    which the [try] turns into the default. *)
Definition load_high_scores (file : option json) : json :=
  default
    (JObject {[ "classic" := JInt 0; "ai_battle" := JInt 0;
                "obstacle" := JInt 0 ]})
    file.

(** [score > entry] for an [int] on the left: Python compares an [int]
    with an [int], a [bool] (as 0 or 1) or a [float] by their exact values,
    with every comparison against [nan] false; on any other value it
    raises [TypeError], which is [None]. *)
Definition exceeds (score : Z) (entry : json) : option bool :=
  match entry with
  | JInt n => Some (n <? score)
  | JBool b => Some (Z.b2z b <? score)
  | JFloat (Finite m e) =>
      Some (if 0 <=? e then m * 2 ^ e <? score else m <? score * 2 ^ (- e))
  | JFloat Infinity => Some false
  | JFloat NegInfinity => Some true
  | JFloat NaN => Some false
  | JNull | JString _ | JArray _ | JObject _ => None
  end.

(** The exceptions of the code that reads the high scores. *)
Inductive score_error : Type := KeyError | TypeError.

Inductive recorded : Type :=
| Recorded (high_scores : json) (saved : list json)
| Fails (e : score_error).

(** The head of [game_over]: [mode_key] is looked up, then
    [self.high_scores[mode_key]], which is a [TypeError] on a value that is
    no dictionary and a [KeyError] on a dictionary without the key; then
    the comparison; then the entry is set to the player's score and the
    dictionary handed to [save_high_scores], whose writing of the file may
    fail without notice. [saved] are the dictionaries handed over so
    far. *)
Definition record_score (self : Game.t) (high_scores : json)
    (saved : list json) : recorded :=
  match Screens.mode_key (Game.game_mode self) with
  | None => Fails KeyError
  | Some key =>
      match high_scores with
      | JObject m =>
          match m !! key with
          | None => Fails KeyError
          | Some entry =>
              match exceeds (Snake.score (Game.player self)) entry with
              | None => Fails TypeError
              | Some true =>
                  let high_scores :=
                    JObject (<[key := JInt (Snake.score (Game.player self))]> m)
                  in
                  Recorded high_scores (saved ++ [high_scores])
              | Some false => Recorded high_scores saved
              end
          end
      | _ => Fails TypeError
      end
  end.

(** [show_high_scores] with the high scores it draws: every pass goes
    through [self.high_scores.items()], which only a dictionary has. *)
Definition show_high_scores (high_scores : json) (frames : list Frame)
    : outcome (option (list Frame)) :=
  match high_scores with
  | JObject _ => Ok (Screens.show_high_scores frames)
  | _ => Raise AttributeError
  end.

(** [show_menu] with the high scores that its entry 4 shows. *)
Fixpoint menu_batch (high_scores : json) (events : list Event)
    (selected : Z) (frames : list Frame) : outcome Screens.menu_step :=
  match events with
  | [] => Ok (Screens.Next selected frames)
  | QUIT :: _ => Ok (Screens.Chosen None frames)
  | KEYDOWN K_UP :: events =>
      menu_batch high_scores events ((selected - 1) `mod` Screens.options)
                 frames
  | KEYDOWN K_DOWN :: events =>
      menu_batch high_scores events ((selected + 1) `mod` Screens.options)
                 frames
  | KEYDOWN K_RETURN :: events =>
      if selected =? 5 then Ok (Screens.Chosen None frames)
      else if selected =? 4 then
        rest ← show_high_scores high_scores frames;
        match rest with
        | Some frames => menu_batch high_scores events selected frames
        | None => Ok Screens.Beneath
        end
      else if selected =? 3 then
        match Screens.show_instructions frames with
        | Some frames => menu_batch high_scores events selected frames
        | None => Ok Screens.Beneath
        end
      else Ok (Screens.Chosen (Some (selected + 1)) frames)
  | _ :: events => menu_batch high_scores events selected frames
  end.

Fixpoint show_menu_loop (fuel : nat) (high_scores : json) (selected : Z)
    (frames : list Frame) : outcome (option (option Z * list Frame)) :=
  match fuel, frames with
  | S fuel, (events, _) :: frames =>
      step ← menu_batch high_scores events selected frames;
      match step with
      | Screens.Chosen mode frames => Ok (Some (mode, frames))
      | Screens.Next selected frames =>
          show_menu_loop fuel high_scores selected frames
      | Screens.Beneath => Ok None
      end
  | _, _ => Ok None
  end.

Definition show_menu (high_scores : json) (frames : list Frame)
    : outcome (option (option Z * list Frame)) :=
  show_menu_loop (length frames) high_scores 0 frames.

(** How a run of the program stands when its input is used up. *)
Inductive session : Type :=
| Quit (high_scores : json) (saved : list json)
       (frames : list Frame) (tape : list Z)   (* [pygame.quit()] *)
| Raised (e : exn)
| Failed (e : score_error)
| Waiting.                                      (* for the next frame *)

(** [while self.running:] of [run]. [food] is [self.food] as the round
    before has left it, [None] before the first round. A pass takes at
    least the frame on which the menu returns. *)
Fixpoint run_loop (fuel : nat) (food : option Cell)
    (high_scores : json) (saved : list json)
    (frames : list Frame) (tape : list Z) : session :=
  match fuel with
  | O => Waiting
  | S fuel =>
      match show_menu high_scores frames with
      | Raise e => Raised e
      | Ok None => Waiting
      | Ok (Some (None, frames)) => Quit high_scores saved frames tape
      | Ok (Some (Some mode, frames)) =>
          match Game.init_game mode food true tape with
          | Raise e => Raised e
          | Ok (self, tape) =>
              match Screens.play frames self tape with
              | Raise e => Raised e
              | Ok None => Waiting
              | Ok (Some (self, frames, tape)) =>
                  if Game.running self then
                    match record_score self high_scores saved with
                    | Fails e => Failed e
                    | Recorded high_scores saved =>
                        match Screens.game_over_loop frames with
                        | None => Waiting
                        | Some (true, frames) =>
                            run_loop fuel (Some (Game.food self)) high_scores
                                     saved frames tape
                        | Some (false, frames) =>
                            Quit high_scores saved frames tape
                        end
                    end
                  else Quit high_scores saved frames tape
              end
          end
      end
  end.

(** [Game().run()]: [__init__] loads the high scores. *)
Definition run (file : option json) (frames : list Frame)
    (tape : list Z) : session :=
  run_loop (length frames) None (load_high_scores file) [] frames tape.

End Session.

(** ** Vocabulary for the score file *)

(** A value that an [int] can be compared with. *)
Definition number (entry : json) : bool :=
  match entry with
  | JInt _ | JBool _ | JFloat _ => true
  | _ => false
  end.

(** High scores that [game_over] can use in each of the three modes: a
    dictionary with a number under each of the three keys. *)
Definition mode_scores (high_scores : json) : Prop :=
  ∃ m, high_scores = JObject m
       ∧ ∀ key, key ∈ ["classic"; "ai_battle"; "obstacle"] →
                ∃ entry, m !! key = Some entry ∧ number entry = true.

(** * Proofs *)

Set Warnings "-clear-no-such-hyp".

(** ** Routes and their keys *)

Lemma index_range (d : Direction) : 0 ≤ index d ≤ 3.
Proof. destruct d; cbn; lia. Qed.

Lemma index_inj (d e : Direction) : index d = index e → d = e.
Proof. by destruct d, e. Qed.

Lemma key_from_snoc (k : Z) (ds : list Direction) (d : Direction) :
  key_from k (ds ++ [d]) = 4 * key_from k ds + index d.
Proof. unfold key_from. by rewrite foldl_app. Qed.

Lemma key_snoc (ds : list Direction) (d : Direction) :
  key (ds ++ [d]) = 4 * key ds + index d.
Proof. apply key_from_snoc. Qed.

Lemma key_from_bounds (ds : list Direction) (k : Z) :
  k * 4 ^ Z.of_nat (length ds) ≤ key_from k ds
  < (k + 1) * 4 ^ Z.of_nat (length ds).
Proof.
  revert k. induction ds as [|d ds IH]; intros k.
  - cbn. lia.
  - change (key_from k (d :: ds)) with (key_from (4 * k + index d) ds).
    specialize (IH (4 * k + index d)).
    rewrite length_cons, Nat2Z.inj_succ, Z.pow_succ_r by lia.
    pose proof (index_range d).
    assert (0 < 4 ^ Z.of_nat (length ds)) by (apply Z.pow_pos_nonneg; lia).
    nia.
Qed.

Lemma key_pos (ds : list Direction) : 1 ≤ key ds.
Proof.
  pose proof (key_from_bounds ds 1).
  assert (0 < 4 ^ Z.of_nat (length ds)) by (apply Z.pow_pos_nonneg; lia).
  unfold key. lia.
Qed.

Lemma key_length_le (ds es : list Direction) :
  key ds ≤ key es → (length ds ≤ length es)%nat.
Proof.
  intros Hk.
  pose proof (key_from_bounds ds 1) as Hd.
  pose proof (key_from_bounds es 1) as He.
  fold (key ds) in Hd. fold (key es) in He.
  destruct (decide (length ds ≤ length es)%nat) as [|Hgt]; [done|exfalso].
  assert (Z.of_nat (length es) + 1 ≤ Z.of_nat (length ds)) as Hlen by lia.
  assert (4 ^ (Z.of_nat (length es) + 1) ≤ 4 ^ Z.of_nat (length ds)) as Hpow
    by (apply Z.pow_le_mono_r; lia).
  rewrite Z.pow_add_r in Hpow by lia.
  lia.
Qed.

Lemma key_from_diverges (ds : list Direction) :
  ∀ (es : list Direction) (k : Z),
    length ds = length es → key_from k ds < key_from k es →
    diverges_earlier ds es.
Proof.
  induction ds as [|d ds IH]; intros [|e es] k Hlen Hk; try done.
  - cbn in Hk. lia.
  - injection Hlen as Hlen.
    change (key_from (4 * k + index d) ds < key_from (4 * k + index e) es) in Hk.
    destruct (Z.lt_trichotomy (index d) (index e)) as [Hlt|[Heq|Hgt]].
    + by exists [], d, e, ds, es.
    + apply index_inj in Heq as ->.
      destruct (IH es _ Hlen Hk) as (c & x & y & ds' & es' & -> & -> & Hxy).
      by exists (e :: c), x, y, ds', es'.
    + exfalso.
      pose proof (key_from_bounds ds (4 * k + index d)) as Hd.
      pose proof (key_from_bounds es (4 * k + index e)) as He.
      rewrite Hlen in Hd.
      assert (0 < 4 ^ Z.of_nat (length es)) by (apply Z.pow_pos_nonneg; lia).
      nia.
Qed.

Lemma key_from_inj (ds : list Direction) :
  ∀ (es : list Direction) (k : Z),
    length ds = length es → key_from k ds = key_from k es → ds = es.
Proof.
  induction ds as [|d ds IH]; intros [|e es] k Hlen Hk; try done.
  injection Hlen as Hlen.
  change (key_from (4 * k + index d) ds = key_from (4 * k + index e) es) in Hk.
  pose proof (key_from_bounds ds (4 * k + index d)) as Hd.
  pose proof (key_from_bounds es (4 * k + index e)) as He.
  rewrite Hlen in Hd.
  assert (0 < 4 ^ Z.of_nat (length es)) by (apply Z.pow_pos_nonneg; lia).
  assert (index d = index e) as Hde by nia.
  apply index_inj in Hde as ->.
  f_equal. apply (IH es (4 * k + index e) Hlen Hk).
Qed.

Lemma key_inj (ds es : list Direction) : key ds = key es → ds = es.
Proof.
  intros Hk. apply (key_from_inj ds es 1); [|done].
  apply Nat.le_antisymm; apply key_length_le; lia.
Qed.

(** Smaller key: no longer, and on equal length either equal or diverging
    towards the earlier direction. *)
Lemma key_le_shortlex (ds es : list Direction) :
  key ds ≤ key es →
  (length ds ≤ length es)%nat
  ∧ (length ds = length es → ds = es ∨ diverges_earlier ds es).
Proof.
  intros Hk. split; [by apply key_length_le|].
  intros Hlen. destruct (decide (key ds = key es)) as [Heq|Hne].
  - left. by apply key_inj.
  - right. apply (key_from_diverges ds es 1 Hlen). unfold key in *. lia.
Qed.

(** Walks and routes, one step at the end *)
Lemma destination_snoc (c : Cell) (ds : list Direction) (d : Direction) :
  destination c (ds ++ [d]) = offset (destination c ds) d.
Proof. unfold destination. by rewrite foldl_app. Qed.

Lemma walk_snoc (ds : list Direction) :
  ∀ (c : Cell) (d : Direction),
    walk c (ds ++ [d]) = walk c ds ++ [offset (destination c ds) d].
Proof.
  induction ds as [|e ds IH]; intros c d; [done|].
  cbn. f_equal. apply IH.
Qed.

Lemma route_snoc (obstacles : gset Cell) (body : list Cell)
    (ds : list Direction) :
  ∀ (c : Cell) (d : Direction),
    route obstacles body c (ds ++ [d])
    ↔ route obstacles body c ds
      ∧ open obstacles body (offset (destination c ds) d).
Proof.
  induction ds as [|e ds IH]; intros c d; cbn.
  - tauto.
  - rewrite IH. tauto.
Qed.

Lemma walk_head (ds : list Direction) (c : Cell) : head (walk c ds) = Some c.
Proof. by destruct ds. Qed.

Lemma walk_last (ds : list Direction) :
  ∀ c : Cell, last (walk c ds) = Some (destination c ds).
Proof.
  induction ds as [|d ds IH]; intros c; [done|].
  cbn. specialize (IH (offset c d)).
  destruct (walk (offset c d) ds) eqn:Hw; [by destruct ds|].
  exact IH.
Qed.

Lemma walk_length (ds : list Direction) :
  ∀ c : Cell, length (walk c ds) = S (length ds).
Proof. induction ds as [|d ds IH]; intros c; cbn; [done|]. by rewrite IH. Qed.

Lemma walk_lookup_step (ds : list Direction) :
  ∀ (c : Cell) (i : nat) (a b : Cell),
    walk c ds !! i = Some a → walk c ds !! S i = Some b →
    ∃ d, b = offset a d.
Proof.
  induction ds as [|d ds IH]; intros c i a b Ha Hb.
  - by destruct i.
  - destruct i as [|i].
    + injection Ha as <-. exists d. cbn in Hb.
      pose proof (walk_head ds (offset c d)) as Hh.
      destruct (walk (offset c d) ds); [done|].
      injection Hh as ->. by injection Hb.
    + by apply (IH (offset c d) i).
Qed.

Lemma route_lookup_open (obstacles : gset Cell) (body : list Cell)
    (ds : list Direction) :
  ∀ (c : Cell) (i : nat) (b : Cell),
    route obstacles body c ds → walk c ds !! S i = Some b →
    open obstacles body b.
Proof.
  induction ds as [|d ds IH]; intros c i b Hr Hb; [done|].
  destruct Hr as [Ho Hr]. cbn in Hb. destruct i as [|i].
  - pose proof (walk_head ds (offset c d)) as Hh.
    destruct (walk (offset c d) ds); [done|].
    injection Hh as ->. by injection Hb as <-.
  - by apply (IH (offset c d) i).
Qed.

Lemma offset_adjacent (c : Cell) (d : Direction) :
  Z.abs ((offset c d).1 - c.1) + Z.abs ((offset c d).2 - c.2) = 1.
Proof. destruct c as [x y], d; cbn; lia. Qed.

Lemma offset_inj (c : Cell) (d e : Direction) : offset c d = offset c e → d = e.
Proof.
  destruct c as [x y]. unfold offset.
  destruct d, e; cbn; intros [=]; try done; lia.
Qed.

(** ** One pass over the directions *)

Lemma expand_offset (obstacles : gset Cell) (self : Snake.t) (x y : Z)
    (path : list Cell) (queue : list (Cell * list Cell)) (visited : gset Cell)
    (d : Direction) :
  Snake.expand obstacles self x y path (queue, visited) d =
    if Snake.can_enter obstacles self visited (offset (x, y) d)
    then (queue ++ [(offset (x, y) d, path ++ [offset (x, y) d])],
          visited ∪ {[offset (x, y) d]})
    else (queue, visited).
Proof. unfold Snake.expand, offset. by destruct d. Qed.

Lemma can_enter_spec (obstacles : gset Cell) (self : Snake.t)
    (visited : gset Cell) (c : Cell) :
  Snake.can_enter obstacles self visited c = true
  ↔ (c ∉ visited) ∧ open obstacles (Snake.body self) c.
Proof.
  unfold Snake.can_enter, open.
  rewrite !andb_true_iff, !bool_decide_eq_true, !Z.leb_le, !Z.ltb_lt. tauto.
Qed.

Lemma can_enter_union (obstacles : gset Cell) (self : Snake.t)
    (visited : gset Cell) (c n : Cell) :
  c ≠ n →
  Snake.can_enter obstacles self (visited ∪ {[n]}) c
  = Snake.can_enter obstacles self visited c.
Proof.
  intros Hne. apply eq_true_iff_eq. rewrite !can_enter_spec. set_solver.
Qed.

Section expansion.
Context (obstacles : gset Cell) (self : Snake.t) (x y : Z).

Local Abbreviation c := (x, y).

Lemma accepted_union (visited : gset Cell) (d : Direction)
    (dl : list Direction) :
  d ∉ dl →
  accepted obstacles self x y (visited ∪ {[offset c d]}) dl = accepted obstacles self x y visited dl.
Proof.
  unfold accepted. induction dl as [|e dl IH]; intros Hd; [done|].
  apply not_elem_of_cons in Hd as [Hne Hd].
  rewrite !filter_cons, IH by done.
  rewrite can_enter_union; [done|].
  intros Heq. apply offset_inj in Heq. by subst.
Qed.

Lemma foldl_expand (path : list Cell) (dl : list Direction) :
  NoDup dl →
  ∀ (queue : list (Cell * list Cell)) (visited : gset Cell),
    foldl (Snake.expand obstacles self x y path) (queue, visited) dl =
      (queue ++ ((λ d, (offset c d, path ++ [offset c d]))
                   <$> accepted obstacles self x y visited dl),
       visited ∪ list_to_set (offset c <$> accepted obstacles self x y visited dl)).
Proof.
  induction 1 as [|d dl Hd Hnd IH]; intros queue visited.
  - cbn. rewrite app_nil_r. f_equal. set_solver.
  - cbn [foldl]. rewrite expand_offset.
    unfold accepted. rewrite !filter_cons.
    fold (accepted obstacles self x y visited dl).
    destruct (decide (Snake.can_enter obstacles self visited
                        (offset c d) = true)) as [Hc|Hc].
    + rewrite Hc, IH, accepted_union by done.
      rewrite !fmap_cons, <- app_assoc. cbn [app].
      f_equal. rewrite list_to_set_cons. set_solver.
    + apply not_true_is_false in Hc. rewrite Hc. apply IH.
Qed.
End expansion.

Lemma NoDup_Directions : NoDup Directions.
Proof. unfold Directions. repeat constructor; set_solver. Qed.

Lemma StronglySorted_filter {A : Type} (R : relation A) (P : A → Prop)
    `{∀ x, Decision (P x)} (l : list A) :
  StronglySorted R l → StronglySorted R (filter P l).
Proof.
  induction 1 as [|x l Hl IH Hx]; [constructor|].
  rewrite filter_cons. destruct (decide (P x)); [|done].
  constructor; [done|].
  apply Forall_forall. intros y Hy%list_elem_of_filter.
  rewrite Forall_forall in Hx. naive_solver.
Qed.

Lemma StronglySorted_Directions :
  StronglySorted (λ d e, index d < index e) Directions.
Proof. unfold Directions. repeat constructor; cbn; lia. Qed.

(** ** The grid is finite *)

Lemma elem_of_grid (c : Cell) :
  c ∈ grid ↔ (0 ≤ c.1 < GRID_WIDTH) ∧ (0 ≤ c.2 < GRID_HEIGHT).
Proof.
  unfold grid. rewrite elem_of_list_to_set, list_elem_of_cprod.
  rewrite !elem_of_seqZ. lia.
Qed.

Lemma size_list_to_set_le (l : list Cell) :
  (size (list_to_set l : gset Cell) ≤ length l)%nat.
Proof.
  induction l as [|c l IH]; cbn.
  - by rewrite size_empty.
  - rewrite size_union_alt, size_singleton.
    assert (size (list_to_set l ∖ {[c]} : gset Cell)
            ≤ size (list_to_set l : gset Cell))%nat
      by (apply subseteq_size; set_solver).
    lia.
Qed.

Lemma size_grid : (size grid ≤ Z.to_nat (GRID_WIDTH * GRID_HEIGHT))%nat.
Proof.
  unfold grid. etrans; [apply size_list_to_set_le|].
  rewrite list_cprod_list_prod, length_prod, !length_seqZ. done.
Qed.

Lemma size_universe (start : Cell) :
  (size ({[start]} ∪ grid : gset Cell) < Snake.bfs_fuel)%nat.
Proof.
  rewrite size_union_alt, size_singleton.
  assert (∀ G : gset Cell, size (G ∖ {[start]}) ≤ size G)%nat as Hle
    by (intros G; apply subseteq_size; set_solver).
  specialize (Hle grid).
  pose proof size_grid. unfold Snake.bfs_fuel. lia.
Qed.

(** ** The loop invariant *)

Section bfs_correct.
Context (obstacles : gset Cell) (self : Snake.t) (start goal : Cell).

Local Abbreviation routed := (route obstacles (Snake.body self) start).
Local Abbreviation is_open := (open obstacles (Snake.body self)).
Local Abbreviation dest := (destination start).

(** Every cell a route reaches is visited once all visited cells are
    settled. *)
Lemma settled_reaches (visited : gset Cell) :
  start ∈ visited →
  (∀ c, c ∈ visited → settled obstacles self goal visited c) →
  ∀ es, routed es → dest es ∈ visited.
Proof.
  intros Hs Hall es. induction es as [|e es IH] using rev_ind; [done|].
  intros [Hes He]%route_snoc. rewrite destination_snoc.
  by apply (Hall (dest es) (IH Hes)).
Qed.

(** The first entry of a sorted queue has the least key. *)
Lemma head_least (ds1 : list Direction) (dss : list (list Direction))
    (ds : list Direction) :
  StronglySorted before (ds1 :: dss) → ds ∈ ds1 :: dss → key ds1 ≤ key ds.
Proof.
  intros Hs%StronglySorted_inv [->|Hin]%elem_of_cons; [lia|].
  destruct Hs as [_ Hall]. rewrite Forall_forall in Hall.
  specialize (Hall ds Hin). unfold before in Hall. lia.
Qed.

Section step.
Context (fuel : nat) (ds1 : list Direction) (rest : list (list Direction))
        (visited : gset Cell) (x y : Z).
Context (Hinv : inv obstacles self start goal (S fuel) (ds1 :: rest) visited).
Context (Hxy : dest ds1 = (x, y)).
Context (Hgoal : (x, y) ≠ goal).

Local Abbreviation acc := (accepted obstacles self x y visited Directions).
Local Abbreviation succs := (successors obstacles self x y visited ds1).
Local Abbreviation visited' := (visited_after obstacles self x y visited).

(** The entries added by one iteration, [succs], and the set [visited']
    it leaves, when the entry [ds1] at cell [(x, y)] is taken from the queue
    [ds1 :: rest] and is not the goal. *)
Lemma elem_of_acc (d : Direction) :
  d ∈ acc ↔ (offset (x, y) d ∉ visited) ∧ is_open (offset (x, y) d).
Proof.
  unfold acc, accepted. rewrite list_elem_of_filter, can_enter_spec.
  assert (d ∈ Directions) by (destruct d; set_solver). tauto.
Qed.

Lemma elem_of_succs (ds : list Direction) :
  ds ∈ succs ↔ ∃ d, ds = ds1 ++ [d] ∧ d ∈ acc.
Proof. unfold succs. by rewrite list_elem_of_fmap. Qed.

Lemma elem_of_visited' (c : Cell) :
  c ∈ visited' ↔ c ∈ visited ∨ ∃ d, c = offset (x, y) d ∧ d ∈ acc.
Proof.
  unfold visited'.
  by rewrite elem_of_union, elem_of_list_to_set, list_elem_of_fmap.
Qed.

Lemma open_neighbour_visited' (d : Direction) :
  is_open (offset (x, y) d) → offset (x, y) d ∈ visited'.
Proof.
  intros Ho. apply elem_of_visited'.
  destruct (decide (offset (x, y) d ∈ visited)); [by left|right].
  exists d. split; [done|]. by apply elem_of_acc.
Qed.

Lemma key_succs (ds : list Direction) :
  ds ∈ succs → 4 * key ds1 ≤ key ds ≤ 4 * key ds1 + 3.
Proof.
  intros (d & -> & _)%elem_of_succs. rewrite key_snoc.
  pose proof (index_range d). lia.
Qed.

Lemma key_rest (ds : list Direction) :
  ds ∈ rest → key ds1 < key ds < 4 * key ds1.
Proof.
  intros Hin. split.
  - pose proof (inv_sorted _ _ _ _ _ _ _ Hinv) as Hs.
    apply StronglySorted_inv in Hs as [_ Hall].
    rewrite Forall_forall in Hall. apply (Hall ds Hin).
  - apply (inv_level _ _ _ _ _ _ _ Hinv); [by right|done].
Qed.

Lemma sorted_step : StronglySorted before (rest ++ succs).
Proof.
  pose proof (inv_sorted _ _ _ _ _ _ _ Hinv) as Hs.
  apply StronglySorted_inv in Hs as [Hs _].
  apply StronglySorted_app_2.
  - intros r s Hr%key_rest Hsu%key_succs. unfold before. lia.
  - exact Hs.
  - unfold succs.
    apply (StronglySorted_fmap _ (λ d e, index d < index e)).
    + intros d e Hde. unfold before. rewrite !key_snoc. lia.
    + apply StronglySorted_filter, StronglySorted_Directions.
Qed.

(** A cell that is entered now is reached by no route with a smaller
    key. *)
Lemma least_succs (d : Direction) (es : list Direction) :
  d ∈ acc → routed es → dest es = offset (x, y) d →
  key (ds1 ++ [d]) ≤ key es.
Proof.
  intros [Hnv Ho]%elem_of_acc Hes Hd.
  destruct es as [|e es _] using rev_ind.
  { exfalso. apply Hnv. rewrite <- Hd.
    apply (inv_start _ _ _ _ _ _ _ Hinv). }
  apply route_snoc in Hes as [Hes He].
  rewrite destination_snoc in Hd.
  destruct (inv_frontier _ _ _ _ _ _ _ Hinv es e Hes He)
    as [Hv|(? & [= <-] & Hk)].
  { exfalso. apply Hnv. by rewrite <- Hd. }
  rewrite !key_snoc.
  destruct (decide (key ds1 = key es)) as [Heq|Hne].
  - apply key_inj in Heq as <-. rewrite Hxy in Hd.
    apply offset_inj in Hd as ->. lia.
  - pose proof (index_range d). pose proof (index_range e). lia.
Qed.

(** Every route with a key below the next queue head ends in a cell whose
    open neighbours are all visited after the iteration. *)
Lemma frontier_step (es : list Direction) (d : Direction)
    (ds2 : list Direction) :
  head (rest ++ succs) = Some ds2 →
  routed es → is_open (offset (dest es) d) → key es < key ds2 →
  offset (dest es) d ∈ visited'.
Proof.
  intros Hhd Hes Ho Hlt.
  assert (ds2 ∈ rest ++ succs) as Hin2.
  { destruct (rest ++ succs); [done|]. injection Hhd as ->. by left. }
  assert (key ds2 < 4 * key ds1 + 4) as Hup.
  { apply elem_of_app in Hin2 as [H%key_rest|H%key_succs]; lia. }
  assert (∀ ds, ds ∈ rest ++ succs → key ds2 ≤ key ds) as Hleast.
  { intros ds Hds. pose proof sorted_step as Hs.
    destruct (rest ++ succs) as [|? l]; [done|]. injection Hhd as ->.
    by apply (head_least _ l). }
  destruct (inv_frontier _ _ _ _ _ _ _ Hinv es d Hes Ho)
    as [Hv|(? & [= <-] & Hk)].
  { apply elem_of_visited'. by left. }
  destruct (decide (key ds1 = key es)) as [Heq|Hne].
  { apply key_inj in Heq as <-. rewrite Hxy in Ho |- *.
    by apply open_neighbour_visited'. }
  assert (dest es ∈ visited) as Hu.
  { destruct es as [|e fs _] using rev_ind.
    { apply (inv_start _ _ _ _ _ _ _ Hinv). }
    pose proof Hes as [Hfs He]%route_snoc.
    rewrite destination_snoc.
    destruct (inv_frontier _ _ _ _ _ _ _ Hinv fs e Hfs He)
      as [Hv|(? & [= <-] & Hkf)]; [done|].
    rewrite key_snoc in Hlt, Hne. pose proof (index_range e).
    destruct (decide (key ds1 = key fs)) as [Heq|Hnf]; [|lia].
    apply key_inj in Heq as <-. rewrite Hxy in He |- *.
    destruct (decide (offset (x, y) e ∈ visited)) as [Hv|Hnv]; [done|].
    exfalso.
    assert (ds1 ++ [e] ∈ rest ++ succs) as Hin.
    { apply elem_of_app. right. apply elem_of_succs.
      exists e. split; [done|]. by apply elem_of_acc. }
    apply Hleast in Hin. rewrite key_snoc in Hin. lia. }
  destruct (inv_closed _ _ _ _ _ _ _ Hinv _ Hu)
    as [(ds & Hds & Hdd)|[_ Hset]].
  - pose proof (inv_least _ _ _ _ _ _ _ Hinv ds es Hds Hes (eq_sym Hdd))
      as Hle.
    apply elem_of_cons in Hds as [->|Hr].
    + rewrite <- Hdd, Hxy in Ho |- *. by apply open_neighbour_visited'.
    + exfalso. assert (ds ∈ rest ++ succs) as Hin
        by (apply elem_of_app; by left).
      apply Hleast in Hin. lia.
  - apply elem_of_visited'. left. by apply Hset.
Qed.

Lemma NoDup_new_cells : NoDup (offset (x, y) <$> acc).
Proof.
  apply NoDup_fmap_2_strong.
  - intros d e _ _. apply offset_inj.
  - apply NoDup_filter, NoDup_Directions.
Qed.

Lemma size_visited' :
  size visited' = (size visited + length succs)%nat.
Proof.
  unfold visited'. rewrite size_union.
  - rewrite size_list_to_set by apply NoDup_new_cells.
    unfold succs. by rewrite !length_fmap.
  - intros c Hc [d [-> Hd]]%elem_of_list_to_set%list_elem_of_fmap.
    by apply elem_of_acc in Hd as [Hnv _].
Qed.

(** One iteration preserves the invariant and uses one unit of fuel. *)
Lemma inv_step :
  inv obstacles self start goal fuel (rest ++ succs) visited'.
Proof.
  split.
  - apply elem_of_visited'. left. apply (inv_start _ _ _ _ _ _ _ Hinv).
  - intros ds [Hr|(d & -> & Hd)%elem_of_succs]%elem_of_app.
    + destruct (inv_route _ _ _ _ _ _ _ Hinv ds) as [? ?]; [by right|].
      split; [done|]. apply elem_of_visited'. by left.
    + destruct (inv_route _ _ _ _ _ _ _ Hinv ds1) as [? ?]; [by left|].
      pose proof Hd as [_ Ho]%elem_of_acc.
      rewrite route_snoc, destination_snoc, Hxy. split; [done|].
      by apply open_neighbour_visited'.
  - intros ds es [Hr|(d & -> & Hd)%elem_of_succs]%elem_of_app Hes Heq.
    + apply (inv_least _ _ _ _ _ _ _ Hinv ds es); [by right|done..].
    + apply least_succs; [done..|].
      by rewrite Heq, destination_snoc, Hxy.
  - apply sorted_step.
  - intros ds Hds ds2 Hhd.
    assert (ds2 ∈ rest ++ succs) as Hin2.
    { destruct (rest ++ succs); [done|]. injection Hhd as ->. by left. }
    pose proof (key_pos ds1).
    assert (key ds1 < key ds2).
    { apply elem_of_app in Hin2 as [H2%key_rest|H2%key_succs]; lia. }
    apply elem_of_app in Hds as [H1%key_rest|H1%key_succs]; lia.
  - intros c [Hc|(d & -> & Hd)]%elem_of_visited'.
    + destruct (inv_closed _ _ _ _ _ _ _ Hinv c Hc)
        as [(ds & [->|Hr]%elem_of_cons & Hdd)|[Hng Hset]].
      * right. rewrite <- Hdd, Hxy. split; [done|].
        intros d. apply open_neighbour_visited'.
      * left. exists ds. split; [|done]. apply elem_of_app. by left.
      * right. split; [done|]. intros d Ho.
        apply elem_of_visited'. left. by apply Hset.
    + left. exists (ds1 ++ [d]). rewrite destination_snoc, Hxy.
      split; [|done]. apply elem_of_app. right.
      apply elem_of_succs. by exists d.
  - intros es d Hes Ho.
    destruct (head (rest ++ succs)) as [ds2|] eqn:Hhd.
    + destruct (decide (key ds2 ≤ key es)) as [Hle|Hgt].
      * right. by exists ds2.
      * left. apply (frontier_step es d ds2); [done..|lia].
    + left.
      assert (rest ++ succs = []) as Hnil
        by (by destruct (rest ++ succs)).
      apply app_eq_nil in Hnil as [Hrest Hsu].
      assert (∀ c, c ∈ visited' →
                   settled obstacles self goal visited' c) as Hall.
      { intros c [Hc|(e & -> & He)]%elem_of_visited'.
        - destruct (inv_closed _ _ _ _ _ _ _ Hinv c Hc)
            as [(ds & [->|Hr]%elem_of_cons & Hdd)|[Hng Hset]].
          + rewrite <- Hdd, Hxy. split; [done|].
            intros e. apply open_neighbour_visited'.
          + rewrite Hrest in Hr. by apply elem_of_nil in Hr.
          + split; [done|]. intros e He.
            apply elem_of_visited'. left. by apply Hset.
        - exfalso. assert (ds1 ++ [e] ∈ succs) as Hin
            by (apply elem_of_succs; by exists e).
          rewrite Hsu in Hin. by apply elem_of_nil in Hin. }
      assert (start ∈ visited') as Hs'
        by (apply elem_of_visited'; left;
            apply (inv_start _ _ _ _ _ _ _ Hinv)).
      by apply (Hall _ (settled_reaches visited' Hs' Hall es Hes)).
  - intros c [Hc|(d & -> & [_ Ho]%elem_of_acc)]%elem_of_visited'.
    + by apply (inv_universe _ _ _ _ _ _ _ Hinv).
    + apply elem_of_union. right. apply elem_of_grid.
      destruct Ho as (? & ? & _). done.
  - pose proof (inv_fuel _ _ _ _ _ _ _ Hinv) as Hf.
    rewrite size_visited', length_app. cbn [length] in Hf. lia.
Qed.
End step.

(** Under the invariant the loop ends within its fuel, with a result that
    is as [found] demands. *)
Lemma bfs_loop_correct (fuel : nat) :
  ∀ (dss : list (list Direction)) (visited : gset Cell),
    inv obstacles self start goal fuel dss visited →
    ∃ r, Snake.bfs_loop fuel goal obstacles self
           (entry start <$> dss) visited = Some r
         ∧ found obstacles self start goal r.
Proof.
  induction fuel as [|fuel IH]; intros dss visited Hinv.
  { exfalso. pose proof (inv_fuel _ _ _ _ _ _ _ Hinv) as Hf.
    pose proof (subseteq_size _ _ (inv_universe _ _ _ _ _ _ _ Hinv)). lia. }
  destruct dss as [|ds1 rest].
  { exists None. split; [done|]. intros es Hes.
    assert (∀ c, c ∈ visited → settled obstacles self goal visited c)
      as Hall.
    { intros c Hc.
      destruct (inv_closed _ _ _ _ _ _ _ Hinv c Hc)
        as [(ds & Hin & _)|?]; [|done].
      by apply elem_of_nil in Hin. }
    apply (Hall (dest es)).
    apply (settled_reaches visited); [|done..].
    apply (inv_start _ _ _ _ _ _ _ Hinv). }
  cbn [fmap list_fmap Snake.bfs_loop]. unfold entry at 1.
  destruct (dest ds1) as [x y] eqn:Hxy.
  case_bool_decide as Hg.
  { exists (Some (walk start ds1)). split; [done|]. exists ds1.
    destruct (inv_route _ _ _ _ _ _ _ Hinv ds1) as [? _]; [by left|].
    split_and!; [done|done|congruence|].
    intros es Hes Hd. apply (inv_least _ _ _ _ _ _ _ Hinv); [by left|done|].
    congruence. }
  rewrite (foldl_expand obstacles self x y) by apply NoDup_Directions.
  pose proof (inv_step fuel ds1 rest visited x y Hinv Hxy Hg) as Hinv'.
  apply IH in Hinv' as (r & Hr & Hf). exists r. split; [|done].
  rewrite <- Hr. f_equal.
  unfold successors. rewrite fmap_app, <- !list_fmap_compose. f_equal.
  apply list_fmap_ext. intros i d _. unfold entry. cbn.
  by rewrite destination_snoc, walk_snoc, Hxy.
Qed.

Lemma inv_initial :
  inv obstacles self start goal Snake.bfs_fuel [[]] {[start]}.
Proof.
  split.
  - set_solver.
  - intros ds ->%list_elem_of_singleton. split; [done|]. set_solver.
  - intros ds es ->%list_elem_of_singleton _ _. apply key_pos.
  - repeat constructor.
  - intros ds ->%list_elem_of_singleton ds1 [= <-]. done.
  - intros c ->%elem_of_singleton. left. exists []. split; [|done].
    by left.
  - intros es d _ _. right. exists []. split; [done|]. apply key_pos.
  - apply union_subseteq_l.
  - rewrite size_singleton. cbn [length].
    pose proof (size_universe start). lia.
Qed.

End bfs_correct.

(** The bound on the iterations is never reached. *)
Lemma bfs_loop_within_fuel (start goal : Cell) (obstacles : option (gset Cell))
    (self : Snake.t) :
  Snake.bfs_loop Snake.bfs_fuel goal (default ∅ obstacles) self
                 [(start, [start])] {[start]}
  = Some (Snake.bfs_search start goal obstacles self).
Proof.
  unfold Snake.bfs_search.
  destruct (bfs_loop_correct _ _ _ _ _ _ _
              (inv_initial (default ∅ obstacles) self start goal))
    as (r & Hr & _).
  change (entry start <$> [[]]) with [(start, [start])] in Hr.
  by rewrite Hr.
Qed.

Lemma bfs_search_correct (start goal : Cell) (obstacles : option (gset Cell))
    (self : Snake.t) :
  found (default ∅ obstacles) self start goal
    (Snake.bfs_search start goal obstacles self).
Proof.
  unfold Snake.bfs_search.
  destruct (bfs_loop_correct _ _ _ _ _ _ _
              (inv_initial (default ∅ obstacles) self start goal))
    as (r & Hr & Hf).
  change (entry start <$> [[]]) with [(start, [start])] in Hr.
  by rewrite Hr.
Qed.

(** * Snake *)

Lemma GRID_WIDTH_eq : GRID_WIDTH = 40.
Proof. reflexivity. Qed.

Lemma GRID_HEIGHT_eq : GRID_HEIGHT = 30.
Proof. reflexivity. Qed.

Lemma bind_Ok {A B : Type} (m : outcome A) (f : A → outcome B) (b : B) :
  m ≫= f = Ok b ↔ ∃ a, m = Ok a ∧ f a = Ok b.
Proof.
  destruct m as [a|e]; cbn; split.
  - intros Hf. by exists a.
  - by intros (? & [= <-] & ?).
  - done.
  - by intros (? & ? & _).
Qed.

(** ** [move] *)

Lemma move_eq (grow : bool) (self : Snake.t) (head : Cell) (rest : list Cell) :
  Snake.body self = head :: rest →
  Snake.move grow self =
    Ok ((), Snake.set_body
              (if grow then offset head (Snake.direction self) :: head :: rest
               else offset head (Snake.direction self)
                      :: removelast (head :: rest))
              self).
Proof.
  intros Hb. unfold Snake.move, Snake.body_first. rewrite Hb.
  destruct head as [hx hy]. unfold offset. cbn.
  destruct (value (Snake.direction self)) as [dx dy]. cbn.
  by destruct grow.
Qed.

Lemma move_empty (grow : bool) (self : Snake.t) :
  Snake.body self = [] → Snake.move grow self = Raise IndexError.
Proof. intros Hb. unfold Snake.move, Snake.body_first. by rewrite Hb. Qed.

Lemma length_removelast {A : Type} (l : list A) :
  length (removelast l) = pred (length l).
Proof.
  induction l as [|a [|b l] IH]; [done..|].
  change (removelast (a :: b :: l)) with (a :: removelast (b :: l)).
  cbn [length] in *. by rewrite IH.
Qed.

(** C4. For a snake with a non-empty body, [move] returns normally; the new
    body starts with the old head moved by the unit delta of the current
    direction, followed by the old body, of which the last cell is removed
    exactly when [grow] is false. The length grows by one when [grow] is
    true and is unchanged otherwise; no other field changes. *)
Theorem move_prepends_head_and_drops_tail (self : Snake.t) (grow : bool)
    (head : Cell) (rest : list Cell) :
  Snake.body self = head :: rest →
  ∃ self' : Snake.t,
    Snake.move grow self = Ok ((), self')
    ∧ Snake.body self' =
        (head.1 + (value (Snake.direction self)).1,
         head.2 + (value (Snake.direction self)).2)
        :: (if grow then Snake.body self else removelast (Snake.body self))
    ∧ length (Snake.body self') =
        (if grow then S (length (Snake.body self))
         else length (Snake.body self))
    ∧ self' = Snake.set_body (Snake.body self') self.
Proof.
  intros Hb. rewrite (move_eq grow self head rest Hb), Hb.
  eexists. split; [reflexivity|]. cbn [Snake.body Snake.set_body].
  split_and!.
  - by destruct grow.
  - destruct grow; [done|].
    cbn [length]. rewrite length_removelast. done.
  - done.
Qed.

Lemma move_prepends_head_and_drops_tail_witness :
  let self :=
    Snake.mk [(3, 4); (2, 4); (1, 4)] DOWN 20 false true ∅ in
  Snake.body self = (3, 4) :: [(2, 4); (1, 4)]
  ∧ Snake.move false self
    = Ok ((), Snake.set_body [(3, 5); (3, 4); (2, 4)] self)
  ∧ Snake.move true self
    = Ok ((), Snake.set_body [(3, 5); (3, 4); (2, 4); (1, 4)] self).
Proof.
  intros self. split; [reflexivity|]. split.
  - destruct (move_prepends_head_and_drops_tail self false (3, 4)
                [(2, 4); (1, 4)] eq_refl) as (s' & Hm & Hb & _ & Hs).
    rewrite Hm, Hs, Hb. reflexivity.
  - destruct (move_prepends_head_and_drops_tail self true (3, 4)
                [(2, 4); (1, 4)] eq_refl) as (s' & Hm & Hb & _ & Hs).
    rewrite Hm, Hs, Hb. reflexivity.
Defined.

(** ** [check_collision] *)

Lemma truthy_and_in_spec (c : Cell) (obstacles : option (gset Cell)) :
  Snake.truthy_and_in c obstacles = true ↔ c ∈ default ∅ obstacles.
Proof.
  destruct obstacles as [o|]; cbn.
  - rewrite andb_true_iff, !bool_decide_eq_true. set_solver.
  - set_solver.
Qed.

Lemma out_of_bounds_spec (x y : Z) :
  (x <? 0) || (x >=? GRID_WIDTH) || (y <? 0) || (y >=? GRID_HEIGHT) = true
  ↔ out_of_bounds (x, y).
Proof.
  unfold out_of_bounds. cbn.
  rewrite !orb_true_iff, !Z.ltb_lt, !Z.geb_le. tauto.
Qed.

Lemma check_collision_eq (obstacles : option (gset Cell)) (self : Snake.t)
    (head : Cell) (rest : list Cell) :
  Snake.body self = head :: rest →
  ∃ b : bool,
    Snake.check_collision obstacles self = Ok (b, self)
    ∧ (b = true ↔
         out_of_bounds head ∨ head ∈ rest ∨ head ∈ default ∅ obstacles).
Proof.
  intros Hb. unfold Snake.check_collision, Snake.body_first. rewrite Hb.
  destruct head as [hx hy]. cbn.
  destruct (_ || _ || _ || _) eqn:Hw.
  { eexists; split; [done|]. apply out_of_bounds_spec in Hw. tauto. }
  assert (¬ out_of_bounds (hx, hy)) as Hin.
  { rewrite <- out_of_bounds_spec. by rewrite Hw. }
  case_bool_decide as Hs.
  { eexists; split; [done|]. tauto. }
  destruct (Snake.truthy_and_in _ _) eqn:Ho.
  { eexists; split; [done|]. apply truthy_and_in_spec in Ho. tauto. }
  eexists; split; [done|].
  assert ((hx, hy) ∉ default ∅ obstacles).
  { rewrite <- truthy_and_in_spec. by rewrite Ho. }
  split; [done|]. tauto.
Qed.

(** C5. For a snake with head [head] and remaining body [rest],
    [check_collision] returns normally, leaves the snake as it was, and
    answers true exactly when the head is outside the grid, or equals one of
    the other body cells, or is an obstacle. In particular a snake of four
    cells whose head equals its third cell collides, and a snake whose head
    is at (0,5) and that moves LEFT collides after the move. *)
Theorem check_collision_iff (obstacles : option (gset Cell)) (self : Snake.t)
    (head : Cell) (rest : list Cell) :
  Snake.body self = head :: rest →
  (∃ b : bool,
     Snake.check_collision obstacles self = Ok (b, self)
     ∧ (b = true ↔
          out_of_bounds head ∨ head ∈ rest ∨ head ∈ default ∅ obstacles))
  ∧ (∀ c2 c4, rest = [c2; head; c4] →
       Snake.check_collision obstacles self = Ok (true, self))
  ∧ (∀ grow, head = (0, 5) → Snake.direction self = LEFT →
       ∃ self', Snake.move grow self = Ok ((), self')
                ∧ Snake.check_collision obstacles self' = Ok (true, self')).
Proof.
  intros Hb. split; [by apply check_collision_eq|]. split.
  - intros c2 c4 ->.
    destruct (check_collision_eq obstacles self head _ Hb) as (b & -> & Hiff).
    replace b with true; [done|]. symmetry. apply Hiff.
    right; left. set_solver.
  - intros grow -> Hd. rewrite (move_eq grow self _ _ Hb), Hd.
    eexists. split; [reflexivity|].
    match goal with |- Snake.check_collision _ ?s = _ =>
      destruct (check_collision_eq obstacles s (-1, 5)
                  (if grow then (0, 5) :: rest
                   else removelast ((0, 5) :: rest)))
        as (b & -> & Hiff)
    end.
    { by destruct grow. }
    replace b with true; [done|]. symmetry. apply Hiff.
    left. unfold out_of_bounds. cbn. lia.
Qed.

Lemma check_collision_iff_witness :
  let self := Snake.mk [(5, 5); (5, 6); (5, 5); (4, 5)] UP 0 false true ∅ in
  Snake.body self = (5, 5) :: [(5, 6); (5, 5); (4, 5)]
  ∧ Snake.check_collision None self = Ok (true, self).
Proof.
  intros self. split; [reflexivity|].
  destruct (check_collision_iff None self (5, 5) [(5, 6); (5, 5); (4, 5)]
              eq_refl) as (_ & Hself & _).
  exact (Hself (5, 6) (4, 5) eq_refl).
Defined.

(** ** [bfs_path] *)

(** C1. [bfs_path] returns normally and leaves the snake as it was. Its
    result is [None] exactly when no route leads from [start] to [goal].
    Otherwise it is the walk of a route [ds] from [start] to [goal]: a
    sequence of cells that begins with [start] and ends with [goal], in
    which each cell is 4-adjacent to the one before it and every cell after
    the first lies inside the grid and is neither an obstacle nor a cell of
    the snake's body. No route to [goal] is shorter, and every other route
    of the same length parts from [ds] at a cell where [ds] takes the
    direction that comes earlier in UP, DOWN, LEFT, RIGHT. *)
Theorem bfs_path_shortest_first_reached (start goal : Cell)
    (obstacles : option (gset Cell)) (self : Snake.t) :
  ∃ r : option (list Cell),
    Snake.bfs_path start goal obstacles self = Ok (r, self)
    ∧ (r = None ↔
         ¬ ∃ es, route (default ∅ obstacles) (Snake.body self) start es
                 ∧ destination start es = goal)
    ∧ ∀ path, r = Some path →
        ∃ ds, path = walk start ds
              ∧ head path = Some start ∧ last path = Some goal
              ∧ (∀ i a b, path !! i = Some a → path !! S i = Some b →
                          Z.abs (b.1 - a.1) + Z.abs (b.2 - a.2) = 1)
              ∧ (∀ i b, path !! S i = Some b →
                        open (default ∅ obstacles) (Snake.body self) b)
              ∧ route (default ∅ obstacles) (Snake.body self) start ds
              ∧ ∀ es,
                  route (default ∅ obstacles) (Snake.body self) start es →
                  destination start es = goal →
                  (length path ≤ length (walk start es))%nat
                  ∧ (length es = length ds →
                     es = ds ∨ diverges_earlier ds es).
Proof.
  exists (Snake.bfs_search start goal obstacles self). split; [done|].
  pose proof (bfs_search_correct start goal obstacles self) as Hf.
  destruct (Snake.bfs_search start goal obstacles self) as [path|]; cbn in Hf.
  - destruct Hf as (ds & -> & Hr & Hd & Hmin). split.
    + split; [done|]. intros []. by exists ds.
    + intros ? [= <-]. exists ds. split; [done|].
      split; [apply walk_head|]. split; [by rewrite walk_last, Hd|].
      split.
      { intros i a b Ha Hb.
        destruct (walk_lookup_step ds start i a b Ha Hb) as [d ->].
        apply offset_adjacent. }
      split; [intros i b; by apply route_lookup_open|]. split; [done|].
      intros es Hes Hde.
      destruct (key_le_shortlex ds es (Hmin es Hes Hde)) as [Hlen Hlex].
      rewrite !walk_length. split; [lia|].
      intros Heq. symmetry in Heq. destruct (Hlex Heq) as [->|?]; auto.
  - split; [|done]. split; [|done].
    intros _ (es & Hes & Hd). by apply (Hf es).
Qed.

(** The symmetric case of the specification: from the centre of an empty
    3x3 corner, the two diagonal neighbours can each be reached by two
    routes of length two; the search returns the one that starts with the
    earlier direction. *)
Example bfs_path_tie_break :
  let self := Snake.init 1 1 true in
  Snake.bfs_path (1, 1) (2, 0) None self = Ok (Some [(1, 1); (1, 0); (2, 0)], self)
  ∧ Snake.bfs_path (1, 1) (0, 2) None self = Ok (Some [(1, 1); (1, 2); (0, 2)], self)
  ∧ Snake.bfs_path (1, 1) (1, 0) None self = Ok (Some [(1, 1); (1, 0)], self)
  ∧ Snake.bfs_path (1, 1) (1, 2) None self = Ok (Some [(1, 1); (1, 2)], self).
Proof. vm_compute. done. Qed.

(** ** [ai_move] *)

Lemma walk_cons_inv (c p0 p1 : Cell) (ds : list Direction) (tl : list Cell) :
  walk c ds = p0 :: p1 :: tl →
  p0 = c ∧ ∃ d ds', ds = d :: ds' ∧ p1 = offset c d.
Proof.
  destruct ds as [|d ds]; [done|]. cbn. intros [= <- Hw]. split; [done|].
  exists d, ds. split; [done|]. by destruct ds; injection Hw.
Qed.

Lemma ai_move_step (self : Snake.t) (c : Cell) (d : Direction) :
  (let next_pos := offset c d in
   let dx := next_pos.1 - c.1 in
   let dy := next_pos.2 - c.2 in
   if dx =? 1 then Ok ((), Snake.set_direction RIGHT self)
   else if dx =? -1 then Ok ((), Snake.set_direction LEFT self)
   else if dy =? 1 then Ok ((), Snake.set_direction DOWN self)
   else if dy =? -1 then Ok ((), Snake.set_direction UP self)
   else Ok ((), self))
  = Ok ((), Snake.set_direction d self).
Proof.
  destruct c as [x y]. unfold offset. cbn.
  destruct d; cbn;
    repeat match goal with
    | |- context [?a =? ?b] =>
        destruct (Z.eqb_spec a b); try lia
    end; done.
Qed.

(** C7. For an AI snake with a non-empty body, [ai_move] returns normally.
    When [bfs_path] from the head to the food returns a path of more than
    one cell, the snake afterwards faces the direction whose unit delta is
    the second cell of the path minus the first, whatever it faced before,
    and nothing else of it has changed; when [bfs_path] returns [None] or a
    path of one cell, the snake is left as it was. *)
Theorem ai_move_follows_path (food_pos : Cell)
    (obstacles : option (gset Cell)) (self : Snake.t)
    (head : Cell) (rest : list Cell) (path : option (list Cell)) :
  Snake.is_ai self = true →
  Snake.body self = head :: rest →
  Snake.bfs_path head food_pos obstacles self = Ok (path, self) →
  match path with
  | Some (p0 :: p1 :: _) =>
      ∃ d s',
        value d = (p1.1 - p0.1, p1.2 - p0.2)
        ∧ Snake.ai_move food_pos obstacles self = Ok ((), s')
        ∧ Snake.direction s' = d
        ∧ Snake.body s' = Snake.body self
        ∧ Snake.score s' = Snake.score self
        ∧ Snake.is_ai s' = Snake.is_ai self
        ∧ Snake.alive s' = Snake.alive self
        ∧ Snake.power_ups s' = Snake.power_ups self
  | _ => Snake.ai_move food_pos obstacles self = Ok ((), self)
  end.
Proof.
  intros Hai Hb Hp. unfold Snake.ai_move, Snake.body_first.
  rewrite Hai, Hb. cbn [negb mbind outcome_bind]. rewrite Hp. cbn beta iota.
  injection Hp as <-.
  pose proof (bfs_search_correct head food_pos obstacles self) as Hf.
  destruct (Snake.bfs_search head food_pos obstacles self)
    as [[|p0 [|p1 tl]]|]; [done..| |done].
  destruct Hf as (ds & Hw & _).
  symmetry in Hw. apply walk_cons_inv in Hw as (-> & d & ds' & -> & ->).
  exists d, (Snake.set_direction d self). split.
  - destruct head as [x y], d; cbn; f_equal; lia.
  - split; [apply ai_move_step|done].
Qed.

Lemma ai_move_follows_path_witness :
  let self := Snake.mk [(10, 7); (9, 7)] RIGHT 30 true true ∅ in
  Snake.is_ai self = true
  ∧ Snake.body self = (10, 7) :: [(9, 7)]
  ∧ Snake.bfs_path (10, 7) (10, 5) None self
    = Ok (Some [(10, 7); (10, 6); (10, 5)], self)
  ∧ Snake.direction self = RIGHT
  ∧ ∃ s', Snake.ai_move (10, 5) None self = Ok ((), s')
          ∧ Snake.direction s' = UP
          ∧ Snake.body s' = [(10, 7); (9, 7)]
          ∧ Snake.score s' = 30.
Proof.
  intros self.
  assert (Snake.bfs_path (10, 7) (10, 5) None self
          = Ok (Some [(10, 7); (10, 6); (10, 5)], self)) as Hp
    by by vm_compute.
  split_and!; [reflexivity|reflexivity|exact Hp|reflexivity|].
  destruct (ai_move_follows_path (10, 5) None self (10, 7) [(9, 7)]
              (Some [(10, 7); (10, 6); (10, 5)]) eq_refl eq_refl Hp)
    as (d & s' & Hd & Hmove & Hdir & Hbody & Hscore & _).
  exists s'. split; [exact Hmove|]. split; [|by split].
  rewrite Hdir. by destruct d.
Defined.

(** * Game *)

(** ** Spawning *)

Lemma randint_Ok (a b : Z) (tape : list Z) (n : Z) (tape' : list Z) :
  a ≤ b → random.randint a b tape = Ok (n, tape') →
  a ≤ n ≤ b ∧ ∃ r, tape = r :: tape'.
Proof.
  intros Hab. destruct tape as [|r tape]; [done|]. cbn. intros [= <- <-].
  split; [|by exists r].
  pose proof (Z.mod_pos_bound r (b - a + 1)). lia.
Qed.

Lemma not_in_ai_body_spec (c : Cell) (g : Game.t) :
  Game.not_in_ai_body c g = true
  ↔ ∀ ai, Game.ai_snake g = Some ai → c ∉ Snake.body ai.
Proof.
  unfold Game.not_in_ai_body. destruct (Game.ai_snake g) as [ai|].
  - rewrite bool_decide_eq_true. naive_solver.
  - naive_solver.
Qed.

Lemma spawn_food_loop_Ok (fuel : nat) (g : Game.t) :
  ∀ (tape : list Z) (g' : Game.t) (tape' : list Z),
    Game.spawn_food_loop fuel g tape = Ok ((), g', tape') →
    ∃ c, g' = Game.set_food c g
         ∧ c ∈ grid
         ∧ (c ∉ Snake.body (Game.player g))
         ∧ (∀ ai, Game.ai_snake g = Some ai → c ∉ Snake.body ai)
         ∧ (c ∉ Game.obstacles g).
Proof.
  induction fuel as [|fuel IH]; intros tape g' tape'; [done|].
  cbn [Game.spawn_food_loop].
  intros ([x t1] & Hx & ([y t2] & Hy & Hrest)%bind_Ok)%bind_Ok.
  apply randint_Ok in Hx as [Hx _]; [|done].
  apply randint_Ok in Hy as [Hy _]; [|done].
  destruct (_ && _ && _) eqn:Hfree.
  - injection Hrest as <- <-.
    apply andb_true_iff in Hfree as [[H1 H2]%andb_true_iff H3].
    apply bool_decide_eq_true in H1, H3.
    pose proof (proj1 (not_in_ai_body_spec _ _) H2) as H2'.
    exists (x, y). split_and!; [done| |done..].
    apply elem_of_grid. cbn. lia.
  - by apply IH in Hrest.
Qed.

Lemma spawn_food_Ok (g : Game.t) (tape : list Z) (g' : Game.t)
    (tape' : list Z) :
  Game.spawn_food g tape = Ok ((), g', tape') →
  ∃ c, g' = Game.set_food c g
       ∧ c ∈ grid
       ∧ (c ∉ Snake.body (Game.player g))
       ∧ (∀ ai, Game.ai_snake g = Some ai → c ∉ Snake.body ai)
       ∧ (c ∉ Game.obstacles g).
Proof. apply spawn_food_loop_Ok. Qed.

(** A first pair of draws that hits a free cell ends the loop at once. *)
Lemma spawn_food_free (g : Game.t) (rx ry : Z) (tape : list Z) :
  let c := (rx `mod` GRID_WIDTH, ry `mod` GRID_HEIGHT) in
  c ∉ Snake.body (Game.player g) →
  (∀ ai, Game.ai_snake g = Some ai → c ∉ Snake.body ai) →
  c ∉ Game.obstacles g →
  Game.spawn_food g (rx :: ry :: tape) = Ok ((), Game.set_food c g, tape).
Proof.
  intros c H1 H2 H3. unfold Game.spawn_food.
  cbn [Game.spawn_food_loop length random.randint mbind outcome_bind].
  change (0 + rx `mod` (GRID_WIDTH - 1 - 0 + 1)) with (rx `mod` GRID_WIDTH).
  change (0 + ry `mod` (GRID_HEIGHT - 1 - 0 + 1)) with (ry `mod` GRID_HEIGHT).
  fold c. rewrite !bool_decide_eq_true_2 by done.
  apply (proj2 (not_in_ai_body_spec c g)) in H2. by rewrite H2.
Qed.

Lemma spawn_power_up_loop_Ok (fuel : nat) (g : Game.t) :
  ∀ (tape : list Z) (g' : Game.t) (tape' : list Z),
    Game.spawn_power_up_loop fuel g tape = Ok ((), g', tape') →
    ∃ x y k, g' = Game.set_power_up (Some (PowerUp.init x y k)) g
             ∧ (x, y) ∈ grid
             ∧ ((x, y) ∉ Snake.body (Game.player g))
             ∧ (x, y) ≠ Game.food g
             ∧ ((x, y) ∉ Game.obstacles g).
Proof.
  induction fuel as [|fuel IH]; intros tape g' tape'; [done|].
  cbn [Game.spawn_power_up_loop].
  intros ([x t1] & Hx & ([y t2] & Hy & Hrest)%bind_Ok)%bind_Ok.
  apply randint_Ok in Hx as [Hx _]; [|done].
  apply randint_Ok in Hy as [Hy _]; [|done].
  destruct (_ && _ && _) eqn:Hfree.
  - apply bind_Ok in Hrest as ([k t3] & _ & [= <- <-]).
    apply andb_true_iff in Hfree as [[H1 H2]%andb_true_iff H3].
    apply bool_decide_eq_true in H1, H2, H3.
    exists x, y, k. split_and!; [done| |done..].
    apply elem_of_grid. cbn. lia.
  - by apply IH in Hrest.
Qed.

Lemma spawn_power_up_Ok (g : Game.t) (tape : list Z) (g' : Game.t)
    (tape' : list Z) :
  Game.spawn_power_up g tape = Ok ((), g', tape') →
  g' = g
  ∨ ∃ x y k, g' = Game.set_power_up (Some (PowerUp.init x y k)) g
             ∧ (x, y) ∈ grid
             ∧ ((x, y) ∉ Snake.body (Game.player g))
             ∧ (x, y) ≠ Game.food g
             ∧ ((x, y) ∉ Game.obstacles g).
Proof.
  unfold Game.spawn_power_up. intros ([r t1] & _ & Hrest)%bind_Ok.
  destruct (random.lt r random.float_0_3).
  - right. by apply spawn_power_up_loop_Ok in Hrest.
  - left. by injection Hrest.
Qed.

(** ** The phases of [update] *)

Lemma set_player_id (g : Game.t) : Game.set_player (Game.player g) g = g.
Proof. by destruct g. Qed.

Lemma set_ai_snake_id (g : Game.t) (ai : Snake.t) :
  Game.ai_snake g = Some ai → Game.set_ai_snake (Some ai) g = g.
Proof. destruct g; cbn. by intros ->. Qed.

Lemma body_first_Ok (s : Snake.t) (c : Cell) :
  Snake.body_first s = Ok c ↔ ∃ rest, Snake.body s = c :: rest.
Proof.
  unfold Snake.body_first. destruct (Snake.body s) as [|c' rest].
  - split; [done|]. by intros [? ?].
  - split; [intros [= ->]; by exists rest|]. by intros [? [= -> _]].
Qed.

Lemma move_Ok (grow : bool) (s s' : Snake.t) :
  Snake.move grow s = Ok ((), s') →
  ∃ head rest,
    Snake.body s = head :: rest
    ∧ s' = Snake.set_body
             (offset head (Snake.direction s)
                :: (if grow then head :: rest else removelast (head :: rest)))
             s.
Proof.
  destruct (Snake.body s) as [|head rest] eqn:Hb.
  - by rewrite move_empty.
  - rewrite (move_eq grow s head rest Hb). intros [= <-].
    exists head, rest. split; [done|]. by destruct grow.
Qed.

Lemma ai_move_Ok (food_pos : Cell) (obstacles : option (gset Cell))
    (s s' : Snake.t) :
  Snake.ai_move food_pos obstacles s = Ok ((), s') →
  s' = Snake.set_direction (Snake.direction s') s.
Proof.
  assert (s = Snake.set_direction (Snake.direction s) s) as Hid
    by by destruct s.
  unfold Snake.ai_move. destruct (negb _); [by intros [= <-]|].
  intros (head & _ & Hrest)%bind_Ok. cbn in Hrest.
  repeat match type of Hrest with
         | (match ?x with _ => _ end) = _ => destruct x
         | (if ?b then _ else _) = _ => destruct b
         end;
    by injection Hrest as <-.
Qed.

Lemma in_removelast {A : Type} (l : list A) (a : A) :
  a ∈ removelast l → a ∈ l.
Proof.
  induction l as [|b [|c l] IH].
  - done.
  - cbn. by intros ?%elem_of_nil.
  - change (removelast (b :: c :: l)) with (b :: removelast (c :: l)).
    rewrite !(elem_of_cons _ a b). naive_solver.
Qed.

Lemma move_snakes_Ok (pe ae : bool) (g g1 : Game.t) :
  Game.move_snakes pe ae g = Ok g1 →
  ∃ p1,
    Snake.move pe (Game.player g) = Ok ((), p1)
    ∧ ((g1 = Game.set_player p1 g
        ∧ ∀ ai, Game.ai_snake g = Some ai → Snake.alive ai = false)
       ∨ ∃ ai ai1 ai2,
           Game.ai_snake g = Some ai ∧ Snake.alive ai = true
           ∧ ai1 = Snake.set_direction (Snake.direction ai1) ai
           ∧ Snake.move ae ai1 = Ok ((), ai2)
           ∧ g1 = Game.set_ai_snake (Some ai2) (Game.set_player p1 g)).
Proof.
  unfold Game.move_snakes. intros ([[] p1] & Hp & Hrest)%bind_Ok.
  exists p1. split; [done|]. cbn in Hrest.
  destruct (Game.ai_snake g) as [ai|] eqn:Hai.
  - destruct (Snake.alive ai) eqn:Hal.
    + right.
      apply bind_Ok in Hrest
        as ([[] ai1] & H1 & ([[] ai2] & H2 & [= <-])%bind_Ok).
      exists ai, ai1, ai2. split_and!; [done..| |done|done].
      by apply ai_move_Ok in H1.
    + left. injection Hrest as <-. split; [done|]. by intros ? [= <-].
  - left. injection Hrest as <-. split; [done|]. done.
Qed.

Lemma player_eats_Ok (pe : bool) (g1 g2 : Game.t) (tape t2 : list Z) :
  Game.player_eats pe g1 tape = Ok ((), g2, t2) →
  if pe then
    ∃ c t1,
      Game.spawn_food (scored g1) tape = Ok ((), Game.set_food c (scored g1), t1)
      ∧ free_for_food g1 c
      ∧ (g2 = Game.set_food c (scored g1)
         ∨ ∃ x y k,
             g2 = Game.set_power_up (Some (PowerUp.init x y k))
                    (Game.set_food c (scored g1))
             ∧ ((x, y) ∉ Snake.body (Game.player g1))
             ∧ (x, y) ≠ c
             ∧ ((x, y) ∉ Game.obstacles g1))
  else g2 = g1 ∧ t2 = tape.
Proof.
  unfold Game.player_eats. destruct pe; [|by intros [= <- <-]].
  assert (∀ g, Game.set_player
                 (Snake.set_score
                    (Snake.score (Game.player g)
                     + (if bool_decide
                             (DOUBLE_POINTS ∈ dom (Snake.power_ups (Game.player g)))
                        then 10 * 2 else 10))
                    (Game.player g)) g = scored g) as ->.
  { intros g. unfold scored, points_for. by case_bool_decide. }
  intros ([[[] g'] t1] & Hf & ([r t1'] & _ & Hrest)%bind_Ok)%bind_Ok.
  pose proof Hf as Hf'.
  apply spawn_food_Ok in Hf' as (c & -> & Hc).
  exists c, t1. split; [done|]. split; [done|].
  destruct (random.lt r random.float_0_2).
  - apply spawn_power_up_Ok in Hrest
      as [->|(x & y & k & -> & _ & H1 & H2 & H3)]; [by left|].
    right. by exists x, y, k.
  - left. by injection Hrest.
Qed.

Lemma ai_eats_Ok (pe ae : bool) (g2 g3 : Game.t) (t2 t3 : list Z) :
  Game.ai_eats pe ae g2 t2 = Ok ((), g3, t3) →
  if ae then
    ∃ ai, Game.ai_snake g2 = Some ai
          ∧ let g2' :=
              Game.set_ai_snake
                (Some (Snake.set_score (Snake.score ai + 10) ai)) g2 in
            if pe then g3 = g2' ∧ t3 = t2
            else ∃ c, g3 = Game.set_food c g2' ∧ free_for_food g2' c
  else g3 = g2 ∧ t3 = t2.
Proof.
  unfold Game.ai_eats. destruct ae; [|by intros [= <- <-]].
  destruct (Game.ai_snake g2) as [ai|]; [|done].
  intros Hrest. exists ai. split; [done|]. cbn zeta.
  destruct pe; cbn [negb] in Hrest; [by injection Hrest as <- <-|].
  apply spawn_food_Ok in Hrest as (c & -> & Hc). by exists c.
Qed.

Lemma collect_power_up_Ok (ticks : Z) (g3 g4 : Game.t) :
  Game.collect_power_up ticks g3 = Ok g4 →
  g4 = g3
  ∨ ∃ pu,
      Game.power_up g3 = Some pu
      ∧ g4 = Game.set_power_up None
               (Game.set_player
                  (Snake.set_power_ups
                     (<[PowerUp.type pu := ticks]>
                        (Snake.power_ups (Game.player g3)))
                     (Game.player g3)) g3).
Proof.
  unfold Game.collect_power_up.
  destruct (Game.power_up g3) as [pu|]; [|intros [= <-]; by left].
  intros (head & _ & Hrest)%bind_Ok.
  case_bool_decide; injection Hrest as <-; [right|by left].
  by exists pu.
Qed.

Lemma check_collision_Ok (obstacles : gset Cell) (s s' : Snake.t) (b : bool) :
  Snake.check_collision (Some obstacles) s = Ok (b, s') →
  s' = s ∧ (b = true ↔ collides obstacles (Snake.body s)).
Proof.
  destruct (Snake.body s) as [|head rest] eqn:Hb.
  { unfold Snake.check_collision, Snake.body_first. by rewrite Hb. }
  destruct (check_collision_eq (Some obstacles) s head rest Hb)
    as (b' & -> & Hiff).
  by intros [= <-].
Qed.

Lemma check_collisions_Ok (g4 g' : Game.t) (a : bool) :
  Game.check_collisions g4 = Ok (a, g') →
  if a then
    ¬ collides (Game.obstacles g4) (Snake.body (Game.player g4))
    ∧ (g' = g4
       ∨ ∃ ai, Game.ai_snake g4 = Some ai ∧ Snake.alive ai = true
               ∧ collides (Game.obstacles g4) (Snake.body ai)
               ∧ g' = Game.set_ai_snake (Some (Snake.set_alive false ai)) g4)
  else
    collides (Game.obstacles g4) (Snake.body (Game.player g4))
    ∧ g' = Game.set_player (Snake.set_alive false (Game.player g4)) g4.
Proof.
  unfold Game.check_collisions. intros ([hit p] & Hc & Hrest)%bind_Ok.
  apply check_collision_Ok in Hc as [-> Hiff].
  rewrite set_player_id in Hrest.
  destruct hit.
  { injection Hrest as <- <-. split; [by apply Hiff|done]. }
  assert (¬ collides (Game.obstacles g4) (Snake.body (Game.player g4)))
    by (intros ?%Hiff; done).
  destruct (Game.ai_snake g4) as [ai|] eqn:Hai; [|injection Hrest as <- <-; auto].
  destruct (Snake.alive ai) eqn:Hal; [|injection Hrest as <- <-; auto].
  apply bind_Ok in Hrest as ([hit' ai'] & Hc & Hrest).
  apply check_collision_Ok in Hc as [-> Hiff'].
  destruct hit'; injection Hrest as <- <-; (split; [done|]).
  - right. exists ai. split_and!; [done..| |done]. by apply Hiff'.
  - left. by apply set_ai_snake_id.
Qed.

Lemma update_Ok (ticks : Z) (g g' : Game.t) (tape tape' : list Z) (a : bool) :
  Game.update ticks g tape = Ok (a, g', tape') →
  ∃ head ae g1 g2 t2 g3 g4,
    Snake.body_first (Game.player g) = Ok head
    ∧ Game.ai_will_eat g = Ok ae
    ∧ Game.move_snakes (bool_decide (head = Game.food g)) ae g = Ok g1
    ∧ Game.player_eats (bool_decide (head = Game.food g)) g1 tape
      = Ok ((), g2, t2)
    ∧ Game.ai_eats (bool_decide (head = Game.food g)) ae g2 t2
      = Ok ((), g3, tape')
    ∧ Game.collect_power_up ticks g3 = Ok g4
    ∧ Game.check_collisions g4 = Ok (a, g').
Proof.
  unfold Game.update.
  intros (head & Hh & (ae & Hae & (g1 & H1 & ([[[] g2] t2] & H2
          & ([[[] g3] t3] & H3 & (g4 & H4 & ([a' g''] & H5 & [= <- <- <-]
          )%bind_Ok)%bind_Ok)%bind_Ok)%bind_Ok)%bind_Ok)%bind_Ok)%bind_Ok.
  by exists head, ae, g1, g2, t2, g3, g4.
Qed.

Lemma ai_will_eat_Ok (g : Game.t) (ae : bool) :
  Game.ai_will_eat g = Ok ae →
  if ae then
    ∃ ai rest, Game.ai_snake g = Some ai ∧ Snake.alive ai = true
               ∧ Snake.body ai = Game.food g :: rest
  else
    ∀ ai, Game.ai_snake g = Some ai → Snake.alive ai = true →
          ∃ head rest, Snake.body ai = head :: rest ∧ head ≠ Game.food g.
Proof.
  unfold Game.ai_will_eat. destruct (Game.ai_snake g) as [ai|].
  - destruct (Snake.alive ai) eqn:Hal.
    + intros (head & [rest Hb]%body_first_Ok & [= <-])%bind_Ok.
      case_bool_decide as Hf.
      * subst. by exists ai, rest.
      * intros ? [= <-] _. by exists head, rest.
    + intros [= <-]. intros ? [= <-]. congruence.
  - intros [= <-]. done.
Qed.

(** ** What one tick does to the round *)

Ltac fields :=
  cbn [Game.player Game.ai_snake Game.food Game.power_up Game.obstacles
       Game.level Game.game_mode Game.running
       Game.set_player Game.set_ai_snake Game.set_food Game.set_power_up
       Game.set_running
       Snake.body Snake.direction Snake.score Snake.alive Snake.is_ai
       Snake.power_ups Snake.set_body Snake.set_direction Snake.set_score
       Snake.set_alive Snake.set_power_ups scored] in *.

Lemma free_for_food_ext (g g' : Game.t) (c : Cell) :
  Snake.body (Game.player g') = Snake.body (Game.player g) →
  Game.obstacles g' = Game.obstacles g →
  (∀ ai', Game.ai_snake g' = Some ai' →
          ∃ ai, Game.ai_snake g = Some ai ∧ Snake.body ai = Snake.body ai') →
  free_for_food g c → free_for_food g' c.
Proof.
  intros Hp Ho Ha (H1 & H2 & H3 & H4). unfold free_for_food.
  rewrite Hp, Ho. split; [exact H1|]. split; [exact H2|]. split; [|exact H4].
  intros ai' (ai & Hs & <-)%Ha. by apply H3.
Qed.

Lemma move_snakes_frame (pe ae : bool) (g g1 : Game.t) (head : Cell)
    (rest : list Cell) :
  Snake.body (Game.player g) = head :: rest →
  Game.move_snakes pe ae g = Ok g1 →
  Game.obstacles g1 = Game.obstacles g
  ∧ Game.food g1 = Game.food g
  ∧ Game.player g1
    = Snake.set_body
        (offset head (Snake.direction (Game.player g))
           :: (if pe then head :: rest else removelast (head :: rest)))
        (Game.player g)
  ∧ match Game.ai_snake g with
    | None => Game.ai_snake g1 = None
    | Some ai =>
        if Snake.alive ai then
          ∃ h r d,
            Snake.body ai = h :: r
            ∧ Game.ai_snake g1
              = Some (Snake.set_body
                        (offset h d
                           :: (if ae then h :: r else removelast (h :: r)))
                        (Snake.set_direction d ai))
        else Game.ai_snake g1 = Some ai
    end.
Proof.
  intros Hb (p1 & (h0 & r0 & Hb0 & ->)%move_Ok & Hmove)%move_snakes_Ok.
  rewrite Hb in Hb0. injection Hb0 as <- <-.
  destruct Hmove as [[-> Hdead]|(ai & ai1 & ai2 & Hs & Hal & Hai1 & Hm2 & ->)];
    fields.
  - split_and!; [done..|]. destruct (Game.ai_snake g) as [ai|]; [|done].
    by rewrite (Hdead ai eq_refl).
  - split_and!; [done..|]. rewrite Hs, Hal.
    apply move_Ok in Hm2 as (h & r & Hb1 & ->).
    exists h, r, (Snake.direction ai1).
    rewrite Hai1 in Hb1 |- *. fields. done.
Qed.

Lemma player_eats_frame (pe : bool) (g1 g2 : Game.t) (tape t2 : list Z) :
  Game.player_eats pe g1 tape = Ok ((), g2, t2) →
  Game.obstacles g2 = Game.obstacles g1
  ∧ Game.ai_snake g2 = Game.ai_snake g1
  ∧ Game.player g2 = (if pe then Game.player (scored g1) else Game.player g1)
  ∧ if pe then
      free_for_food g1 (Game.food g2)
      ∧ ∃ t1, Game.spawn_food (scored g1) tape
              = Ok ((), Game.set_food (Game.food g2) (scored g1), t1)
    else Game.food g2 = Game.food g1.
Proof.
  intros H%player_eats_Ok. destruct pe.
  - destruct H as (c & t1 & Hsp & Hfree & Hg2).
    assert (Game.food g2 = c ∧ Game.obstacles g2 = Game.obstacles g1
            ∧ Game.player g2 = Game.player (scored g1)
            ∧ Game.ai_snake g2 = Game.ai_snake g1) as (-> & Ho & Hp & Ha).
    { destruct Hg2 as [->|(x & y & k & -> & _)]; by fields. }
    split_and!; [assumption..|]. by exists t1.
  - by destruct H as [-> _].
Qed.

Lemma ai_eats_frame (pe ae : bool) (g2 g3 : Game.t) (t2 t3 : list Z) :
  Game.ai_eats pe ae g2 t2 = Ok ((), g3, t3) →
  Game.obstacles g3 = Game.obstacles g2
  ∧ Game.player g3 = Game.player g2
  ∧ (if ae then
       ∃ ai, Game.ai_snake g2 = Some ai
             ∧ Game.ai_snake g3
               = Some (Snake.set_score (Snake.score ai + 10) ai)
     else Game.ai_snake g3 = Game.ai_snake g2)
  ∧ if ae && negb pe then free_for_food g3 (Game.food g3)
    else Game.food g3 = Game.food g2.
Proof.
  intros H%ai_eats_Ok. destruct ae; [|by destruct H as [-> _]].
  destruct H as (ai & Hs & H). cbn zeta in H. destruct pe; cbn [andb negb].
  - destruct H as [-> _]. fields. split_and!; [done..| |done]. by exists ai.
  - destruct H as (c & -> & Hfree). fields.
    split_and!; [done..|by exists ai|].
    revert Hfree. apply free_for_food_ext; [done..|].
    intros ai' Hs'. by exists ai'.
Qed.

(** The phases up to the food: bodies, scores and food. *)
Lemma early_phases (g g1 g2 g3 : Game.t) (head : Cell) (rest : list Cell)
    (ae : bool) (tape t2 t3 : list Z) :
  let pe := bool_decide (head = Game.food g) in
  Snake.body (Game.player g) = head :: rest →
  Game.ai_will_eat g = Ok ae →
  Game.move_snakes pe ae g = Ok g1 →
  Game.player_eats pe g1 tape = Ok ((), g2, t2) →
  Game.ai_eats pe ae g2 t2 = Ok ((), g3, t3) →
  Game.obstacles g3 = Game.obstacles g
  ∧ Snake.body (Game.player g3)
    = offset head (Snake.direction (Game.player g))
        :: (if pe then head :: rest else removelast (head :: rest))
  ∧ Snake.score (Game.player g3)
    = Snake.score (Game.player g)
      + (if pe then points_for (Game.player g) else 0)
  ∧ Snake.power_ups (Game.player g3) = Snake.power_ups (Game.player g)
  ∧ match Game.ai_snake g with
    | None => Game.ai_snake g3 = None ∧ ae = false
    | Some ai =>
        ∃ ai3,
          Game.ai_snake g3 = Some ai3
          ∧ Snake.alive ai3 = Snake.alive ai
          ∧ Snake.score ai3 = Snake.score ai + (if ae then 10 else 0)
          ∧ if Snake.alive ai then
              ∃ h r d,
                Snake.body ai = h :: r
                ∧ ae = bool_decide (h = Game.food g)
                ∧ Snake.body ai3
                  = offset h d :: (if ae then h :: r else removelast (h :: r))
            else Snake.body ai3 = Snake.body ai ∧ ae = false
    end
  ∧ (if pe || ae then free_for_food g3 (Game.food g3)
     else Game.food g3 = Game.food g)
  ∧ (pe = true →
     ∃ t1, Game.spawn_food (scored g1) tape
           = Ok ((), Game.set_food (Game.food g3) (scored g1), t1)).
Proof.
  intros pe Hb Hae Hmove Hpe Hai.
  apply ai_will_eat_Ok in Hae.
  apply (move_snakes_frame _ _ _ _ head rest Hb) in Hmove
    as (Ho1 & Hf1 & Hp1 & Ha1).
  apply player_eats_frame in Hpe as (Ho2 & Ha2 & Hp2 & Hf2).
  apply ai_eats_frame in Hai as (Ho3 & Hp3 & Ha3 & Hf3).
  assert (Snake.body (Game.player g3) = Snake.body (Game.player g1)
          ∧ Snake.score (Game.player g3)
            = Snake.score (Game.player g)
              + (if pe then points_for (Game.player g) else 0)
          ∧ Snake.power_ups (Game.player g3)
            = Snake.power_ups (Game.player g)) as (Hbody & Hscore & Hpus).
  { rewrite Hp3, Hp2.
    destruct pe; fields; unfold points_for; rewrite !Hp1; fields;
      split_and!; try done; lia. }
  (* the opponent *)
  assert (match Game.ai_snake g with
          | None => Game.ai_snake g3 = None ∧ ae = false
          | Some ai =>
              ∃ ai3,
                Game.ai_snake g3 = Some ai3
                ∧ Snake.alive ai3 = Snake.alive ai
                ∧ Snake.score ai3 = Snake.score ai + (if ae then 10 else 0)
                ∧ (∃ ai1, Game.ai_snake g1 = Some ai1
                          ∧ Snake.body ai3 = Snake.body ai1)
                ∧ if Snake.alive ai then
                    ∃ h r d,
                      Snake.body ai = h :: r
                      ∧ ae = bool_decide (h = Game.food g)
                      ∧ Snake.body ai3
                        = offset h d
                            :: (if ae then h :: r else removelast (h :: r))
                  else Snake.body ai3 = Snake.body ai ∧ ae = false
          end) as Hopp.
  { destruct (Game.ai_snake g) as [ai|] eqn:Hs.
    - destruct (Snake.alive ai) eqn:Hal.
      + destruct Ha1 as (h & r & d & Hbai & Hs1).
        assert (ae = bool_decide (h = Game.food g)) as Hae'.
        { destruct ae.
          - destruct Hae as (ai' & rest' & [= <-] & _ & Hb').
            rewrite Hbai in Hb'. injection Hb' as -> _.
            by rewrite bool_decide_eq_true_2.
          - destruct (Hae ai eq_refl Hal) as (h' & r' & Hb' & Hne).
            rewrite Hbai in Hb'. injection Hb' as <- _.
            by rewrite bool_decide_eq_false_2. }
        rewrite Ha2, Hs1 in Ha3.
        destruct ae.
        * destruct Ha3 as (ai' & [= <-] & ->). eexists.
          split; [reflexivity|]. fields.
          split_and!; [done|done|by eexists|]. by exists h, r, d.
        * rewrite Ha3. eexists. split; [reflexivity|]. fields.
          split_and!; [done|lia|by eexists|]. by exists h, r, d.
      + assert (ae = false) as ->.
        { destruct ae; [|done].
          destruct Hae as (ai' & ? & [= <-] & Hal' & _). congruence. }
        rewrite Ha3, Ha2, Ha1. exists ai.
        split_and!; [done|done|lia|by exists ai|done..].
    - assert (ae = false) as ->.
      { destruct ae; [|done]. by destruct Hae as (ai' & ? & ? & _). }
      by rewrite Ha3, Ha2, Ha1. }
  split; [by rewrite Ho3, Ho2|].
  split; [by rewrite Hbody, Hp1|].
  split; [done|]. split; [done|]. split.
  { destruct (Game.ai_snake g) as [ai|]; [|done].
    destruct Hopp as (ai3 & ? & ? & ? & _ & ?). by exists ai3. }
  assert (pe = true →
          free_for_food g3 (Game.food g3)
          ∧ ∃ t1, Game.spawn_food (scored g1) tape
                  = Ok ((), Game.set_food (Game.food g3) (scored g1), t1))
    as Hpe_true.
  { intros Hpe. rewrite Hpe in Hf2, Hf3.
    rewrite andb_false_r in Hf3. rewrite Hf3.
    destruct Hf2 as [Hfree Hsp]. split; [|done].
    revert Hfree. apply free_for_food_ext; [done|by rewrite Ho3, Ho2|].
    intros ai3 Hs3. destruct (Game.ai_snake g) as [ai|].
    - destruct Hopp as (ai3' & Hs3' & _ & _ & (ai1 & Hs1 & Hb1) & _).
      rewrite Hs3 in Hs3'. injection Hs3' as <-. by exists ai1.
    - destruct Hopp as [Hn _]. congruence. }
  split; [|by intros (_ & ?)%Hpe_true].
  destruct pe eqn:Hpeq; [by apply Hpe_true|].
  cbn [orb]. rewrite andb_true_r in Hf3. destruct ae; [done|].
  by rewrite Hf3, Hf2.
Qed.

(** The phases after the food: only the power-up mapping, the power-up on
    the grid and the alive flags change. *)
Lemma late_phases (ticks : Z) (g3 g4 g' : Game.t) (a : bool) :
  Game.collect_power_up ticks g3 = Ok g4 →
  Game.check_collisions g4 = Ok (a, g') →
  Game.food g' = Game.food g3
  ∧ Game.obstacles g' = Game.obstacles g3
  ∧ Snake.body (Game.player g') = Snake.body (Game.player g3)
  ∧ Snake.score (Game.player g') = Snake.score (Game.player g3)
  ∧ (Snake.power_ups (Game.player g') = Snake.power_ups (Game.player g3)
     ∨ ∃ k, Snake.power_ups (Game.player g')
            = <[k := ticks]> (Snake.power_ups (Game.player g3)))
  ∧ match Game.ai_snake g3 with
    | None => Game.ai_snake g' = None
    | Some ai =>
        ∃ ai', Game.ai_snake g' = Some ai'
               ∧ Snake.body ai' = Snake.body ai
               ∧ Snake.score ai' = Snake.score ai
               ∧ (Snake.alive ai' = true → Snake.alive ai = true)
    end
  ∧ (a = false ↔ collides (Game.obstacles g') (Snake.body (Game.player g')))
  ∧ (a = false → Snake.alive (Game.player g') = false).
Proof.
  intros H4%collect_power_up_Ok H5%check_collisions_Ok.
  assert (Game.food g4 = Game.food g3
          ∧ Game.obstacles g4 = Game.obstacles g3
          ∧ Snake.body (Game.player g4) = Snake.body (Game.player g3)
          ∧ Snake.score (Game.player g4) = Snake.score (Game.player g3)
          ∧ (Snake.power_ups (Game.player g4)
             = Snake.power_ups (Game.player g3)
             ∨ ∃ k, Snake.power_ups (Game.player g4)
                    = <[k := ticks]> (Snake.power_ups (Game.player g3)))
          ∧ Game.ai_snake g4 = Game.ai_snake g3)
    as (Hf & Ho & Hb & Hsc & Hpu & Hai).
  { destruct H4 as [->|(pu & _ & ->)]; fields.
    - split_and!; [done..|by left|done].
    - split_and!; [done..| |done]. right. by eexists. }
  rewrite <- Hf, <- Ho, <- Hb, <- Hsc, <- Hai.
  assert (Snake.power_ups (Game.player g') = Snake.power_ups (Game.player g4)
          → Snake.power_ups (Game.player g') = Snake.power_ups (Game.player g3)
            ∨ ∃ k, Snake.power_ups (Game.player g')
                   = <[k := ticks]> (Snake.power_ups (Game.player g3)))
    as Hpu' by (by intros ->).
  destruct a.
  - destruct H5 as [Hnc [->|(ai & Hs & Hal & Hc & ->)]]; fields.
    + split_and!; [done..|by apply Hpu'| | |done].
      * destruct (Game.ai_snake g4) as [ai|]; [|done]. by exists ai.
      * split; [done|]. intros ?. by destruct Hnc.
    + split_and!; [done..|by apply Hpu'| | |done].
      * rewrite Hs. eexists. split; [reflexivity|]. by fields.
      * split; [done|]. intros ?. by destruct Hnc.
  - destruct H5 as [Hc ->]. fields.
    split_and!; [done..|by apply Hpu'| | |done].
    + destruct (Game.ai_snake g4) as [ai|]; [|done]. by exists ai.
    + done.
Qed.

(** ** The food *)

Lemma tail_removelast_cons {A : Type} (x h : A) (r : list A) (c : A) :
  c ∈ tail (x :: removelast (h :: r)) → c ∈ h :: r.
Proof. cbn [tail]. apply in_removelast. Qed.

(** The food through one tick. *)
Lemma update_food (ticks : Z) (g g' : Game.t)
    (tape tape' : list Z) (a : bool) :
  food_clear g →
  Game.update ticks g tape = Ok (a, g', tape') →
  food_clear g'
  ∧ (Game.food g' ≠ Game.food g → food_off_snakes g')
  ∧ (head (Snake.body (Game.player g)) = Some (Game.food g) →
     Game.food g' ≠ Game.food g)
  ∧ (∀ ai, Game.ai_snake g = Some ai → Snake.alive ai = true →
           head (Snake.body ai) = Some (Game.food g) →
           Game.food g' ≠ Game.food g).
Proof.
  intros (Hco & Hcp & Hca)
    (hd & ae & g1 & g2 & t2 & g3 & g4 & [rest Hb]%body_first_Ok
     & Hae & H1 & H2 & H3 & H4 & H5)%update_Ok.
  destruct (early_phases g g1 g2 g3 hd rest ae tape t2 tape' Hb Hae H1 H2 H3)
    as (Ho3 & Hb3 & _ & _ & Hopp & Hfood & _).
  destruct (late_phases ticks g3 g4 g' a H4 H5)
    as (Hf' & Ho' & Hb' & _ & _ & Hopp' & _).
  rewrite Hb in Hcp. cbn [tail] in Hcp.
  (* the food after the tick is off both snakes, or it is the old food and
     no snake has eaten *)
  assert (food_off_snakes g'
          ∨ (Game.food g' = Game.food g
             ∧ bool_decide (hd = Game.food g) = false ∧ ae = false))
    as Hcases.
  { destruct (bool_decide (hd = Game.food g) || ae) eqn:Heat.
    - left. destruct Hfood as (_ & Hfp & Hfa & _). split.
      + by rewrite Hf', Hb'.
      + intros ai' Hs'. rewrite Hf'.
        destruct (Game.ai_snake g3) as [ai3|]; [|congruence].
        destruct Hopp' as (ai'' & Hs'' & Hbb & _).
        rewrite Hs' in Hs''. injection Hs'' as <-. rewrite Hbb.
        by apply Hfa.
    - right. apply orb_false_iff in Heat as [? ?].
      split; [congruence|done]. }
  assert (Game.food g' ∉ Game.obstacles g') as Hobs.
  { rewrite Hf', Ho', Ho3.
    destruct (bool_decide (hd = Game.food g) || ae).
    - destruct Hfood as (_ & _ & _ & Hfo). by rewrite Ho3 in Hfo.
    - by rewrite Hfood. }
  split; [|split; [|split]].
  - destruct Hcases as [[Hp Ha]|(Hsame & Hpe & ->)].
    + split; [done|]. split.
      * intros Hin. apply Hp. destruct (Snake.body (Game.player g'));
          [done|by right].
      * intros ai' Hs' _ Hin. apply (Ha ai' Hs').
        destruct (Snake.body ai'); [done|by right].
    + split; [done|]. rewrite Hsame. split.
      * rewrite Hb', Hb3, Hpe. intros Hin%tail_removelast_cons.
        apply bool_decide_eq_false in Hpe.
        apply elem_of_cons in Hin as [?|?]; [by apply Hpe|by apply Hcp].
      * intros ai' Hs' Hal'.
        destruct (Game.ai_snake g) as [ai|] eqn:Hs.
        2:{ destruct Hopp as [Hn _]. rewrite Hn in Hopp'. congruence. }
        destruct Hopp as (ai3 & Hs3 & Hal3 & _ & Hbody).
        rewrite Hs3 in Hopp'.
        destruct Hopp' as (ai'' & Hs'' & Hbb & _ & Halive).
        rewrite Hs' in Hs''. injection Hs'' as <-.
        specialize (Halive Hal'). rewrite Hal3 in Halive.
        rewrite Halive in Hbody.
        destruct Hbody as (h & r & d & Hbai & Hne & Hb3').
        rewrite Hbb, Hb3'. intros Hin%tail_removelast_cons.
        symmetry in Hne. apply bool_decide_eq_false in Hne.
        specialize (Hca ai eq_refl Halive). rewrite Hbai in Hca.
        apply elem_of_cons in Hin as [?|?]; [by apply Hne|by apply Hca].
  - intros Hne. by destruct Hcases as [?|[? _]].
  - rewrite Hb. intros [= ->].
    rewrite bool_decide_eq_true_2 in Hfood, Hb3 by done.
    destruct Hfood as (_ & Hfp & _). rewrite Hf'. intros Heq.
    apply Hfp. rewrite Hb3, Heq. set_solver.
  - intros ai Hs Hal Hhd. rewrite Hs in Hopp.
    destruct Hopp as (ai3 & Hs3 & _ & _ & Hbody). rewrite Hal in Hbody.
    destruct Hbody as (h & r & d & Hbai & Hae' & Hb3').
    rewrite Hbai in Hhd. injection Hhd as ->.
    rewrite bool_decide_eq_true_2 in Hae' by done. subst ae.
    rewrite orb_true_r in Hfood.
    destruct Hfood as (_ & _ & Hfa & _). rewrite Hf'. intros Heq.
    apply (Hfa ai3 Hs3). rewrite Hb3', Heq. set_solver.
Qed.


(** ** A tick completes when the draws hit a free cell

    The sampling loops are the only part of a tick that may fail to end.
    With non-empty bodies nothing else raises, and once both snakes have
    moved, any cell that is free for the food yields draws on which the
    tick completes. *)

Lemma ai_will_eat_total (g : Game.t) :
  (∀ ai, Game.ai_snake g = Some ai → Snake.alive ai = true →
         Snake.body ai ≠ []) →
  ∃ ae, Game.ai_will_eat g = Ok ae.
Proof.
  intros Hne. unfold Game.ai_will_eat, Snake.body_first.
  destruct (Game.ai_snake g) as [ai|]; [|by eexists].
  destruct (Snake.alive ai) eqn:Hal; [|by eexists].
  specialize (Hne ai eq_refl Hal).
  destruct (Snake.body ai); [done|]. by eexists.
Qed.

Lemma ai_move_total (food_pos : Cell) (obstacles : option (gset Cell))
    (s : Snake.t) :
  Snake.body s ≠ [] →
  ∃ s', Snake.ai_move food_pos obstacles s = Ok ((), s')
        ∧ Snake.body s' = Snake.body s.
Proof.
  intros Hne. unfold Snake.ai_move, Snake.body_first.
  destruct (negb _); [by eexists|].
  destruct (Snake.body s) as [|head rest] eqn:Hb; [done|].
  cbn [mbind outcome_bind Snake.bfs_path].
  repeat match goal with
         | |- ∃ _, (match ?x with _ => _ end) = _ ∧ _ => destruct x
         | |- ∃ _, (if ?b then _ else _) = _ ∧ _ => destruct b
         end;
    by eexists.
Qed.

Lemma move_total (grow : bool) (s : Snake.t) :
  Snake.body s ≠ [] →
  ∃ s', Snake.move grow s = Ok ((), s') ∧ Snake.body s' ≠ []
        ∧ Snake.alive s' = Snake.alive s.
Proof.
  intros Hne. destruct (Snake.body s) as [|head rest] eqn:Hb; [done|].
  rewrite (move_eq grow s head rest Hb). eexists. split; [done|].
  fields. by destruct grow.
Qed.

Lemma move_snakes_total (pe ae : bool) (g : Game.t) :
  Snake.body (Game.player g) ≠ [] →
  (∀ ai, Game.ai_snake g = Some ai → Snake.alive ai = true →
         Snake.body ai ≠ []) →
  ∃ g1, Game.move_snakes pe ae g = Ok g1
        ∧ Snake.body (Game.player g1) ≠ []
        ∧ (∀ ai, Game.ai_snake g1 = Some ai → Snake.alive ai = true →
                 Snake.body ai ≠ [])
        ∧ (Game.ai_snake g = None → Game.ai_snake g1 = None)
        ∧ (∀ ai, Game.ai_snake g = Some ai → ∃ ai1, Game.ai_snake g1 = Some ai1).
Proof.
  intros Hp Ha. unfold Game.move_snakes.
  destruct (move_total pe (Game.player g) Hp) as (p1 & -> & Hp1 & _).
  cbn [mbind outcome_bind]. fields.
  destruct (Game.ai_snake g) as [ai|] eqn:Hs.
  - destruct (Snake.alive ai) eqn:Hal.
    + specialize (Ha ai eq_refl Hal).
      destruct (ai_move_total (Game.food g) (Some (Game.obstacles g)) ai Ha)
        as (ai1 & -> & Hb1).
      cbn [mbind outcome_bind]. rewrite <- Hb1 in Ha.
      destruct (move_total ae ai1 Ha) as (ai2 & -> & Hb2 & _).
      cbn [mbind outcome_bind]. eexists. split; [done|]. fields.
      split_and!; [done| |done|by eexists]. by intros ? [= <-] _.
    + eexists. split; [done|]. fields. rewrite Hs.
      split_and!; [done| |done|by eexists]. intros ? [= <-]. congruence.
  - eexists. split; [done|]. fields. rewrite Hs. done.
Qed.

Lemma check_collision_total (obstacles : option (gset Cell)) (s : Snake.t) :
  Snake.body s ≠ [] →
  ∃ b, Snake.check_collision obstacles s = Ok (b, s).
Proof.
  intros Hne. destruct (Snake.body s) as [|head rest] eqn:Hb; [done|].
  destruct (check_collision_eq obstacles s head rest Hb) as (b & -> & _).
  by exists b.
Qed.

Lemma finish_total (ticks : Z) (g3 : Game.t) :
  Snake.body (Game.player g3) ≠ [] →
  (∀ ai, Game.ai_snake g3 = Some ai → Snake.alive ai = true →
         Snake.body ai ≠ []) →
  ∃ a g',
    (g4 ← Game.collect_power_up ticks g3;
     '(alive, g') ← Game.check_collisions g4;
     Ok (alive, g', @nil Z)) = Ok (a, g', []).
Proof.
  intros Hp Ha.
  assert (∃ g4, Game.collect_power_up ticks g3 = Ok g4
                ∧ Snake.body (Game.player g4) = Snake.body (Game.player g3)
                ∧ Game.ai_snake g4 = Game.ai_snake g3
                ∧ Game.obstacles g4 = Game.obstacles g3)
    as (g4 & -> & Hb4 & Ha4 & Ho4).
  { unfold Game.collect_power_up, Snake.body_first.
    destruct (Game.power_up g3); [|by eexists].
    destruct (Snake.body (Game.player g3)) eqn:Hb3; [done|].
    cbn [mbind outcome_bind].
    case_bool_decide; (eexists; split; [done|]); fields; by rewrite Hb3. }
  cbn [mbind outcome_bind]. unfold Game.check_collisions.
  rewrite <- Hb4 in Hp. rewrite <- Ha4 in Ha.
  destruct (check_collision_total (Some (Game.obstacles g4)) _ Hp) as [hit ->].
  cbn [mbind outcome_bind]. rewrite set_player_id.
  destruct hit; [by eexists _, _|].
  destruct (Game.ai_snake g4) as [ai|] eqn:Hs; [|by eexists _, _].
  destruct (Snake.alive ai) eqn:Hal; [|by eexists _, _].
  destruct (check_collision_total (Some (Game.obstacles g4)) ai
              (Ha ai eq_refl Hal)) as [hit' ->].
  cbn [mbind outcome_bind]. destruct hit'; by eexists _, _.
Qed.

Lemma spawn_food_at (g : Game.t) (c : Cell) (tape : list Z) :
  free_for_food g c →
  Game.spawn_food g (c.1 :: c.2 :: tape) = Ok ((), Game.set_food c g, tape).
Proof.
  intros (Hg%elem_of_grid & H1 & H2 & H3).
  pose proof (spawn_food_free g c.1 c.2 tape) as Hfree. cbn zeta in Hfree.
  rewrite !Z.mod_small in Hfree by lia.
  destruct c as [x y]. by apply Hfree.
Qed.

Lemma update_completes (ticks : Z) (g : Game.t) (hd : Cell)
    (rest : list Cell) :
  Snake.body (Game.player g) = hd :: rest →
  (∀ ai, Game.ai_snake g = Some ai → Snake.alive ai = true →
         Snake.body ai ≠ []) →
  ∃ ae g1,
    Game.ai_will_eat g = Ok ae
    ∧ Game.move_snakes (bool_decide (hd = Game.food g)) ae g = Ok g1
    ∧ ∀ c, free_for_food g1 c →
           ∃ tape a g', Game.update ticks g tape = Ok (a, g', []).
Proof.
  intros Hb Ha.
  destruct (ai_will_eat_total g Ha) as [ae Hae].
  destruct (bool_decide (hd = Game.food g)) eqn:Hpe.
  all: assert (Snake.body (Game.player g) ≠ []) as Hp' by by rewrite Hb.
  all: match type of Hpe with _ = ?pe =>
         destruct (move_snakes_total pe ae g Hp' Ha)
           as (g1 & Hmove & Hp1 & Ha1 & Hnone & Hsome)
       end.
  all: exists ae, g1; split; [done|]; split; [done|]; intros c Hfree.
  all: assert (ae = true → ∃ ai1, Game.ai_snake g1 = Some ai1) as Hae_some
         by (intros ->; apply ai_will_eat_Ok in Hae as (ai & _ & Hs & _);
             by apply (Hsome ai)).
  - (* the player eats: two draws for the food, one that spawns no power-up *)
    exists [c.1; c.2; 2 ^ 52].
    unfold Game.update, Snake.body_first. rewrite Hb.
    cbn [mbind outcome_bind]. rewrite Hae. cbn [mbind outcome_bind].
    rewrite Hpe, Hmove. cbn [mbind outcome_bind].
    unfold Game.player_eats, Game.ai_eats.
    match goal with
    | |- context [Game.spawn_food ?gs _] =>
        rewrite (spawn_food_at gs c [2 ^ 52])
          by (revert Hfree; apply free_for_food_ext; [done..|];
              intros ai' Hs'; by exists ai')
    end.
    cbn [mbind outcome_bind random.random].
    change (random.lt (2 ^ 52 `mod` 2 ^ 53) random.float_0_2) with false.
    cbn [mbind outcome_bind negb].
    destruct ae.
    + destruct (Hae_some eq_refl) as [ai1 Hs1]. fields. rewrite Hs1.
      cbn [mbind outcome_bind]. apply finish_total; fields; [done|].
      intros ? [= <-]. fields. by apply Ha1.
    + cbn [mbind outcome_bind]. by apply finish_total.
  - destruct ae.
    + (* the opponent alone eats: two draws for the food *)
      exists [c.1; c.2].
      unfold Game.update, Snake.body_first. rewrite Hb.
      cbn [mbind outcome_bind]. rewrite Hae. cbn [mbind outcome_bind].
      rewrite Hpe, Hmove. cbn [mbind outcome_bind].
      unfold Game.player_eats, Game.ai_eats. cbn [mbind outcome_bind negb].
      destruct (Hae_some eq_refl) as [ai1 Hs1]. rewrite Hs1.
      match goal with
      | |- context [Game.spawn_food ?gs _] =>
          rewrite (spawn_food_at gs c [])
            by (revert Hfree; apply free_for_food_ext; [done..|]; fields;
                intros ai' [= <-]; by exists ai1)
      end.
      cbn [mbind outcome_bind]. apply finish_total; fields; [done|].
      intros ? [= <-]. fields. by apply Ha1.
    + (* nobody eats: no draw at all *)
      exists [].
      unfold Game.update, Snake.body_first. rewrite Hb.
      cbn [mbind outcome_bind]. rewrite Hae. cbn [mbind outcome_bind].
      rewrite Hpe, Hmove. cbn [mbind outcome_bind].
      unfold Game.player_eats, Game.ai_eats. cbn [mbind outcome_bind].
      by apply finish_total.
Qed.

(** ** The round from [init_game] on *)

Lemma init_game_Ok (mode : Z) (food : option Cell) (running : bool)
    (tape tape' : list Z) (g : Game.t) :
  Game.init_game mode food running tape = Ok (g, tape') →
  Game.player g = Snake.init 20 15 false
  ∧ Game.ai_snake g = (if mode =? 2 then Some (Snake.init 10 7 true) else None)
  ∧ Game.power_up g = None
  ∧ free_for_food g (Game.food g).
Proof.
  unfold Game.init_game.
  intros ([obstacles t1] & _ & ([[[] g1] t2] & Hf & [= <- <-])%bind_Ok)%bind_Ok.
  apply spawn_food_Ok in Hf as (c & -> & Hc).
  split_and!; [done..|].
  cbn [Game.food Game.set_power_up Game.set_food].
  revert Hc. apply free_for_food_ext; [done..|]. intros ai' Hs. by exists ai'.
Qed.

Lemma handle_input_frame (events : list Event) :
  ∀ (g g' : Game.t) (b : bool),
    Game.handle_input events g = (b, g') →
    Game.food g' = Game.food g
    ∧ Game.obstacles g' = Game.obstacles g
    ∧ Game.ai_snake g' = Game.ai_snake g
    ∧ Snake.body (Game.player g') = Snake.body (Game.player g).
Proof.
  induction events as [|e events IH]; intros g g' b.
  { by intros [= <- <-]. }
  assert (∀ d, Game.handle_input events (Game.turn d g) = (b, g') →
               Game.food g' = Game.food g
               ∧ Game.obstacles g' = Game.obstacles g
               ∧ Game.ai_snake g' = Game.ai_snake g
               ∧ Snake.body (Game.player g') = Snake.body (Game.player g))
    as Hturn by (intros d Hd; by apply IH in Hd).
  destruct e as [|key|]; cbn [Game.handle_input].
  - by intros [= <- <-].
  - repeat match goal with
           | |- (if ?c then _ else _) = _ → _ => destruct c
           end; try (by apply Hturn); try (by apply IH).
    by intros [= <- <-].
  - apply IH.
Qed.

(** Throughout a round the food lies on no obstacle and on no cell behind
    the head of the player or of a living opponent. *)
Lemma food_clear_in_round (g : Game.t) : in_round g → food_clear g.
Proof.
  induction 1 as [mode food running tape tape' g Hinit
                 |events g g' b _ IH Hin
                 |ticks tape tape' g g' a _ IH Hup].
  - apply init_game_Ok in Hinit as (Hp & Ha & _ & _ & Hfp & Hfa & Hfo).
    split; [done|]. rewrite Hp. split; [cbn; set_solver|].
    intros ai Hs _. rewrite Ha in Hs.
    destruct (mode =? 2); [|done]. injection Hs as <-. cbn. set_solver.
  - apply handle_input_frame in Hin as (Hf & Ho & Ha & Hb).
    destruct IH as (H1 & H2 & H3). unfold food_clear.
    by rewrite Hf, Ho, Ha, Hb.
  - by apply (update_food ticks g g' tape tape' a IH) in Hup as [? _].
Qed.

(** Throughout a round no snake has an empty body, so that indexing a body
    never fails. *)
Lemma bodies_in_round (g : Game.t) :
  in_round g →
  Snake.body (Game.player g) ≠ []
  ∧ ∀ ai, Game.ai_snake g = Some ai → Snake.body ai ≠ [].
Proof.
  induction 1 as [mode food running tape tape' g Hinit
                 |events g g' b _ IH Hin
                 |ticks tape tape' g g' a _ IH Hup].
  - apply init_game_Ok in Hinit as (Hp & Ha & _). rewrite Hp, Ha.
    split; [done|]. intros ai Hs. destruct (mode =? 2); [|done].
    by injection Hs as <-.
  - apply handle_input_frame in Hin as (_ & _ & Ha & Hb). by rewrite Ha, Hb.
  - destruct IH as [_ IHa].
    apply update_Ok in Hup
      as (hd & ae & g1 & g2 & t2 & g3 & g4 & [rest Hb]%body_first_Ok
          & Hae & H1 & H2 & H3 & H4 & H5).
    destruct (early_phases g g1 g2 g3 hd rest ae tape t2 tape' Hb Hae H1 H2 H3)
      as (_ & Hb3 & _ & _ & Hopp & _).
    destruct (late_phases ticks g3 g4 g' a H4 H5)
      as (_ & _ & Hb' & _ & _ & Hopp' & _).
    split; [by rewrite Hb', Hb3|].
    intros ai' Hs'.
    destruct (Game.ai_snake g) as [ai|] eqn:Hs.
    2:{ destruct Hopp as [Hn _]. rewrite Hn in Hopp'. congruence. }
    destruct Hopp as (ai3 & Hs3 & _ & _ & Hbody). rewrite Hs3 in Hopp'.
    destruct Hopp' as (ai'' & Hs'' & Hbb & _).
    rewrite Hs' in Hs''. injection Hs'' as <-. rewrite Hbb.
    destruct (Snake.alive ai).
    + destruct Hbody as (h & r & d & _ & _ & ->). done.
    + destruct Hbody as [-> _]. by apply IHa.
Qed.

(** In a round nothing but the sampling loops can keep a tick from
    completing: once both snakes have moved, every cell that is free for
    the food yields draws on which the tick completes. *)
Lemma update_completes_in_round (ticks : Z) (g : Game.t) :
  in_round g →
  ∃ hd ae g1,
    head (Snake.body (Game.player g)) = Some hd
    ∧ Game.ai_will_eat g = Ok ae
    ∧ Game.move_snakes (bool_decide (hd = Game.food g)) ae g = Ok g1
    ∧ ∀ c, free_for_food g1 c →
           ∃ tape a g', Game.update ticks g tape = Ok (a, g', []).
Proof.
  intros [Hp Ha]%bodies_in_round.
  destruct (Snake.body (Game.player g)) as [|hd rest] eqn:Hb; [done|].
  destruct (update_completes ticks g hd rest Hb) as (ae & g1 & ? & ? & ?).
  { intros ai Hs _. by apply Ha. }
  by exists hd, ae, g1.
Qed.

(** ** The food throughout a round *)

(** C2, as stated, fails: the snake reaches the food in one tick and eats it
    at the start of the next, so between the two the food lies under its
    head. The classic mode opens with the player at (20,15); when the first
    food falls on (21,15), the first tick ends with the round still active
    and the food on the cell of the player's head. *)
Lemma food_under_head_after_tick :
  let g :=
    Game.mk (Snake.init 20 15 false) None (21, 15) None ∅ 1 1 true in
  let g' :=
    Game.mk (Snake.mk [(21, 15)] RIGHT 0 false true ∅) None (21, 15) None ∅
            1 1 true in
  Game.init_game 1 None true [21; 15] = Ok (g, [])
  ∧ (Game.food g ∉ Snake.body (Game.player g))
  ∧ (Game.food g ∉ Game.obstacles g)
  ∧ Game.update 0 g [] = Ok (true, g', [])
  ∧ Snake.alive (Game.player g') = true
  ∧ Game.food g' ∈ Snake.body (Game.player g').
Proof.
  intros g g'. split; [by vm_compute|].
  split; [by intros [=]%list_elem_of_singleton|].
  split; [apply not_elem_of_empty|].
  split; [by vm_compute|]. split; [done|]. by left.
Qed.

(** C2, amended. After every tick of a round the food lies on no obstacle
    and on no cell behind the head of the player or of a living opponent;
    the head of a snake may lie on the food. If the tick moved the food,
    then after it the food lies on no cell at all of the player or of the
    opponent, heads included; and a tick moves the food whenever the head
    of the player or of the living opponent was on it. *)
Theorem food_clear_after_tick (ticks : Z) (g g' : Game.t)
    (tape tape' : list Z) (a : bool) :
  in_round g →
  Game.update ticks g tape = Ok (a, g', tape') →
  food_clear g'
  ∧ (Game.food g' ≠ Game.food g → food_off_snakes g')
  ∧ (head (Snake.body (Game.player g)) = Some (Game.food g) →
     Game.food g' ≠ Game.food g)
  ∧ (∀ ai, Game.ai_snake g = Some ai → Snake.alive ai = true →
           head (Snake.body ai) = Some (Game.food g) →
           Game.food g' ≠ Game.food g).
Proof. intros Hin%food_clear_in_round. by apply update_food. Qed.

Lemma food_clear_after_tick_witness :
  let g0 :=
    Game.mk (Snake.init 20 15 false) (Some (Snake.init 10 7 true))
            (21, 15) None ∅ 1 2 true in
  let g :=
    Game.mk (Snake.mk [(21, 15)] RIGHT 0 false true ∅)
            (Some (Snake.mk [(10, 8)] DOWN 0 true true ∅))
            (21, 15) None ∅ 1 2 true in
  let g' :=
    Game.mk (Snake.mk [(22, 15); (21, 15)] RIGHT 10 false true ∅)
            (Some (Snake.mk [(10, 9)] DOWN 0 true true ∅))
            (4, 5) None ∅ 1 2 true in
  Game.init_game 2 None true [21; 15] = Ok (g0, [])
  ∧ Game.update 0 g0 [] = Ok (true, g, [])
  ∧ Game.update 0 g [4; 5; 2 ^ 52] = Ok (true, g', [])
  ∧ food_clear g' ∧ food_off_snakes g'.
Proof.
  intros g0 g g'.
  assert (Game.init_game 2 None true [21; 15] = Ok (g0, [])) as H0
    by by vm_compute.
  assert (Game.update 0 g0 [] = Ok (true, g, [])) as H1 by by vm_compute.
  assert (Game.update 0 g [4; 5; 2 ^ 52] = Ok (true, g', [])) as H2
    by by vm_compute.
  assert (in_round g) as Hin.
  { apply (in_round_update 0 [] [] g0 g true); [|exact H1].
    exact (in_round_init 2 None true [21; 15] [] g0 H0). }
  destruct (food_clear_after_tick 0 g g' _ _ true Hin H2) as (Hc' & Hoff & _).
  split_and!; [done..|]. apply Hoff. by vm_compute.
Defined.

(** C3. When the head of the player and the head of the living opponent
    are both on the food before a tick that completes, then after it the
    player's score is 10 higher, or 20 if DOUBLE_POINTS is in the player's
    mapping; the opponent's score is 10 higher; and the food is the cell
    that a single run of [spawn_food], made after both snakes have moved,
    has chosen: it differs from the old food cell and lies on no cell of
    either snake and on no obstacle. *)
Theorem both_eat_one_respawn (ticks : Z) (g g' : Game.t)
    (tape tape' : list Z) (a : bool) (ai : Snake.t)
    (rest_p rest_ai : list Cell) :
  Snake.body (Game.player g) = Game.food g :: rest_p →
  Game.ai_snake g = Some ai →
  Snake.alive ai = true →
  Snake.body ai = Game.food g :: rest_ai →
  Game.update ticks g tape = Ok (a, g', tape') →
  Snake.score (Game.player g')
  = Snake.score (Game.player g)
    + (if bool_decide (DOUBLE_POINTS ∈ dom (Snake.power_ups (Game.player g)))
       then 20 else 10)
  ∧ (∃ ai', Game.ai_snake g' = Some ai'
            ∧ Snake.score ai' = Snake.score ai + 10
            ∧ (Game.food g' ∉ Snake.body ai'))
  ∧ Game.food g' ≠ Game.food g
  ∧ (Game.food g' ∉ Snake.body (Game.player g'))
  ∧ (Game.food g' ∉ Game.obstacles g')
  ∧ ∃ g1 t1,
      Game.move_snakes true true g = Ok g1
      ∧ Game.spawn_food (scored g1) tape
        = Ok ((), Game.set_food (Game.food g') (scored g1), t1).
Proof.
  intros Hb Hs Hal Hbai
    (hd & ae & g1 & g2 & t2 & g3 & g4 & [rest Hb0]%body_first_Ok
     & Hae & H1 & H2 & H3 & H4 & H5)%update_Ok.
  rewrite Hb in Hb0. injection Hb0 as <- <-.
  destruct (early_phases g g1 g2 g3 _ rest_p ae tape t2 tape' Hb Hae H1 H2 H3)
    as (Ho3 & Hb3 & Hsc3 & _ & Hopp & Hfood & Hsp).
  destruct (late_phases ticks g3 g4 g' a H4 H5)
    as (Hf' & Ho' & Hb' & Hsc' & _ & Hopp' & _).
  rewrite bool_decide_eq_true_2 in * by done. cbn [orb] in Hfood.
  rewrite Hs in Hopp. destruct Hopp as (ai3 & Hs3 & _ & Hsc & Hbody).
  rewrite Hal in Hbody. destruct Hbody as (h & r & d & Hbai' & Hae' & Hb3').
  rewrite Hbai in Hbai'. injection Hbai' as <- <-.
  rewrite bool_decide_eq_true_2 in Hae' by done. subst ae.
  rewrite Hs3 in Hopp'. destruct Hopp' as (ai' & Hs' & Hbb & Hsc'' & _).
  destruct Hfood as (_ & Hfp & Hfa & Hfo).
  rewrite Hf', Ho', Hb', Hsc', Hsc3. split; [done|]. split.
  { exists ai'. rewrite Hbb, Hsc'', Hsc. split_and!; [done..|].
    by apply Hfa. }
  split.
  { intros Heq. apply Hfp. rewrite Hb3, Heq. set_solver. }
  split; [done|]. split; [done|].
  destruct (Hsp eq_refl) as [t1 Hsp']. by exists g1, t1.
Qed.

Lemma both_eat_one_respawn_witness :
  let g :=
    Game.mk (Snake.mk [(5, 5); (4, 5)] RIGHT 30 false true
               {[DOUBLE_POINTS := 1200]})
            (Some (Snake.mk [(5, 5); (5, 4)] DOWN 10 true true ∅))
            (5, 5) None ∅ 1 2 true in
  let g' :=
    Game.mk (Snake.mk [(6, 5); (5, 5); (4, 5)] RIGHT 50 false true
               {[DOUBLE_POINTS := 1200]})
            (Some (Snake.mk [(5, 6); (5, 5); (5, 4)] DOWN 20 true true ∅))
            (7, 9) None ∅ 1 2 true in
  Game.update 0 g [45; 35; 7; 9; 2 ^ 52] = Ok (true, g', [])
  ∧ Snake.score (Game.player g') = 30 + 20
  ∧ Game.food g' ≠ (5, 5).
Proof.
  intros g g'.
  assert (Game.update 0 g [45; 35; 7; 9; 2 ^ 52] = Ok (true, g', [])) as Hu
    by by vm_compute.
  split; [exact Hu|].
  destruct (both_eat_one_respawn 0 g g' _ _ true
              (Snake.mk [(5, 5); (5, 4)] DOWN 10 true true ∅)
              [(4, 5)] [(5, 4)] eq_refl eq_refl eq_refl eq_refl Hu)
    as (Hscore & _ & Hfood & _).
  split; [exact Hscore|exact Hfood].
Defined.

(** ** Power-ups *)

Lemma update_power_ups (ticks : Z) (g g' : Game.t) (tape tape' : list Z)
    (a : bool) :
  Game.update ticks g tape = Ok (a, g', tape') →
  Snake.power_ups (Game.player g') = Snake.power_ups (Game.player g)
  ∨ ∃ k, Snake.power_ups (Game.player g')
         = <[k := ticks]> (Snake.power_ups (Game.player g)).
Proof.
  intros (hd & ae & g1 & g2 & t2 & g3 & g4 & [rest Hb]%body_first_Ok
          & Hae & H1 & H2 & H3 & H4 & H5)%update_Ok.
  destruct (early_phases g g1 g2 g3 hd rest ae tape t2 tape' Hb Hae H1 H2 H3)
    as (_ & _ & _ & Hpu & _).
  destruct (late_phases ticks g3 g4 g' a H4 H5) as (_ & _ & _ & _ & Hpu' & _).
  by rewrite Hpu in Hpu'.
Qed.

(** C9. A tick that completes removes no entry of the player's power-up
    mapping: every kind that is a key of the mapping before [update] is a
    key of it afterwards. *)
Theorem power_ups_never_removed (ticks : Z) (g g' : Game.t)
    (tape tape' : list Z) (a : bool) (k : PowerUpType) :
  Game.update ticks g tape = Ok (a, g', tape') →
  k ∈ dom (Snake.power_ups (Game.player g)) →
  k ∈ dom (Snake.power_ups (Game.player g')).
Proof.
  intros [->|[k' ->]]%update_power_ups Hk; [done|].
  rewrite dom_insert. apply elem_of_union. by right.
Qed.

Lemma power_ups_never_removed_witness :
  let g :=
    Game.mk (Snake.mk [(5, 5)] RIGHT 0 false true {[SPEED_BOOST := 100]})
            None (9, 9) (Some (PowerUp.init 6 5 SLOW_DOWN)) ∅ 1 1 true in
  ∃ g',
    Game.update 7000 g [] = Ok (true, g', [])
    ∧ SPEED_BOOST ∈ dom (Snake.power_ups (Game.player g))
    ∧ SPEED_BOOST ∈ dom (Snake.power_ups (Game.player g'))
    ∧ Snake.power_ups (Game.player g') !! SLOW_DOWN = Some 7000.
Proof.
  intros g.
  destruct (Game.update 7000 g []) as [[[a g'] tape']|e] eqn:Hu;
    [|by vm_compute in Hu].
  assert (a = true ∧ tape' = []
          ∧ Snake.power_ups (Game.player g') !! SLOW_DOWN = Some 7000)
    as (-> & -> & Hslow).
  { vm_compute in Hu. injection Hu as <- <- <-. by vm_compute. }
  assert (SPEED_BOOST ∈ dom (Snake.power_ups (Game.player g))) as Hk
    by by vm_compute.
  exists g'. split; [done|]. split; [exact Hk|]. split; [|exact Hslow].
  exact (power_ups_never_removed 7000 g g' [] [] true SPEED_BOOST Hu Hk).
Defined.

(** What [spawn_power_up] does guarantee about the cell it picks: it is a
    grid cell that is no cell of the player's body, not the food and no
    obstacle. *)
Lemma spawn_power_up_avoids (g g' : Game.t) (tape tape' : list Z)
    (pu : PowerUp.t) :
  Game.spawn_power_up g tape = Ok ((), g', tape') →
  Game.power_up g' = Some pu →
  Game.power_up g' ≠ Game.power_up g →
  (PowerUp.x pu, PowerUp.y pu) ∈ grid
  ∧ ((PowerUp.x pu, PowerUp.y pu) ∉ Snake.body (Game.player g))
  ∧ (PowerUp.x pu, PowerUp.y pu) ≠ Game.food g
  ∧ ((PowerUp.x pu, PowerUp.y pu) ∉ Game.obstacles g).
Proof.
  intros [->|(x & y & k & -> & H)]%spawn_power_up_Ok Hpu Hne; [done|].
  fields. by injection Hpu as <-.
Qed.

(** C8 fails on the code: [spawn_power_up] tests the player's body, the
    food and the obstacles, but not the opponent's body, which [spawn_food]
    does test. An AI battle opens with the food at (21,15); the first tick
    brings the player onto it, and in the second tick the player eats, the
    food moves to (25,20), and the draws 0 (below 0.2), 0 (below 0.3), 10, 9
    and 3 place an INVINCIBILITY power-up on (10,9), the cell of the living
    opponent's head. *)
Theorem spawn_power_up_on_opponent :
  ∃ g0 g1 g2 ai,
    Game.init_game 2 None true [21; 15] = Ok (g0, [])
    ∧ Game.update 0 g0 [] = Ok (true, g1, [])
    ∧ Game.update 0 g1 [25; 20; 0; 0; 10; 9; 3] = Ok (true, g2, [])
    ∧ Game.power_up g2 = Some (PowerUp.init 10 9 INVINCIBILITY)
    ∧ Game.ai_snake g2 = Some ai
    ∧ Snake.alive ai = true
    ∧ (10, 9) ∈ Snake.body ai.
Proof.
  eexists _, _, _, _. split; [by vm_compute|]. split; [by vm_compute|].
  split; [by vm_compute|]. split; [reflexivity|]. split; [reflexivity|].
  split; [reflexivity|]. by left.
Qed.

(** ** Input *)

(** One key press on its own never turns the snake around. *)
Lemma single_key_never_reverses (g : Game.t) (e : Event) :
  Snake.direction (Game.player (Game.handle_input [e] g).2)
  ≠ opposite (Snake.direction (Game.player g)).
Proof.
  destruct e as [|key|]; cbn [Game.handle_input].
  - cbn. by destruct (Snake.direction (Game.player g)).
  - destruct key, (Snake.direction (Game.player g)) eqn:Hd;
      repeat (case_bool_decide; try done; cbn [andb snd]);
      cbn; by rewrite ?Hd.
  - cbn. by destruct (Snake.direction (Game.player g)).
Qed.

(** A request for the opposite direction alone is ignored. *)
Lemma reversal_request_ignored :
  ∀ g : Game.t,
    Snake.direction (Game.player g) = RIGHT →
    Game.handle_input [KEYDOWN K_LEFT] g = (true, g).
Proof. intros g Hd. cbn. by rewrite Hd. Qed.

(** C6 fails on the code: each key press is tested against the direction
    left by the press before it, not against the direction at the start of
    the tick. A snake heading RIGHT that receives UP and then LEFT in one
    frame ends the frame heading LEFT. This is so in the opening position
    of a round; and in the classic round below, where the snake has eaten
    twice and is three cells long, the tick that follows the two presses
    runs it into its own second cell and ends the round. *)
Theorem two_keys_reverse :
  ∃ g0 g1 g2 g3 g4 g4' g5,
    Game.init_game 1 None true [21; 15] = Ok (g0, [])
    ∧ Snake.direction (Game.player g0) = RIGHT
    ∧ Snake.direction
        (Game.player (Game.handle_input [KEYDOWN K_UP; KEYDOWN K_LEFT] g0).2)
      = LEFT
    ∧ Game.update 0 g0 [] = Ok (true, g1, [])
    ∧ Game.update 0 g1 [23; 15; 2 ^ 52] = Ok (true, g2, [])
    ∧ Game.update 0 g2 [] = Ok (true, g3, [])
    ∧ Game.update 0 g3 [9; 9; 2 ^ 52] = Ok (true, g4, [])
    ∧ Snake.body (Game.player g4) = [(24, 15); (23, 15); (22, 15)]
    ∧ Snake.direction (Game.player g4) = RIGHT
    ∧ Game.handle_input [KEYDOWN K_UP; KEYDOWN K_LEFT] g4 = (true, g4')
    ∧ Snake.direction (Game.player g4') = LEFT
    ∧ Game.update 0 g4' [] = Ok (false, g5, [])
    ∧ Snake.alive (Game.player g5) = false.
Proof.
  eexists _, _, _, _, _, _, _.
  split; [by vm_compute|]. split; [reflexivity|]. split; [reflexivity|].
  split; [by vm_compute|]. split; [by vm_compute|]. split; [by vm_compute|].
  split; [by vm_compute|]. split; [reflexivity|]. split; [reflexivity|].
  split; [by vm_compute|]. split; [reflexivity|]. split; [by vm_compute|].
  reflexivity.
Qed.

(** ** The power-up mapping does not steer the tick *)

Ltac fields_with :=
  unfold result_with, with_power_ups; fields; cbn [fst snd fmap outcome_fmap].

Lemma with_power_ups_of (g1 g2 : Game.t) :
  forget_power_ups g1 = forget_power_ups g2 →
  g2 = with_power_ups (Snake.power_ups (Game.player g2)) g1.
Proof.
  destruct g1 as [[] ? ? ? ? ? ? ?], g2 as [[] ? ? ? ? ? ? ?].
  unfold forget_power_ups, with_power_ups. cbn. by intros [= -> -> -> -> -> -> -> -> -> -> -> ->].
Qed.

Lemma forget_with_power_ups (m : gmap PowerUpType Z) (g : Game.t) :
  forget_power_ups (with_power_ups m g) = forget_power_ups g.
Proof. done. Qed.

Lemma move_with (m : gmap PowerUpType Z) (grow : bool) (s : Snake.t) :
  Snake.move grow (Snake.set_power_ups m s)
  = (λ r, (r.1, Snake.set_power_ups m r.2)) <$> Snake.move grow s.
Proof.
  destruct (Snake.body s) as [|head rest] eqn:Hb.
  - by rewrite !move_empty.
  - by rewrite (move_eq grow s head rest Hb),
               (move_eq grow (Snake.set_power_ups m s) head rest Hb).
Qed.

Lemma check_collision_with (m : gmap PowerUpType Z)
    (obstacles : option (gset Cell)) (s : Snake.t) :
  Snake.check_collision obstacles (Snake.set_power_ups m s)
  = (λ r, (r.1, Snake.set_power_ups m r.2))
      <$> Snake.check_collision obstacles s.
Proof.
  unfold Snake.check_collision, Snake.body_first. fields.
  destruct (Snake.body s) as [|[hx hy] rest]; [done|].
  cbn [mbind outcome_bind].
  repeat match goal with |- context [if ?b then _ else _] => destruct b end;
    done.
Qed.

Section with_mapping.
Context (m : gmap PowerUpType Z).

Lemma spawn_food_loop_with (fuel : nat) (g : Game.t) :
  ∀ tape : list Z,
    Game.spawn_food_loop fuel (with_power_ups m g) tape
    = result_with m <$> Game.spawn_food_loop fuel g tape.
Proof.
  induction fuel as [|fuel IH]; intros tape; [done|].
  cbn [Game.spawn_food_loop].
  destruct (random.randint 0 (GRID_WIDTH - 1) tape) as [[x t1]|e]; [|done].
  cbn [mbind outcome_bind].
  destruct (random.randint 0 (GRID_HEIGHT - 1) t1) as [[y t2]|e]; [|done].
  cbn [mbind outcome_bind].
  change (Game.not_in_ai_body (x, y) (with_power_ups m g))
    with (Game.not_in_ai_body (x, y) g).
  fields_with.
  destruct (_ && _ && _); [done|]. apply IH.
Qed.

Lemma spawn_power_up_loop_with (fuel : nat) (g : Game.t) :
  ∀ tape : list Z,
    Game.spawn_power_up_loop fuel (with_power_ups m g) tape
    = result_with m <$> Game.spawn_power_up_loop fuel g tape.
Proof.
  induction fuel as [|fuel IH]; intros tape; [done|].
  cbn [Game.spawn_power_up_loop].
  destruct (random.randint 0 (GRID_WIDTH - 1) tape) as [[x t1]|e]; [|done].
  cbn [mbind outcome_bind].
  destruct (random.randint 0 (GRID_HEIGHT - 1) t1) as [[y t2]|e]; [|done].
  cbn [mbind outcome_bind]. fields_with.
  destruct (_ && _ && _); [|apply IH].
  by destruct (random.choice PowerUpTypes t2) as [[k t3]|e].
Qed.

Lemma spawn_power_up_with (g : Game.t) (tape : list Z) :
  Game.spawn_power_up (with_power_ups m g) tape
  = result_with m <$> Game.spawn_power_up g tape.
Proof.
  unfold Game.spawn_power_up.
  destruct (random.random tape) as [[r t1]|e]; [|done].
  cbn [mbind outcome_bind].
  destruct (random.lt r random.float_0_3); [|done].
  apply spawn_power_up_loop_with.
Qed.

Lemma move_snakes_with (pe ae : bool) (g : Game.t) :
  Game.move_snakes pe ae (with_power_ups m g)
  = with_power_ups m <$> Game.move_snakes pe ae g.
Proof.
  unfold Game.move_snakes.
  change (Game.player (with_power_ups m g))
    with (Snake.set_power_ups m (Game.player g)).
  rewrite move_with.
  destruct (Snake.move pe (Game.player g)) as [[[] p1]|e]; [|done].
  cbn [fmap outcome_fmap mbind outcome_bind fst snd]. fields_with.
  destruct (Game.ai_snake g) as [ai|]; [|done].
  destruct (Snake.alive ai); [|done].
  destruct (Snake.ai_move _ _ ai) as [[[] ai1]|e]; [|done].
  cbn [mbind outcome_bind].
  by destruct (Snake.move ae ai1) as [[[] ai2]|e].
Qed.

Lemma player_eats_with (pe : bool) (g : Game.t) (tape : list Z) :
  (DOUBLE_POINTS ∈ dom m
   ↔ DOUBLE_POINTS ∈ dom (Snake.power_ups (Game.player g))) →
  Game.player_eats pe (with_power_ups m g) tape
  = result_with m <$> Game.player_eats pe g tape.
Proof.
  intros Hdp. unfold Game.player_eats. destruct pe; [|done].
  change (Snake.power_ups (Game.player (with_power_ups m g))) with m.
  rewrite (bool_decide_ext _ _ Hdp).
  set (points := if bool_decide _ then 10 * 2 else 10).
  match goal with
  | |- Game.spawn_food ?g1 tape ≫= _ = _ <$> (Game.spawn_food ?g2 tape ≫= _) =>
      change g1 with (with_power_ups m g2);
      generalize g2; intros gs
  end.
  unfold Game.spawn_food. rewrite spawn_food_loop_with.
  destruct (Game.spawn_food_loop _ gs tape) as [[[[] g'] t1]|e]; [|done].
  cbn [fmap outcome_fmap mbind outcome_bind result_with fst snd].
  destruct (random.random t1) as [[r t2]|e]; [|done].
  cbn [mbind outcome_bind].
  destruct (random.lt r random.float_0_2); [|done].
  apply spawn_power_up_with.
Qed.

Lemma ai_eats_with (pe ae : bool) (g : Game.t) (tape : list Z) :
  Game.ai_eats pe ae (with_power_ups m g) tape
  = result_with m <$> Game.ai_eats pe ae g tape.
Proof.
  unfold Game.ai_eats. destruct ae; [|done]. fields_with.
  destruct (Game.ai_snake g) as [ai|]; [|done].
  destruct pe; cbn [negb]; [done|].
  unfold Game.spawn_food.
  match goal with
  | |- Game.spawn_food_loop _ ?g1 _ = _ <$> Game.spawn_food_loop _ ?g2 _ =>
      change g1 with (with_power_ups m g2)
  end.
  apply spawn_food_loop_with.
Qed.

Lemma collect_power_up_with (ticks : Z) (g : Game.t) :
  ∃ m', Game.collect_power_up ticks (with_power_ups m g)
        = with_power_ups m' <$> Game.collect_power_up ticks g.
Proof.
  unfold Game.collect_power_up. fields_with.
  destruct (Game.power_up g) as [pu|]; [|by exists m].
  unfold Snake.body_first. fields.
  destruct (Snake.body (Game.player g)) as [|head rest]; [by exists m|].
  cbn [mbind outcome_bind].
  case_bool_decide; [|by exists m].
  by exists (<[PowerUp.type pu := ticks]> m).
Qed.

Lemma check_collisions_with (g : Game.t) :
  Game.check_collisions (with_power_ups m g)
  = (λ r, (r.1, with_power_ups m r.2)) <$> Game.check_collisions g.
Proof.
  unfold Game.check_collisions.
  change (Game.player (with_power_ups m g))
    with (Snake.set_power_ups m (Game.player g)).
  rewrite check_collision_with.
  destruct (Snake.check_collision _ (Game.player g)) as [[hit p]|e]; [|done].
  cbn [fmap outcome_fmap mbind outcome_bind fst snd]. fields_with.
  destruct hit; [done|].
  destruct (Game.ai_snake g) as [ai|]; [|done].
  destruct (Snake.alive ai); [|done].
  destruct (Snake.check_collision _ ai) as [[hit' ai']|e]; [|done].
  cbn [mbind outcome_bind]. by destruct hit'.
Qed.
End with_mapping.

Lemma move_snakes_power_ups (pe ae : bool) (g g1 : Game.t) :
  Game.move_snakes pe ae g = Ok g1 →
  Snake.power_ups (Game.player g1) = Snake.power_ups (Game.player g).
Proof.
  intros (p1 & (h & r & _ & ->)%move_Ok & H)%move_snakes_Ok.
  by destruct H as [[-> _]|(? & ? & ? & _ & _ & _ & _ & ->)].
Qed.

Lemma update_with (m : gmap PowerUpType Z) (ticks : Z) (g : Game.t)
    (tape : list Z) :
  (DOUBLE_POINTS ∈ dom m
   ↔ DOUBLE_POINTS ∈ dom (Snake.power_ups (Game.player g))) →
  ∃ m', Game.update ticks (with_power_ups m g) tape
        = result_with m' <$> Game.update ticks g tape.
Proof.
  intros Hdp. unfold Game.update.
  change (Snake.body_first (Game.player (with_power_ups m g)))
    with (Snake.body_first (Game.player g)).
  change (Game.ai_will_eat (with_power_ups m g)) with (Game.ai_will_eat g).
  change (Game.food (with_power_ups m g)) with (Game.food g).
  destruct (Snake.body_first (Game.player g)) as [hd|e]; [|by exists m].
  cbn [mbind outcome_bind].
  destruct (Game.ai_will_eat g) as [ae|e]; [|by exists m].
  cbn [mbind outcome_bind].
  rewrite move_snakes_with.
  destruct (Game.move_snakes _ ae g) as [g1|e] eqn:Hmove; [|by exists m].
  cbn [fmap outcome_fmap mbind outcome_bind].
  apply move_snakes_power_ups in Hmove.
  rewrite player_eats_with by by rewrite Hmove.
  destruct (Game.player_eats _ g1 tape) as [[[[] g2] t2]|e]; [|by exists m].
  cbn [fmap outcome_fmap mbind outcome_bind result_with fst snd].
  rewrite ai_eats_with.
  destruct (Game.ai_eats _ ae g2 t2) as [[[[] g3] t3]|e]; [|by exists m].
  cbn [fmap outcome_fmap mbind outcome_bind result_with fst snd].
  destruct (collect_power_up_with m ticks g3) as [m' ->].
  destruct (Game.collect_power_up ticks g3) as [g4|e]; [|by exists m].
  cbn [fmap outcome_fmap mbind outcome_bind].
  rewrite check_collisions_with.
  destruct (Game.check_collisions g4) as [[a g']|e]; [|by exists m].
  by exists m'.
Qed.

Lemma update_collides (ticks : Z) (g g' : Game.t) (tape tape' : list Z)
    (a : bool) :
  Game.update ticks g tape = Ok (a, g', tape') →
  (a = false ↔ collides (Game.obstacles g') (Snake.body (Game.player g')))
  ∧ (a = false → Snake.alive (Game.player g') = false).
Proof.
  intros (hd & ae & g1 & g2 & t2 & g3 & g4 & _ & _ & _ & _ & _ & H4 & H5)%update_Ok.
  by destruct (late_phases ticks g3 g4 g' a H4 H5) as (_ & _ & _ & _ & _ & _ & ? & ?).
Qed.

(** C10. Take two states that differ at most in the player's power-up
    mapping, and whose mappings agree on whether DOUBLE_POINTS is a key.
    On the same clock value and the same draws, [update] raises the same
    exception from both, or returns from both with the same answer, the same
    remaining draws and states that again differ at most in that mapping.
    The mapping cannot protect the player: [check_collision] answers the
    same whatever the mapping is, and a tick ends the round, with the player
    marked dead, exactly when the player's body collides. *)
Theorem only_double_points_steers (ticks : Z) (g1 g2 : Game.t)
    (tape : list Z) :
  forget_power_ups g1 = forget_power_ups g2 →
  (DOUBLE_POINTS ∈ dom (Snake.power_ups (Game.player g1))
   ↔ DOUBLE_POINTS ∈ dom (Snake.power_ups (Game.player g2))) →
  agree (λ r1 r2,
           r1.1.1 = r2.1.1
           ∧ forget_power_ups r1.1.2 = forget_power_ups r2.1.2
           ∧ r1.2 = r2.2)
        (Game.update ticks g1 tape) (Game.update ticks g2 tape)
  ∧ (∀ obstacles s m,
       Snake.check_collision obstacles (Snake.set_power_ups m s)
       = (λ r, (r.1, Snake.set_power_ups m r.2))
           <$> Snake.check_collision obstacles s)
  ∧ (∀ a g1' tape',
       Game.update ticks g1 tape = Ok (a, g1', tape') →
       (a = false
        ↔ collides (Game.obstacles g1') (Snake.body (Game.player g1')))
       ∧ (a = false → Snake.alive (Game.player g1') = false)).
Proof.
  intros Hsame Hdp. split; [|split].
  - rewrite (with_power_ups_of g1 g2 Hsame).
    destruct (update_with (Snake.power_ups (Game.player g2)) ticks g1 tape)
      as [m' ->]; [done|].
    destruct (Game.update ticks g1 tape) as [[[a g1'] t1]|e]; [|done].
    cbn. done.
  - intros obstacles s m. apply check_collision_with.
  - intros a g1' tape'. apply update_collides.
Qed.

Lemma only_double_points_steers_witness :
  let p := Snake.mk [(0, 5); (1, 5)] LEFT 40 false true in
  let g1 :=
    Game.mk (p {[INVINCIBILITY := 100]}) None (9, 9) None ∅ 1 1 true in
  let g2 :=
    Game.mk (p {[SPEED_BOOST := 7; SLOW_DOWN := 8]}) None (9, 9) None ∅ 1 1
            true in
  forget_power_ups g1 = forget_power_ups g2
  ∧ INVINCIBILITY ∈ dom (Snake.power_ups (Game.player g1))
  ∧ ∃ g1' g2',
      Game.update 0 g1 [] = Ok (false, g1', [])
      ∧ Game.update 0 g2 [] = Ok (false, g2', [])
      ∧ forget_power_ups g1' = forget_power_ups g2'
      ∧ Snake.alive (Game.player g1') = false.
Proof.
  intros p g1 g2.
  assert (forget_power_ups g1 = forget_power_ups g2) as Hsame
    by reflexivity.
  assert (DOUBLE_POINTS ∈ dom (Snake.power_ups (Game.player g1))
          ↔ DOUBLE_POINTS ∈ dom (Snake.power_ups (Game.player g2))) as Hdp.
  { split; intros H; exfalso; revert H; by vm_compute. }
  destruct (only_double_points_steers 0 g1 g2 [] Hsame Hdp)
    as (Hagree & _ & Hdeath).
  split; [exact Hsame|]. split; [by vm_compute|].
  destruct (Game.update 0 g1 []) as [[[a g1'] t1]|e] eqn:H1;
    [|by vm_compute in H1].
  destruct (Game.update 0 g2 []) as [[[a2 g2'] t2]|e] eqn:H2;
    [|by vm_compute in H2].
  cbn in Hagree. destruct Hagree as (<- & Hf & <-).
  assert (a = false ∧ t1 = []) as [-> ->].
  { vm_compute in H1. by injection H1 as <- _ <-. }
  exists g1', g2'. split; [done|]. split; [done|]. split; [exact Hf|].
  by apply (Hdeath false g1' [] eq_refl).
Defined.

(** * Further properties *)

(** ** [grow] *)

Lemma grow_eq (self : Snake.t) (head : Cell) (rest : list Cell) :
  Snake.body self = head :: rest →
  ∃ tail, last (head :: rest) = Some tail
          ∧ Snake.grow self
            = Ok ((), Snake.set_body (head :: rest ++ [tail]) self).
Proof.
  intros Hb. unfold Snake.grow, Snake.body_last. rewrite Hb.
  destruct (last (head :: rest)) as [tail|] eqn:Hl.
  - by exists tail.
  - by apply last_None in Hl.
Qed.

(** X1. On a snake with a non-empty body, [grow] followed by a plain [move]
    leaves the snake exactly as [move] with [grow=True] does. *)
Theorem grow_then_move (self : Snake.t) (head : Cell) (rest : list Cell) :
  Snake.body self = head :: rest →
  ∃ s1 s2,
    Snake.grow self = Ok ((), s1)
    ∧ Snake.move false s1 = Ok ((), s2)
    ∧ Snake.move true self = Ok ((), s2).
Proof.
  intros Hb. destruct (grow_eq self head rest Hb) as (tail & _ & ->).
  eexists _, _. split; [reflexivity|].
  rewrite (move_eq false (Snake.set_body (head :: rest ++ [tail]) self)
             head (rest ++ [tail]) eq_refl).
  rewrite (move_eq true self head rest Hb).
  split; [reflexivity|]. fields.
  change (head :: rest ++ [tail]) with ((head :: rest) ++ [tail]).
  by rewrite removelast_last.
Qed.

Lemma grow_then_move_witness :
  let self := Snake.mk [(3, 4); (2, 4)] RIGHT 10 false true ∅ in
  ∃ s1 s2,
    Snake.grow self = Ok ((), s1)
    ∧ Snake.move false s1 = Ok ((), s2)
    ∧ Snake.move true self = Ok ((), s2)
    ∧ Snake.body s2 = [(4, 4); (3, 4); (2, 4)].
Proof.
  intros self.
  destruct (grow_then_move self (3, 4) [(2, 4)] eq_refl)
    as (s1 & s2 & H1 & H2 & H3).
  exists s1, s2. split_and!; [done..|].
  vm_compute in H3. by injection H3 as <-.
Defined.

(** X2. [grow] makes a snake of one cell collide with itself, and leaves the
    answer of [check_collision] as it was for every longer snake. *)
Theorem grow_collision (obstacles : option (gset Cell)) (self : Snake.t)
    (head : Cell) (rest : list Cell) :
  Snake.body self = head :: rest →
  ∃ s1 b b1,
    Snake.grow self = Ok ((), s1)
    ∧ Snake.check_collision obstacles self = Ok (b, self)
    ∧ Snake.check_collision obstacles s1 = Ok (b1, s1)
    ∧ (rest = [] → b1 = true)
    ∧ (rest ≠ [] → b1 = b).
Proof.
  intros Hb. destruct (grow_eq self head rest Hb) as (tail & Hl & ->).
  destruct (check_collision_eq obstacles self head rest Hb) as (b & Hc & Hiff).
  destruct (check_collision_eq obstacles
              (Snake.set_body (head :: rest ++ [tail]) self) head
              (rest ++ [tail]) eq_refl) as (b1 & Hc1 & Hiff1).
  eexists _, b, b1. split_and!; [done..| |].
  - intros ->. injection Hl as <-. apply Hiff1. right; left. by left.
  - intros Hne.
    assert (tail ∈ rest) as Hin.
    { destruct rest as [|c rest]; [done|].
      change (last (head :: c :: rest)) with (last (c :: rest)) in Hl.
      by apply last_Some_elem_of. }
    assert (head ∈ rest ++ [tail] ↔ head ∈ rest) as Heq by set_solver.
    rewrite Heq in Hiff1. destruct b, b1; try done.
    + exact (proj2 Hiff1 (proj1 Hiff eq_refl)).
    + symmetry. exact (proj2 Hiff (proj1 Hiff1 eq_refl)).
Qed.

Lemma grow_collision_witness :
  let self := Snake.init 5 5 false in
  ∃ s1,
    Snake.grow self = Ok ((), s1)
    ∧ Snake.check_collision None self = Ok (false, self)
    ∧ Snake.check_collision None s1 = Ok (true, s1).
Proof.
  intros self.
  destruct (grow_collision None self (5, 5) [] eq_refl)
    as (s1 & b & b1 & H1 & H2 & H3 & Hone & _).
  exists s1. rewrite (Hone eq_refl) in H3. split_and!; [done| |done].
  by vm_compute.
Defined.

(** ** More about [bfs_path] and [ai_move] *)

Lemma destination_app (c : Cell) (ds es : list Direction) :
  destination c (ds ++ es) = destination (destination c ds) es.
Proof. unfold destination. by rewrite foldl_app. Qed.

Lemma route_app (obstacles : gset Cell) (body : list Cell)
    (ds : list Direction) :
  ∀ (c : Cell) (es : list Direction),
    route obstacles body c (ds ++ es)
    ↔ route obstacles body c ds
      ∧ route obstacles body (destination c ds) es.
Proof.
  induction ds as [|d ds IH]; intros c es; cbn.
  - tauto.
  - rewrite IH. tauto.
Qed.

Lemma walk_lookup (ds : list Direction) :
  ∀ (c : Cell) (i : nat),
    (i ≤ length ds)%nat →
    walk c ds !! i = Some (destination c (take i ds)).
Proof.
  induction ds as [|d ds IH]; intros c i Hi.
  - cbn in Hi. by replace i with 0%nat by lia.
  - destruct i as [|i]; [done|]. cbn in Hi. cbn. apply IH. lia.
Qed.

Lemma route_destination_open (obstacles : gset Cell) (body : list Cell)
    (c : Cell) (ds : list Direction) :
  ds ≠ [] → route obstacles body c ds →
  open obstacles body (destination c ds).
Proof.
  destruct ds as [|d ds _] using rev_ind; [done|].
  intros _ [_ Ho]%route_snoc. by rewrite destination_snoc.
Qed.

(** A route is at least as long as the taxicab distance it covers. *)
Lemma destination_distance (ds : list Direction) (c : Cell) :
  Z.abs ((destination c ds).1 - c.1) + Z.abs ((destination c ds).2 - c.2)
  ≤ Z.of_nat (length ds).
Proof.
  induction ds as [|d ds IH] using rev_ind; [cbn; lia|].
  rewrite destination_snoc, length_app. cbn [length].
  pose proof (offset_adjacent (destination c ds) d). lia.
Qed.

Lemma ai_move_path (food_pos : Cell) (obstacles : option (gset Cell))
    (self : Snake.t) (head : Cell) (rest : list Cell) (d : Direction)
    (ds : list Direction) :
  Snake.is_ai self = true →
  Snake.body self = head :: rest →
  Snake.bfs_search head food_pos obstacles self = Some (walk head (d :: ds)) →
  Snake.ai_move food_pos obstacles self
  = Ok ((), Snake.set_direction d self).
Proof.
  intros Hai Hb Hp. unfold Snake.ai_move, Snake.body_first, Snake.bfs_path.
  rewrite Hai, Hb. cbn [negb mbind outcome_bind]. rewrite Hp.
  cbn [walk]. destruct (walk (offset head d) ds) as [|p1 tl] eqn:Hw.
  { by destruct ds. }
  assert (p1 = offset head d) as ->.
  { pose proof (walk_head ds (offset head d)) as Hh. rewrite Hw in Hh.
    by injection Hh. }
  apply ai_move_step.
Qed.

(** X3. An AI snake for which [bfs_path] finds a path of more than one cell
    steps, by [ai_move] and [move], onto the second cell of that path, and
    [check_collision] with the same obstacles then answers false. *)
Theorem ai_steps_onto_path (food_pos : Cell) (obstacles : option (gset Cell))
    (self : Snake.t) (head : Cell) (rest : list Cell) (grow : bool)
    (p0 p1 : Cell) (tl : list Cell) :
  Snake.is_ai self = true →
  Snake.body self = head :: rest →
  Snake.bfs_path head food_pos obstacles self
  = Ok (Some (p0 :: p1 :: tl), self) →
  ∃ s1 s2,
    Snake.ai_move food_pos obstacles self = Ok ((), s1)
    ∧ Snake.move grow s1 = Ok ((), s2)
    ∧ Snake.body s2
      = p1 :: (if grow then head :: rest else removelast (head :: rest))
    ∧ Snake.check_collision obstacles s2 = Ok (false, s2).
Proof.
  intros Hai Hb [= Hp].
  pose proof (bfs_search_correct head food_pos obstacles self) as Hf.
  rewrite Hp in Hf. destruct Hf as (ds & Hw & Hr & _).
  pose proof Hw as Hw'. symmetry in Hw'.
  apply walk_cons_inv in Hw' as (-> & d & ds' & -> & ->).
  destruct Hr as [Ho _]. rewrite Hw in Hp.
  rewrite (ai_move_path food_pos obstacles self head rest d ds' Hai Hb Hp).
  eexists _, _. split; [reflexivity|].
  rewrite (move_eq grow (Snake.set_direction d self) head rest Hb).
  split; [reflexivity|]. fields. split; [by destruct grow|].
  match goal with |- Snake.check_collision _ ?s = _ =>
    destruct (check_collision_eq obstacles s (offset head d)
                (if grow then head :: rest else removelast (head :: rest)))
      as (b & -> & Hiff)
  end.
  { by destruct grow. }
  destruct b; [exfalso|done].
  destruct Ho as (Hx & Hy & Hobs & Hbody). rewrite Hb in Hbody.
  destruct (proj1 Hiff eq_refl) as [Hout|[Hin|Hin]].
  - unfold out_of_bounds in Hout. lia.
  - apply Hbody. destruct grow; [done|]. by apply in_removelast.
  - done.
Qed.

Lemma ai_steps_onto_path_witness :
  let self := Snake.mk [(10, 7); (9, 7)] RIGHT 0 true true ∅ in
  ∃ s1 s2,
    Snake.ai_move (10, 9) None self = Ok ((), s1)
    ∧ Snake.move false s1 = Ok ((), s2)
    ∧ Snake.body s2 = [(10, 8); (10, 7)]
    ∧ Snake.check_collision None s2 = Ok (false, s2).
Proof.
  intros self.
  apply (ai_steps_onto_path (10, 9) None self (10, 7) [(9, 7)] false
           (10, 7) (10, 8) [(10, 9)]); [reflexivity|reflexivity|by vm_compute].
Defined.

(** X4. The edge cases of the search. When the goal is the start,
    [bfs_path] returns the path of that one cell, whatever lies on it. When
    the goal is another cell that is outside the grid, an obstacle or a cell
    of the snake's body, [bfs_path] returns [None]. *)
Theorem bfs_path_edge_cases (start : Cell) (obstacles : option (gset Cell))
    (self : Snake.t) :
  Snake.bfs_path start start obstacles self = Ok (Some [start], self)
  ∧ ∀ goal,
      goal ≠ start →
      ¬ open (default ∅ obstacles) (Snake.body self) goal →
      Snake.bfs_path start goal obstacles self = Ok (None, self).
Proof.
  unfold Snake.bfs_path. split.
  - pose proof (bfs_search_correct start start obstacles self) as Hf.
    destruct (Snake.bfs_search start start obstacles self) as [path|];
      cbn in Hf.
    + destruct Hf as (ds & -> & _ & _ & Hmin).
      specialize (Hmin [] I eq_refl). pose proof (key_pos ds).
      assert (ds = []) as -> by (apply key_inj; cbn in *; lia). done.
    + by destruct (Hf [] I).
  - intros goal Hne Hclosed.
    pose proof (bfs_search_correct start goal obstacles self) as Hf.
    destruct (Snake.bfs_search start goal obstacles self) as [path|];
      [|done].
    destruct Hf as (ds & _ & Hr & Hd & _). exfalso. apply Hclosed.
    rewrite <- Hd. apply route_destination_open; [|done].
    intros ->. by apply Hne.
Qed.

Lemma bfs_path_edge_cases_witness :
  let self := Snake.mk [(3, 3); (3, 4)] UP 0 true true ∅ in
  Snake.bfs_path (3, 3) (3, 3) None self = Ok (Some [(3, 3)], self)
  ∧ Snake.bfs_path (3, 3) (40, 3) None self = Ok (None, self)
  ∧ Snake.bfs_path (3, 3) (3, 4) None self = Ok (None, self).
Proof.
  intros self.
  destruct (bfs_path_edge_cases (3, 3) None self) as [Hsame Hclosed].
  split; [exact Hsame|]. split.
  - apply Hclosed; [done|]. intros (Hx & _). cbn in Hx.
    rewrite GRID_WIDTH_eq in Hx. lia.
  - apply Hclosed; [done|]. intros (_ & _ & _ & Hb). apply Hb.
    right. by left.
Defined.

(** X5. A path returned by [bfs_path] visits no cell twice. *)
Theorem bfs_path_no_repeat (start goal : Cell)
    (obstacles : option (gset Cell)) (self : Snake.t) (path : list Cell) :
  Snake.bfs_path start goal obstacles self = Ok (Some path, self) →
  NoDup path.
Proof.
  intros [= Hp].
  pose proof (bfs_search_correct start goal obstacles self) as Hf.
  rewrite Hp in Hf. destruct Hf as (ds & -> & Hr & Hd & Hmin).
  apply NoDup_alt. intros i j c Hi Hj.
  assert (∀ i j, (i < j)%nat →
                 walk start ds !! i = Some c →
                 walk start ds !! j = Some c → False) as Hlt.
  { clear i j Hi Hj. intros i j Hij Hi Hj.
    assert (j ≤ length ds)%nat as Hjl.
    { apply lookup_lt_Some in Hj. rewrite walk_length in Hj. lia. }
    rewrite walk_lookup in Hi, Hj by lia.
    injection Hi as Hi. injection Hj as Hj.
    assert (route (default ∅ obstacles) (Snake.body self) start (take i ds))
      as Hr1.
    { pose proof Hr as Hr'. rewrite <- (take_drop i ds) in Hr'.
      by apply route_app in Hr' as [? _]. }
    assert (route (default ∅ obstacles) (Snake.body self) c (drop j ds)
            ∧ destination c (drop j ds) = goal) as [Hr2 Hd2].
    { pose proof Hr as Hr'. rewrite <- (take_drop j ds) in Hr'.
      apply route_app in Hr' as [_ Hr'].
      rewrite <- (take_drop j ds), destination_app in Hd.
      by rewrite Hj in Hr', Hd. }
    specialize (Hmin (take i ds ++ drop j ds)).
    rewrite route_app, destination_app, Hi in Hmin.
    apply key_length_le in Hmin; [|done..].
    rewrite length_app, length_take, length_drop in Hmin. lia. }
  destruct (Nat.lt_trichotomy i j) as [?|[?|?]]; [exfalso|done|exfalso].
  - by apply (Hlt i j).
  - by apply (Hlt j i).
Qed.

Lemma bfs_path_no_repeat_witness :
  let self := Snake.mk [(1, 1); (1, 2); (2, 2)] UP 0 true true ∅ in
  Snake.bfs_path (1, 1) (3, 2) (Some {[(2, 1)]}) self
  = Ok (Some [(1, 1); (1, 0); (2, 0); (3, 0); (3, 1); (3, 2)], self)
  ∧ NoDup [(1, 1); (1, 0); (2, 0); (3, 0); (3, 1); (3, 2)].
Proof.
  intros self.
  assert (Snake.bfs_path (1, 1) (3, 2) (Some {[(2, 1)]}) self
          = Ok (Some [(1, 1); (1, 0); (2, 0); (3, 0); (3, 1); (3, 2)], self))
    as Hp by by vm_compute.
  split; [exact Hp|].
  exact (bfs_path_no_repeat (1, 1) (3, 2) (Some {[(2, 1)]}) self _ Hp).
Defined.

Lemma route_straight (obstacles : gset Cell) (body : list Cell)
    (d : Direction) (n : nat) :
  ∀ c : Cell,
    (∀ k, 1 ≤ k ≤ Z.of_nat n →
          open obstacles body
               (c.1 + k * (value d).1, c.2 + k * (value d).2)) →
    route obstacles body c (replicate n d)
    ∧ destination c (replicate n d)
      = (c.1 + Z.of_nat n * (value d).1, c.2 + Z.of_nat n * (value d).2).
Proof.
  induction n as [|n IH]; intros c Hopen.
  - split; [done|]. destruct c as [x y]. cbn. f_equal; lia.
  - cbn [replicate route]. change (destination c (d :: replicate n d))
      with (destination (offset c d) (replicate n d)).
    assert (open obstacles body (offset c d)) as Ho.
    { specialize (Hopen 1). unfold offset.
      rewrite !Z.mul_1_l in Hopen. apply Hopen. lia. }
    destruct (IH (offset c d)) as [Hr Hd].
    { intros k Hk. specialize (Hopen (k + 1)). unfold offset. cbn [fst snd].
      replace (c.1 + (value d).1 + k * (value d).1)
        with (c.1 + (k + 1) * (value d).1) by lia.
      replace (c.2 + (value d).2 + k * (value d).2)
        with (c.2 + (k + 1) * (value d).2) by lia.
      apply Hopen. lia. }
    split; [done|]. rewrite Hd. unfold offset. cbn [fst snd].
    f_equal; lia.
Qed.

(** X6. A path from [start] to [goal] has at least one cell more than the
    taxicab distance between the two. It has exactly that many when both
    lie inside the grid, there are no obstacles and the snake has no cell
    but [start], as the AI snake at the start of a round. *)
Theorem bfs_path_taxicab (start goal : Cell) (obstacles : option (gset Cell))
    (self : Snake.t) :
  (∀ path,
     Snake.bfs_path start goal obstacles self = Ok (Some path, self) →
     1 + Z.abs (goal.1 - start.1) + Z.abs (goal.2 - start.2)
     ≤ Z.of_nat (length path))
  ∧ (default ∅ obstacles = ∅ →
     (∀ c, c ∈ Snake.body self → c = start) →
     (0 ≤ start.1 < GRID_WIDTH) ∧ (0 ≤ start.2 < GRID_HEIGHT) →
     (0 ≤ goal.1 < GRID_WIDTH) ∧ (0 ≤ goal.2 < GRID_HEIGHT) →
     ∃ path,
       Snake.bfs_path start goal obstacles self = Ok (Some path, self)
       ∧ Z.of_nat (length path)
         = 1 + Z.abs (goal.1 - start.1) + Z.abs (goal.2 - start.2)).
Proof.
  pose proof (bfs_search_correct start goal obstacles self) as Hf.
  assert (∀ path,
            Snake.bfs_search start goal obstacles self = Some path →
            1 + Z.abs (goal.1 - start.1) + Z.abs (goal.2 - start.2)
            ≤ Z.of_nat (length path)) as Hlow.
  { intros path Hp. rewrite Hp in Hf. destruct Hf as (ds & -> & _ & <- & _).
    rewrite walk_length. pose proof (destination_distance ds start). lia. }
  split; [intros path [= Hp]; by apply Hlow|].
  intros Hobs Hbody [Hsx Hsy] [Hgx Hgy].
  destruct start as [sx sy], goal as [gx gy]. cbn [fst snd] in *.
  set (hd := if decide (sx ≤ gx) then RIGHT else LEFT).
  set (vd := if decide (sy ≤ gy) then DOWN else UP).
  set (n := Z.to_nat (Z.abs (gx - sx))).
  set (m := Z.to_nat (Z.abs (gy - sy))).
  destruct (route_straight (default ∅ obstacles) (Snake.body self) hd n
              (sx, sy)) as [Hr1 Hd1].
  { intros k Hk. unfold n in Hk. rewrite Hobs. cbn [fst snd].
    split; [|split; [|split]].
    - unfold hd. case_decide; cbn; lia.
    - unfold hd. case_decide; cbn; lia.
    - apply not_elem_of_empty.
    - intros Hin%Hbody. injection Hin as Hx _.
      unfold hd in Hx. case_decide; cbn in Hx; lia. }
  assert (destination (sx, sy) (replicate n hd) = (gx, sy)) as Hd1'.
  { rewrite Hd1. unfold n, hd. cbn [fst snd].
    case_decide; cbn; f_equal; lia. }
  destruct (route_straight (default ∅ obstacles) (Snake.body self) vd m
              (gx, sy)) as [Hr2 Hd2].
  { intros k Hk. unfold m in Hk. rewrite Hobs. cbn [fst snd].
    split; [|split; [|split]].
    - unfold vd. case_decide; cbn; lia.
    - unfold vd. case_decide; cbn; lia.
    - apply not_elem_of_empty.
    - intros Hin%Hbody. injection Hin as _ Hy.
      unfold vd in Hy. case_decide; cbn in Hy; lia. }
  assert (destination (gx, sy) (replicate m vd) = (gx, gy)) as Hd2'.
  { rewrite Hd2. unfold m, vd. cbn [fst snd].
    case_decide; cbn; f_equal; lia. }
  assert (route (default ∅ obstacles) (Snake.body self) (sx, sy)
            (replicate n hd ++ replicate m vd)
          ∧ destination (sx, sy) (replicate n hd ++ replicate m vd)
            = (gx, gy)) as [Hr Hd].
  { rewrite route_app, destination_app, Hd1'. done. }
  unfold Snake.bfs_path.
  destruct (Snake.bfs_search (sx, sy) (gx, gy) obstacles self) as [path|]
    eqn:Hp; cbn in Hf.
  - exists path. split; [done|].
    specialize (Hlow path eq_refl). cbn [fst snd] in Hlow.
    destruct Hf as (ds & -> & _ & _ & Hmin).
    specialize (Hmin _ Hr Hd). apply key_length_le in Hmin.
    rewrite length_app, !length_replicate in Hmin.
    rewrite walk_length in *. unfold n, m in Hmin. lia.
  - by destruct (Hf _ Hr).
Qed.

Lemma bfs_path_taxicab_witness :
  let self := Snake.init 10 7 true in
  ∃ path,
    Snake.bfs_path (10, 7) (4, 20) None self = Ok (Some path, self)
    ∧ Z.of_nat (length path) = 1 + 6 + 13.
Proof.
  intros self.
  destruct (bfs_path_taxicab (10, 7) (4, 20) None self) as [_ Hexact].
  apply Hexact.
  - reflexivity.
  - by intros c ->%list_elem_of_singleton.
  - rewrite GRID_WIDTH_eq, GRID_HEIGHT_eq. cbn. lia.
  - rewrite GRID_WIDTH_eq, GRID_HEIGHT_eq. cbn. lia.
Defined.

(** ** More about spawning *)

Lemma spawn_food_loop_draws (fuel : nat) (g : Game.t) :
  ∀ (tape : list Z) (g' : Game.t) (tape' : list Z),
    Game.spawn_food_loop fuel g tape = Ok ((), g', tape') →
    ∃ k : nat, (1 ≤ k)%nat ∧ tape' = drop (2 * k) tape
               ∧ length tape = (2 * k + length tape')%nat.
Proof.
  induction fuel as [|fuel IH]; intros tape g' tape'; [done|].
  cbn [Game.spawn_food_loop].
  destruct tape as [|rx [|ry tape]]; [done..|].
  cbn [random.randint mbind outcome_bind]. destruct (_ && _ && _).
  - intros [= <- <-]. exists 1%nat. split_and!; [lia|done|cbn; lia].
  - intros (k & Hk & -> & Hlen)%IH. exists (S k).
    split_and!; [lia| |cbn [length]; lia].
    by replace (2 * S k)%nat with (S (S (2 * k))) by lia.
Qed.

(** X7. When [spawn_food] returns it has changed nothing but the food, which
    is a grid cell on no obstacle and on no cell of the player or of the AI
    snake, dead or alive; it has read an even, positive number of draws. *)
Theorem spawn_food_places (g g' : Game.t) (tape tape' : list Z) :
  Game.spawn_food g tape = Ok ((), g', tape') →
  g' = Game.set_food (Game.food g') g
  ∧ (0 ≤ (Game.food g').1 < GRID_WIDTH)
  ∧ (0 ≤ (Game.food g').2 < GRID_HEIGHT)
  ∧ (Game.food g' ∉ Snake.body (Game.player g))
  ∧ (∀ ai, Game.ai_snake g = Some ai → Game.food g' ∉ Snake.body ai)
  ∧ (Game.food g' ∉ Game.obstacles g)
  ∧ ∃ k : nat, (1 ≤ k)%nat ∧ tape' = drop (2 * k) tape
               ∧ length tape = (2 * k + length tape')%nat.
Proof.
  intros H. pose proof H as (c & -> & [Hx Hy]%elem_of_grid & ? & ? & ?)%spawn_food_Ok.
  apply spawn_food_loop_draws in H. fields. done.
Qed.

Lemma spawn_food_places_witness :
  let g :=
    Game.mk (Snake.mk [(5, 5); (4, 5)] RIGHT 0 false true ∅)
            (Some (Snake.mk [(7, 7)] UP 0 true false ∅))
            (5, 5) None {[(8, 8)]} 1 2 true in
  ∃ g', Game.spawn_food g [5; 5; 7; 7; 8; 8; 12; 13; 99] = Ok ((), g', [99])
        ∧ Game.food g' ∉ Game.obstacles g.
Proof.
  intros g.
  assert (Game.spawn_food g [5; 5; 7; 7; 8; 8; 12; 13; 99]
          = Ok ((), Game.set_food (12, 13) g, [99])) as H by by vm_compute.
  exists (Game.set_food (12, 13) g). split; [exact H|].
  by destruct (spawn_food_places g _ _ _ H) as (_ & _ & _ & _ & _ & Hobs & _).
Defined.

Lemma spawn_food_loop_fuel (fuel1 : nat) (g : Game.t) :
  ∀ (fuel2 : nat) (tape : list Z),
    (length tape < fuel1)%nat → (length tape < fuel2)%nat →
    Game.spawn_food_loop fuel1 g tape = Game.spawn_food_loop fuel2 g tape.
Proof.
  induction fuel1 as [|fuel1 IH]; intros fuel2 tape H1 H2; [lia|].
  destruct fuel2 as [|fuel2]; [lia|]. cbn [Game.spawn_food_loop].
  destruct tape as [|rx [|ry tape]]; [done..|].
  cbn [random.randint mbind outcome_bind]. destruct (_ && _ && _); [done|].
  cbn [length] in H1, H2. apply IH; lia.
Qed.

Lemma spawn_food_loop_step (fuel : nat) (g : Game.t) (rx ry : Z)
    (tape : list Z) :
  Game.spawn_food_loop (S fuel) g (rx :: ry :: tape)
  = let c := (rx `mod` GRID_WIDTH, ry `mod` GRID_HEIGHT) in
    if bool_decide (c ∉ Snake.body (Game.player g))
       && Game.not_in_ai_body c g
       && bool_decide (c ∉ Game.obstacles g)
    then Ok ((), Game.set_food c g, tape)
    else Game.spawn_food_loop fuel g tape.
Proof. reflexivity. Qed.

(** Two draws in [spawn_food]: the cell they give is taken when it is
    free, and dropped otherwise. *)
Lemma spawn_food_cons (g : Game.t) (rx ry : Z) (tape : list Z) :
  Game.spawn_food g (rx :: ry :: tape)
  = if bool_decide ((rx `mod` GRID_WIDTH, ry `mod` GRID_HEIGHT)
                    ∉ Snake.body (Game.player g))
       && Game.not_in_ai_body (rx `mod` GRID_WIDTH, ry `mod` GRID_HEIGHT) g
       && bool_decide ((rx `mod` GRID_WIDTH, ry `mod` GRID_HEIGHT)
                       ∉ Game.obstacles g)
    then Ok ((), Game.set_food (rx `mod` GRID_WIDTH, ry `mod` GRID_HEIGHT) g,
             tape)
    else Game.spawn_food g tape.
Proof.
  unfold Game.spawn_food. rewrite spawn_food_loop_step. cbn zeta.
  destruct (_ && _ && _); [done|].
  apply spawn_food_loop_fuel; cbn [length]; lia.
Qed.

Lemma free_for_food_test (g : Game.t) (x y : Z) :
  bool_decide ((x `mod` GRID_WIDTH, y `mod` GRID_HEIGHT)
               ∉ Snake.body (Game.player g))
  && Game.not_in_ai_body (x `mod` GRID_WIDTH, y `mod` GRID_HEIGHT) g
  && bool_decide ((x `mod` GRID_WIDTH, y `mod` GRID_HEIGHT)
                  ∉ Game.obstacles g) = true
  ↔ free_for_food g (x `mod` GRID_WIDTH, y `mod` GRID_HEIGHT).
Proof.
  unfold free_for_food.
  rewrite !andb_true_iff, !bool_decide_eq_true, not_in_ai_body_spec.
  rewrite elem_of_grid. cbn [fst snd].
  pose proof (Z.mod_pos_bound x GRID_WIDTH eq_refl).
  pose proof (Z.mod_pos_bound y GRID_HEIGHT eq_refl).
  tauto.
Qed.

(** X8. [spawn_food] returns as soon as the draws give a free cell, and
    that cell is the food. However many pairs of draws have given cells on
    a snake or an obstacle before, the first pair that gives a cell in
    the grid off both snakes and the obstacles ends the search: the food
    is that cell, nothing else of the game has changed, and the draws
    after the pair are left. *)
Theorem spawn_food_first_free (g : Game.t) (rejected : list (Z * Z))
    (rx ry : Z) (tape : list Z) :
  (∀ p, p ∈ rejected →
        ¬ free_for_food g (p.1 `mod` GRID_WIDTH, p.2 `mod` GRID_HEIGHT)) →
  free_for_food g (rx `mod` GRID_WIDTH, ry `mod` GRID_HEIGHT) →
  ∃ g',
    Game.spawn_food g ((rejected ≫= λ p, [p.1; p.2]) ++ rx :: ry :: tape)
    = Ok ((), g', tape)
    ∧ Game.food g' = (rx `mod` GRID_WIDTH, ry `mod` GRID_HEIGHT)
    ∧ Game.player g' = Game.player g
    ∧ Game.ai_snake g' = Game.ai_snake g
    ∧ Game.power_up g' = Game.power_up g
    ∧ Game.obstacles g' = Game.obstacles g
    ∧ Game.level g' = Game.level g
    ∧ Game.game_mode g' = Game.game_mode g
    ∧ Game.running g' = Game.running g.
Proof.
  intros Hrej Hfree. induction rejected as [|[px py] rejected IH].
  - cbn [mbind list_bind app]. rewrite spawn_food_cons.
    rewrite (proj2 (free_for_food_test g rx ry) Hfree).
    by eexists.
  - cbn [mbind list_bind app fst snd]. rewrite spawn_food_cons.
    destruct (_ && _ && _) eqn:Htest.
    + apply free_for_food_test in Htest.
      destruct (Hrej (px, py)); [by left|done].
    + apply IH. intros p Hp. apply Hrej. by right.
Qed.

Lemma spawn_food_first_free_witness :
  let g :=
    Game.mk (Snake.mk [(5, 5); (4, 5)] RIGHT 0 false true ∅)
            (Some (Snake.mk [(7, 7)] UP 0 true false ∅))
            (5, 5) None {[(8, 8)]} 1 2 true in
  ∃ g', Game.spawn_food g [45; 35; 7; 7; 8; 8; 12; 13; 99] = Ok ((), g', [99])
        ∧ Game.food g' = (12, 13)
        ∧ Game.player g' = Game.player g.
Proof.
  intros g.
  destruct (spawn_food_first_free g [(45, 35); (7, 7); (8, 8)] 12 13 [99])
    as (g' & Hs & Hfood & Hplayer & _).
  - intros p Hp Hfree%free_for_food_test.
    repeat (apply elem_of_cons in Hp as [->|Hp]);
      [by vm_compute in Hfree..|by apply elem_of_nil in Hp].
  - apply free_for_food_test. by vm_compute.
  - by exists g'.
Defined.

Lemma spawn_power_up_loop_draws (fuel : nat) (g : Game.t) :
  ∀ (tape : list Z) (g' : Game.t) (tape' : list Z),
    Game.spawn_power_up_loop fuel g tape = Ok ((), g', tape') →
    ∃ k : nat, (1 ≤ k)%nat ∧ tape' = drop (2 * k + 1) tape.
Proof.
  induction fuel as [|fuel IH]; intros tape g' tape'; [done|].
  cbn [Game.spawn_power_up_loop].
  destruct tape as [|rx [|ry tape]]; [done..|].
  cbn [random.randint mbind outcome_bind]. destruct (_ && _ && _).
  - destruct tape as [|r tape]; [done|]. cbn -[PowerUpTypes lookup].
    destruct (PowerUpTypes !! _); [|done]. intros [= <- <-].
    exists 1%nat. split; [lia|done].
  - intros (k & Hk & ->)%IH. exists (S k). split; [lia|].
    by replace (2 * S k + 1)%nat with (S (S (2 * k + 1))) by lia.
Qed.

(** X9. When [spawn_power_up] returns, either the first draw was not below
    0.3 and nothing has changed, or the power-up of the grid, if there was
    one, has been replaced by a new one that lasts 5000 ms and lies on a
    grid cell that is no cell of the player, not the food and no obstacle. *)
Theorem spawn_power_up_places (g g' : Game.t) (tape tape' : list Z) :
  Game.spawn_power_up g tape = Ok ((), g', tape') →
  (∃ r, tape = r :: tape' ∧ g' = g
        ∧ random.lt (r `mod` 2 ^ 53) random.float_0_3 = false)
  ∨ (∃ r pu (k : nat),
       random.lt (r `mod` 2 ^ 53) random.float_0_3 = true
       ∧ (1 ≤ k)%nat ∧ tape' = drop (2 * k + 2) tape
       ∧ g' = Game.set_power_up (Some pu) g
       ∧ PowerUp.duration pu = 5000
       ∧ (0 ≤ PowerUp.x pu < GRID_WIDTH)
       ∧ (0 ≤ PowerUp.y pu < GRID_HEIGHT)
       ∧ ((PowerUp.x pu, PowerUp.y pu) ∉ Snake.body (Game.player g))
       ∧ (PowerUp.x pu, PowerUp.y pu) ≠ Game.food g
       ∧ ((PowerUp.x pu, PowerUp.y pu) ∉ Game.obstacles g)).
Proof.
  unfold Game.spawn_power_up. destruct tape as [|r tape]; [done|].
  cbn [random.random mbind outcome_bind].
  destruct (random.lt (r `mod` 2 ^ 53) random.float_0_3) eqn:Hlt.
  - intros H. right.
    pose proof H as (k & Hk & ->)%spawn_power_up_loop_draws.
    apply spawn_power_up_loop_Ok in H
      as (x & y & kind & -> & [Hx Hy]%elem_of_grid & ? & ? & ?).
    exists r, (PowerUp.init x y kind), k.
    replace (2 * k + 2)%nat with (S (2 * k + 1)) by lia.
    cbn [fst snd] in Hx, Hy. split_and!; try done; cbn; lia.
  - intros [= <- <-]. left. by exists r.
Qed.

Lemma spawn_power_up_places_witness :
  let g :=
    Game.mk (Snake.init 20 15 false) None (9, 9)
            (Some (PowerUp.init 1 1 SLOW_DOWN)) ∅ 1 1 true in
  Game.spawn_power_up g [0; 20; 15; 9; 9; 3; 4; 2]
  = Ok ((), Game.set_power_up (Some (PowerUp.init 3 4 DOUBLE_POINTS)) g, [])
  ∧ (3, 4) ≠ Game.food g.
Proof.
  intros g.
  assert (Game.spawn_power_up g [0; 20; 15; 9; 9; 3; 4; 2]
          = Ok ((), Game.set_power_up
                      (Some (PowerUp.init 3 4 DOUBLE_POINTS)) g, []))
    as H by by vm_compute.
  split; [exact H|].
  destruct (spawn_power_up_places g _ _ _ H)
    as [(r & _ & Hg & _)|(r & pu & k & _ & _ & _ & Hg & _ & _ & _ & _ & Hf & _)].
  - by vm_compute in Hg.
  - injection Hg as <-. exact Hf.
Defined.

Lemma spawn_obstacle_loop_Ok (fuel : nat) (player : Snake.t)
    (food : option Cell) (obstacles : gset Cell) :
  ∀ (tape : list Z) (obstacles' : gset Cell) (tape' : list Z),
    Game.spawn_obstacle_loop fuel player food obstacles tape
    = Ok (obstacles', tape') →
    ∃ c, obstacles' = obstacles ∪ {[c]}
         ∧ (c ∉ obstacles)
         ∧ (c ∉ Snake.body player)
         ∧ Some c ≠ food
         ∧ (1 ≤ c.1 ≤ GRID_WIDTH - 2)
         ∧ (1 ≤ c.2 ≤ GRID_HEIGHT - 2).
Proof.
  induction fuel as [|fuel IH]; intros tape obstacles' tape'; [done|].
  cbn [Game.spawn_obstacle_loop].
  intros ([x t1] & Hx & ([y t2] & Hy & Hrest)%bind_Ok)%bind_Ok.
  apply randint_Ok in Hx as [Hx _]; [|done].
  apply randint_Ok in Hy as [Hy _]; [|done].
  destruct (_ && _ && _) eqn:Hfree.
  - injection Hrest as <- <-.
    apply andb_true_iff in Hfree as [[H1 H2]%andb_true_iff H3].
    apply bool_decide_eq_true in H1, H2, H3.
    by exists (x, y).
  - by apply IH in Hrest.
Qed.

Lemma spawn_obstacles_range_Ok (n : nat) (player : Snake.t)
    (food : option Cell) :
  ∀ (obstacles : gset Cell) (tape : list Z) (obstacles' : gset Cell)
    (tape' : list Z),
    Game.spawn_obstacles_range n player food obstacles tape
    = Ok (obstacles', tape') →
    size obstacles' = (size obstacles + n)%nat
    ∧ ∀ c, c ∈ obstacles' →
           c ∈ obstacles
           ∨ ((c ∉ Snake.body player)
              ∧ Some c ≠ food
              ∧ (1 ≤ c.1 ≤ GRID_WIDTH - 2)
              ∧ (1 ≤ c.2 ≤ GRID_HEIGHT - 2)).
Proof.
  induction n as [|n IH]; intros obstacles tape obstacles' tape'.
  { intros [= <- <-]. split; [lia|]. by left. }
  cbn [Game.spawn_obstacles_range].
  intros ([obs1 t1] & Hone & Hrest)%bind_Ok.
  apply spawn_obstacle_loop_Ok in Hone as (c & -> & Hnew & Hc).
  apply IH in Hrest as [Hsize Hall]. split.
  - rewrite Hsize, size_union, size_singleton; [lia|].
    by apply disjoint_singleton_r.
  - intros c' [[Hc'| ->%elem_of_singleton]%elem_of_union|Hc']%Hall.
    + by left.
    + by right.
    + by right.
Qed.

(** X10. When [spawn_obstacles] returns, there are exactly
    [10 + 2 * level] obstacles, each of them off the border of the grid, on
    no cell of the player and not on the food of that moment. *)
Theorem spawn_obstacles_count (level : Z) (player : Snake.t)
    (food : option Cell) (tape tape' : list Z) (obstacles : gset Cell) :
  Game.spawn_obstacles level player food tape = Ok (obstacles, tape') →
  Z.of_nat (size obstacles) = Z.max 0 (10 + level * 2)
  ∧ ∀ c, c ∈ obstacles →
         (1 ≤ c.1 ≤ GRID_WIDTH - 2)
         ∧ (1 ≤ c.2 ≤ GRID_HEIGHT - 2)
         ∧ (c ∉ Snake.body player)
         ∧ Some c ≠ food.
Proof.
  unfold Game.spawn_obstacles.
  intros [Hsize Hall]%spawn_obstacles_range_Ok. split.
  - rewrite Hsize, size_empty. lia.
  - intros c [[]%not_elem_of_empty|(? & ? & ? & ?)]%Hall. done.
Qed.

Lemma spawn_obstacles_count_witness :
  ∃ obstacles,
    Game.spawn_obstacles (-4) (Snake.init 20 15 false) (Some (3, 3))
                         [19; 14; 2; 2; 0; 0; 0; 0; 5; 6; 77]
    = Ok (obstacles, [77])
    ∧ Z.of_nat (size obstacles) = 2.
Proof.
  assert (Game.spawn_obstacles (-4) (Snake.init 20 15 false) (Some (3, 3))
                               [19; 14; 2; 2; 0; 0; 0; 0; 5; 6; 77]
          = Ok ({[(1, 1); (6, 7)]}, [77])) as H by by vm_compute.
  exists {[(1, 1); (6, 7)]}. split; [exact H|].
  by destruct (spawn_obstacles_count _ _ _ _ _ _ H) as [-> _].
Defined.

(** The obstacles that [init_game] leaves. *)
Lemma init_game_obstacles (mode : Z) (food : option Cell) (running : bool)
    (tape tape' : list Z) (g : Game.t) :
  Game.init_game mode food running tape = Ok (g, tape') →
  size (Game.obstacles g) = (if mode =? 3 then 12%nat else 0%nat)
  ∧ ∀ c, c ∈ Game.obstacles g →
         (1 ≤ c.1 ≤ GRID_WIDTH - 2) ∧ (1 ≤ c.2 ≤ GRID_HEIGHT - 2)
         ∧ c ≠ (20, 15) ∧ Some c ≠ food.
Proof.
  unfold Game.init_game.
  intros ([obstacles t1] & Hobs & ([[[] g1] t2] & Hf & [= <- <-])%bind_Ok)%bind_Ok.
  apply spawn_food_Ok in Hf as (c & -> & _). fields.
  destruct (mode =? 3).
  - unfold Game.spawn_obstacles in Hobs.
    apply spawn_obstacles_range_Ok in Hobs as [Hsize Hall].
    rewrite size_empty in Hsize. split; [done|].
    intros c' [[]%not_elem_of_empty|(Hc' & ? & ? & ?)]%Hall.
    split; [done|]. split; [done|]. split; [|done].
    intros ->. apply Hc'. by left.
  - injection Hobs as <- <-. split; [done|]. by intros c' ?%not_elem_of_empty.
Qed.

(** X11. [init_game] starts every round from the same position: a living
    player of one cell at (20, 15) heading right with score 0 and no
    power-up; an AI snake of one cell at (10, 7) in mode 2 and none
    otherwise; twelve obstacles off the border, the player and the food of
    the round before in mode 3 and none otherwise; level 1, no power-up on
    the grid, and the food on a grid cell free of snakes and obstacles. *)
Theorem init_game_start (mode : Z) (food : option Cell) (running : bool)
    (tape tape' : list Z) (g : Game.t) :
  Game.init_game mode food running tape = Ok (g, tape') →
  Game.player g = Snake.mk [(20, 15)] RIGHT 0 false true ∅
  ∧ Game.ai_snake g
    = (if mode =? 2 then Some (Snake.mk [(10, 7)] RIGHT 0 true true ∅)
       else None)
  ∧ Game.power_up g = None
  ∧ Game.level g = 1
  ∧ Game.game_mode g = mode
  ∧ Game.running g = running
  ∧ size (Game.obstacles g) = (if mode =? 3 then 12%nat else 0%nat)
  ∧ (∀ c, c ∈ Game.obstacles g →
          (1 ≤ c.1 ≤ GRID_WIDTH - 2) ∧ (1 ≤ c.2 ≤ GRID_HEIGHT - 2)
          ∧ c ≠ (20, 15) ∧ Some c ≠ food)
  ∧ (0 ≤ (Game.food g).1 < GRID_WIDTH)
  ∧ (0 ≤ (Game.food g).2 < GRID_HEIGHT)
  ∧ Game.food g ≠ (20, 15)
  ∧ (mode = 2 → Game.food g ≠ (10, 7))
  ∧ (Game.food g ∉ Game.obstacles g).
Proof.
  intros Hinit. pose proof (init_game_obstacles _ _ _ _ _ _ Hinit) as [Hsize Hall].
  revert Hinit. unfold Game.init_game.
  intros ([obstacles t1] & Hobs & ([[[] g1] t2] & Hf & [= <- <-])%bind_Ok)%bind_Ok.
  apply spawn_food_Ok in Hf as (c & -> & [Hx Hy]%elem_of_grid & Hp & Hai & Ho).
  fields. cbn [Game.ai_snake] in Hai.
  destruct Hx, Hy. split_and!; try done.
  - intros ->. apply Hp. by left.
  - intros -> ->. eapply Hai; [done|]. by left.
Qed.

Lemma init_game_start_witness :
  ∃ g, Game.init_game 2 None true [20; 15; 10; 7; 3; 4] = Ok (g, [])
       ∧ Game.food g = (3, 4)
       ∧ Game.ai_snake g = Some (Snake.mk [(10, 7)] RIGHT 0 true true ∅).
Proof.
  assert (∃ g, Game.init_game 2 None true [20; 15; 10; 7; 3; 4] = Ok (g, [])
               ∧ Game.food g = (3, 4)) as (g & H & Hfood).
  { eexists. split; [by vm_compute|done]. }
  exists g. split; [exact H|]. split; [exact Hfood|].
  by destruct (init_game_start _ _ _ _ _ _ H) as (_ & -> & _).
Defined.

(** ** More about the input of a frame *)

Lemma turn_same (g : Game.t) :
  Game.turn (Snake.direction (Game.player g)) g = g.
Proof. by destruct g as [[] ? ? ? ? ? ? ?]. Qed.

Lemma set_running_same (g : Game.t) : Game.set_running (Game.running g) g = g.
Proof. by destruct g. Qed.

(** What [handle_input] does with its first event. *)
Lemma handle_input_cons (e : Event) (events : list Event) (g : Game.t) :
  (e = QUIT
   ∧ Game.handle_input (e :: events) g = (false, Game.set_running false g))
  ∨ (e = KEYDOWN K_ESCAPE ∧ Game.handle_input (e :: events) g = (false, g))
  ∨ (e ≠ QUIT ∧ e ≠ KEYDOWN K_ESCAPE
     ∧ ∃ d, Game.handle_input (e :: events) g
            = Game.handle_input events (Game.turn d g)).
Proof.
  destruct e as [|key|]; [by left| |].
  - destruct (decide (key = K_ESCAPE)) as [->|Hkey].
    { right; left. split; [done|]. cbn [Game.handle_input].
      repeat (case_bool_decide; try done). }
    right; right. split; [done|]. split; [congruence|].
    cbn [Game.handle_input].
    repeat (case_bool_decide; cbn [andb]; try done);
      try (by eexists);
      exists (Snake.direction (Game.player g)); by rewrite turn_same.
  - right; right. split; [done|]. split; [done|].
    exists (Snake.direction (Game.player g)). by rewrite turn_same.
Qed.

Lemma handle_input_false (events : list Event) :
  ∀ g : Game.t,
    (Game.handle_input events g).1 = false
    ↔ ∃ e, e ∈ events ∧ (e = QUIT ∨ e = KEYDOWN K_ESCAPE).
Proof.
  induction events as [|e events IH]; intros g.
  { split; [done|]. by intros (e & ?%elem_of_nil & _). }
  destruct (handle_input_cons e events g)
    as [[-> ->]|[[-> ->]|(Hq & He & d & ->)]].
  - split; [|done]. intros _. exists QUIT. split; [by left|by left].
  - split; [|done]. intros _. exists (KEYDOWN K_ESCAPE).
    split; [by left|by right].
  - rewrite IH. split.
    + intros (e' & Hin & He'). exists e'. split; [by right|done].
    + intros (e' & [->|Hin]%elem_of_cons & He'); [by destruct He'|].
      by exists e'.
Qed.

Lemma handle_input_append (l1 : list Event) :
  ∀ (l2 : list Event) (g : Game.t),
    Game.handle_input (l1 ++ l2) g
    = if (Game.handle_input l1 g).1
      then Game.handle_input l2 (Game.handle_input l1 g).2
      else Game.handle_input l1 g.
Proof.
  induction l1 as [|e l1 IH]; intros l2 g; [done|].
  rewrite <-app_comm_cons. cbn [Game.handle_input].
  destruct e as [|key|]; [done| |apply IH].
  repeat (case_bool_decide; cbn [andb]); try apply IH; done.
Qed.

(** X12. [handle_input] answers [False] exactly when one of the events of
    the frame is a QUIT or a press of Escape; and it takes the events one
    after the other: the events of a frame split in two are handled as the
    first part and then, unless that answered [False], the second part on
    the state the first has left. *)
Theorem handle_input_answer (l1 l2 : list Event) (g : Game.t) :
  ((Game.handle_input l1 g).1 = false
   ↔ ∃ e, e ∈ l1 ∧ (e = QUIT ∨ e = KEYDOWN K_ESCAPE))
  ∧ Game.handle_input (l1 ++ l2) g
    = if (Game.handle_input l1 g).1
      then Game.handle_input l2 (Game.handle_input l1 g).2
      else Game.handle_input l1 g.
Proof. split; [apply handle_input_false|apply handle_input_append]. Qed.

Lemma handle_input_turns (events : list Event) :
  ∀ g : Game.t,
    ∃ d, (Game.handle_input events g).2
         = Game.set_running (Game.running (Game.handle_input events g).2)
             (Game.turn d g).
Proof.
  induction events as [|e events IH]; intros g.
  { exists (Snake.direction (Game.player g)).
    by rewrite turn_same, set_running_same. }
  destruct (handle_input_cons e events g)
    as [[-> ->]|[[-> ->]|(Hq & He & d & ->)]].
  - exists (Snake.direction (Game.player g)). by rewrite turn_same.
  - exists (Snake.direction (Game.player g)).
    by rewrite turn_same, set_running_same.
  - destruct (IH (Game.turn d g)) as [d' Hd']. by exists d'.
Qed.

Lemma handle_input_running (events : list Event) :
  ∀ g : Game.t,
    Game.running (Game.handle_input events g).2 = false
    ↔ Game.running g = false
      ∨ ∃ l1 l2, events = l1 ++ QUIT :: l2 ∧ KEYDOWN K_ESCAPE ∉ l1.
Proof.
  induction events as [|e events IH]; intros g.
  { split; [by left|]. intros [?|(l1 & l2 & Heq & _)]; [done|].
    by destruct l1. }
  destruct (handle_input_cons e events g)
    as [[-> ->]|[[-> ->]|(Hq & He & d & ->)]].
  - split; [|done]. intros _. right. exists [], events.
    split; [done|apply not_elem_of_nil].
  - split; [by left|]. intros [?|(l1 & l2 & Heq & Hesc)]; [done|].
    destruct l1 as [|e1 l1]; [done|]. injection Heq as <- _.
    destruct Hesc. by left.
  - rewrite IH. cbn [Game.running Game.turn Game.set_player]. split.
    + intros [?|(l1 & l2 & -> & Hesc)]; [by left|]. right.
      exists (e :: l1), l2. split; [done|].
      by intros [<-|?]%elem_of_cons.
    + intros [?|(l1 & l2 & Heq & Hesc)]; [by left|]. right.
      destruct l1 as [|e1 l1]; [by injection Heq as ->|].
      injection Heq as <- ->. exists l1, l2. split; [done|].
      intros ?. apply Hesc. by right.
Qed.

(** X13. [handle_input] changes nothing but the player's direction and the
    [running] flag; and [running] is cleared exactly by a QUIT that no press
    of Escape precedes in the frame. *)
Theorem handle_input_changes (events : list Event) (g : Game.t) :
  (∃ d, (Game.handle_input events g).2
        = Game.set_running (Game.running (Game.handle_input events g).2)
            (Game.set_player
               (Snake.set_direction d (Game.player g)) g))
  ∧ (Game.running (Game.handle_input events g).2 = false
     ↔ Game.running g = false
       ∨ ∃ l1 l2, events = l1 ++ QUIT :: l2 ∧ KEYDOWN K_ESCAPE ∉ l1).
Proof. split; [apply handle_input_turns|apply handle_input_running]. Qed.

Lemma handle_input_one (e : Event) (g : Game.t) :
  Snake.direction (Game.player (Game.handle_input [e] g).2)
  ≠ opposite (Snake.direction (Game.player g)).
Proof.
  destruct e as [|key|]; cbn [Game.handle_input].
  - cbn. by destruct (Snake.direction (Game.player g)).
  - destruct key, (Snake.direction (Game.player g)) eqn:Hd;
      repeat (case_bool_decide; try done; cbn [andb snd]);
      cbn; by rewrite ?Hd.
  - cbn. by destruct (Snake.direction (Game.player g)).
Qed.

(** X14. No event of a frame turns the player around on its own: wherever
    an event stands in the frame, the direction after it is not the
    opposite of the direction just before it. *)
Theorem event_never_reverses (events : list Event) (e : Event) (g : Game.t) :
  Snake.direction (Game.player (Game.handle_input (events ++ [e]) g).2)
  ≠ opposite (Snake.direction (Game.player (Game.handle_input events g).2)).
Proof.
  rewrite handle_input_append.
  destruct (Game.handle_input events g) as [[] g1]; cbn [fst snd].
  - apply handle_input_one.
  - by destruct (Snake.direction (Game.player g1)).
Qed.

(** ** More about a tick *)

Lemma collect_power_up_spec (ticks : Z) (g3 g4 : Game.t) :
  Game.collect_power_up ticks g3 = Ok g4 →
  (g4 = g3
   ∧ ∀ pu, Game.power_up g3 = Some pu →
           head (Snake.body (Game.player g3))
           ≠ Some (PowerUp.x pu, PowerUp.y pu))
  ∨ ∃ pu,
      Game.power_up g3 = Some pu
      ∧ head (Snake.body (Game.player g3)) = Some (PowerUp.x pu, PowerUp.y pu)
      ∧ g4 = Game.set_power_up None
               (Game.set_player
                  (Snake.set_power_ups
                     (<[PowerUp.type pu := ticks]>
                        (Snake.power_ups (Game.player g3)))
                     (Game.player g3)) g3).
Proof.
  unfold Game.collect_power_up.
  destruct (Game.power_up g3) as [pu|]; [|intros [= <-]; by left].
  intros (hd & [rest Hb]%body_first_Ok & Hrest)%bind_Ok. rewrite Hb.
  case_bool_decide as Hhd; injection Hrest as <-; [right|left].
  - exists pu. by rewrite Hhd.
  - split; [done|]. intros pu' [= <-] [= ->]. done.
Qed.

Lemma check_collisions_spec (g4 g' : Game.t) (a : bool) :
  Game.check_collisions g4 = Ok (a, g') →
  (a = false
   ∧ collides (Game.obstacles g4) (Snake.body (Game.player g4))
   ∧ g' = Game.set_player (Snake.set_alive false (Game.player g4)) g4)
  ∨ (a = true
     ∧ ¬ collides (Game.obstacles g4) (Snake.body (Game.player g4))
     ∧ g' = g4
     ∧ ∀ ai, Game.ai_snake g4 = Some ai → Snake.alive ai = true →
             ¬ collides (Game.obstacles g4) (Snake.body ai))
  ∨ (a = true
     ∧ ¬ collides (Game.obstacles g4) (Snake.body (Game.player g4))
     ∧ ∃ ai, Game.ai_snake g4 = Some ai ∧ Snake.alive ai = true
             ∧ collides (Game.obstacles g4) (Snake.body ai)
             ∧ g' = Game.set_ai_snake (Some (Snake.set_alive false ai)) g4).
Proof.
  unfold Game.check_collisions. intros ([hit p] & Hc & Hrest)%bind_Ok.
  apply check_collision_Ok in Hc as [-> Hiff].
  rewrite set_player_id in Hrest.
  destruct hit.
  { injection Hrest as <- <-. left. split; [done|]. split; [by apply Hiff|done]. }
  assert (¬ collides (Game.obstacles g4) (Snake.body (Game.player g4)))
    by (intros ?%Hiff; done).
  right.
  destruct (Game.ai_snake g4) as [ai|] eqn:Hai;
    [|injection Hrest as <- <-; left; by split_and!].
  destruct (Snake.alive ai) eqn:Hal.
  2:{ injection Hrest as <- <-. left. split_and!; [done..|].
      intros ai' [= <-]. by rewrite Hal. }
  apply bind_Ok in Hrest as ([hit' ai'] & Hc & Hrest).
  apply check_collision_Ok in Hc as [-> Hiff'].
  destruct hit'; injection Hrest as <- <-.
  - right. split; [done|]. split; [done|]. exists ai.
    split_and!; [done..| |done]. by apply Hiff'.
  - left. split; [done|]. split; [done|]. split.
    + by rewrite set_ai_snake_id.
    + intros ai' [= <-] _ ?%Hiff'. done.
Qed.

(** X15. A tick leaves the obstacles, the level, the mode and the [running]
    flag as they are; it does not turn the player, and it neither adds nor
    removes the opponent. *)
Theorem update_settings (ticks : Z) (g g' : Game.t) (tape tape' : list Z)
    (a : bool) :
  Game.update ticks g tape = Ok (a, g', tape') →
  Game.obstacles g' = Game.obstacles g
  ∧ Game.level g' = Game.level g
  ∧ Game.game_mode g' = Game.game_mode g
  ∧ Game.running g' = Game.running g
  ∧ Snake.direction (Game.player g') = Snake.direction (Game.player g)
  ∧ Snake.is_ai (Game.player g') = Snake.is_ai (Game.player g)
  ∧ (Game.ai_snake g' = None ↔ Game.ai_snake g = None).
Proof.
  intros (hd & ae & g1 & g2 & t2 & g3 & g4 & _ & Hae & H1 & H2 & H3 & H4
          & H5)%update_Ok.
  assert (Game.obstacles g1 = Game.obstacles g
          ∧ Game.level g1 = Game.level g
          ∧ Game.game_mode g1 = Game.game_mode g
          ∧ Game.running g1 = Game.running g
          ∧ Snake.direction (Game.player g1) = Snake.direction (Game.player g)
          ∧ Snake.is_ai (Game.player g1) = Snake.is_ai (Game.player g)
          ∧ (Game.ai_snake g1 = None ↔ Game.ai_snake g = None))
    as (<- & <- & <- & <- & <- & <- & <-).
  { apply move_snakes_Ok in H1 as (p1 & (h & r & _ & ->)%move_Ok & Hg1).
    destruct Hg1 as [[-> _]|(ai & ai1 & ai2 & Hs & _ & _ & _ & ->)];
      fields; [done|]. by rewrite Hs. }
  assert (Game.obstacles g2 = Game.obstacles g1
          ∧ Game.level g2 = Game.level g1
          ∧ Game.game_mode g2 = Game.game_mode g1
          ∧ Game.running g2 = Game.running g1
          ∧ Snake.direction (Game.player g2) = Snake.direction (Game.player g1)
          ∧ Snake.is_ai (Game.player g2) = Snake.is_ai (Game.player g1)
          ∧ Game.ai_snake g2 = Game.ai_snake g1)
    as (<- & <- & <- & <- & <- & <- & <-).
  { apply player_eats_Ok in H2.
    destruct (bool_decide (hd = Game.food g)); [|by destruct H2 as [-> _]].
    destruct H2 as (c & t1 & _ & _ & [->|(x & y & k & -> & _)]); by fields. }
  assert (Game.obstacles g3 = Game.obstacles g2
          ∧ Game.level g3 = Game.level g2
          ∧ Game.game_mode g3 = Game.game_mode g2
          ∧ Game.running g3 = Game.running g2
          ∧ Game.player g3 = Game.player g2
          ∧ (Game.ai_snake g3 = None ↔ Game.ai_snake g2 = None))
    as (<- & <- & <- & <- & <- & <-).
  { apply ai_eats_Ok in H3. destruct ae; [|by destruct H3 as [-> _]].
    destruct H3 as (ai & Hs & H3). cbn zeta in H3.
    destruct (bool_decide (hd = Game.food g)).
    - destruct H3 as [-> _]. fields. by rewrite Hs.
    - destruct H3 as (c & -> & _). fields. by rewrite Hs. }
  assert (Game.obstacles g4 = Game.obstacles g3
          ∧ Game.level g4 = Game.level g3
          ∧ Game.game_mode g4 = Game.game_mode g3
          ∧ Game.running g4 = Game.running g3
          ∧ Snake.direction (Game.player g4) = Snake.direction (Game.player g3)
          ∧ Snake.is_ai (Game.player g4) = Snake.is_ai (Game.player g3)
          ∧ Game.ai_snake g4 = Game.ai_snake g3)
    as (<- & <- & <- & <- & <- & <- & <-).
  { by apply collect_power_up_Ok in H4 as [->|(pu & _ & ->)]. }
  apply check_collisions_spec in H5
    as [(_ & _ & ->)|[(_ & _ & -> & _)|(_ & _ & ai & Hs & _ & _ & ->)]];
    fields; [done..|]. by rewrite Hs.
Qed.

Lemma update_settings_witness :
  let g :=
    Game.mk (Snake.mk [(5, 5); (4, 5)] RIGHT 30 false true ∅)
            (Some (Snake.mk [(7, 7)] UP 0 true true ∅))
            (5, 5) None {[(8, 8)]} 4 2 true in
  ∃ a g' tape',
    Game.update 0 g [1; 1; 2 ^ 52] = Ok (a, g', tape')
    ∧ Game.level g' = 4.
Proof.
  intros g.
  assert (∃ a g' tape', Game.update 0 g [1; 1; 2 ^ 52] = Ok (a, g', tape'))
    as (a & g' & tape' & H) by (eexists _, _, _; by vm_compute).
  exists a, g', tape'. split; [done|].
  by destruct (update_settings _ _ _ _ _ _ H) as (_ & -> & _).
Defined.

Lemma spawn_power_up_draws (g g' : Game.t) (tape tape' : list Z) :
  Game.spawn_power_up g tape = Ok ((), g', tape') →
  ∃ k : nat, (1 ≤ k)%nat ∧ tape' = drop k tape.
Proof.
  unfold Game.spawn_power_up. destruct tape as [|r tape]; [done|].
  cbn [random.random mbind outcome_bind]. destruct (random.lt _ _).
  - intros (k & Hk & ->)%spawn_power_up_loop_draws.
    exists (S (2 * k + 1)). split; [lia|done].
  - intros [= <- <-]. exists 1%nat. by split.
Qed.

Lemma player_eats_draws (g1 g2 : Game.t) (tape t2 : list Z) :
  Game.player_eats true g1 tape = Ok ((), g2, t2) →
  ∃ k : nat, (3 ≤ k)%nat ∧ t2 = drop k tape.
Proof.
  unfold Game.player_eats.
  intros ([[[] g1'] t1] & (k & Hk & -> & _)%spawn_food_loop_draws
          & Hrest)%bind_Ok.
  destruct (drop (2 * k) tape) as [|r t1] eqn:Hdrop; [done|].
  assert (t1 = drop (S (2 * k)) tape) as ->.
  { replace (S (2 * k)) with (2 * k + 1)%nat by lia.
    by rewrite <-drop_drop, Hdrop. }
  cbn [random.random mbind outcome_bind] in Hrest.
  destruct (random.lt _ _).
  - apply spawn_power_up_draws in Hrest as (j & Hj & ->).
    exists (S (2 * k) + j)%nat. split; [lia|]. by rewrite drop_drop.
  - injection Hrest as <- <-. exists (S (2 * k)). split; [lia|done].
Qed.

(** X16. What a tick reads of the random source. It reads nothing, and
    leaves the food where it is, when neither snake is about to eat; it
    reads at least three draws when the player eats, and otherwise an even
    number of at least two when the opponent does. The draws left over are
    a suffix of the draws given. *)
Theorem update_draws (ticks : Z) (g g' : Game.t) (tape tape' : list Z)
    (a ae : bool) (hd : Cell) (rest : list Cell) :
  Snake.body (Game.player g) = hd :: rest →
  Game.ai_will_eat g = Ok ae →
  Game.update ticks g tape = Ok (a, g', tape') →
  ∃ k : nat,
    tape' = drop k tape
    ∧ if bool_decide (hd = Game.food g) then (3 ≤ k)%nat
      else if ae then (2 ≤ k)%nat ∧ Nat.Even k
      else k = 0%nat ∧ Game.food g' = Game.food g.
Proof.
  intros Hb Hae
    (hd' & ae' & g1 & g2 & t2 & g3 & g4 & [rest' Hb0]%body_first_Ok
     & Hae' & H1 & H2 & H3 & H4 & H5)%update_Ok.
  rewrite Hb in Hb0. injection Hb0 as <- <-.
  rewrite Hae in Hae'. injection Hae' as <-.
  destruct (early_phases g g1 g2 g3 _ rest ae tape t2 tape' Hb Hae H1 H2 H3)
    as (_ & _ & _ & _ & _ & Hfood & _).
  destruct (late_phases ticks g3 g4 g' a H4 H5) as (Hf' & _).
  destruct (bool_decide (hd = Game.food g)) eqn:Hpe.
  - apply player_eats_draws in H2 as (k & Hk & ->).
    apply ai_eats_Ok in H3. destruct ae.
    + destruct H3 as (ai & _ & [_ ->]). by exists k.
    + destruct H3 as [_ ->]. by exists k.
  - apply player_eats_Ok in H2 as [-> ->]. unfold Game.ai_eats in H3.
    destruct ae.
    + destruct (Game.ai_snake g1) as [ai|]; [|done]. cbn [negb] in H3.
      apply spawn_food_loop_draws in H3 as (k & Hk & -> & _).
      exists (2 * k)%nat. split; [done|]. split; [lia|by exists k].
    + injection H3 as <- <-. exists 0%nat. split; [done|]. split; [done|].
      cbn [orb] in Hfood. by rewrite Hf'.
Qed.

Lemma update_draws_witness :
  let g :=
    Game.mk (Snake.mk [(5, 5); (4, 5)] RIGHT 30 false true ∅)
            (Some (Snake.mk [(7, 7)] UP 0 true true ∅))
            (5, 5) None {[(8, 8)]} 1 2 true in
  ∃ a g' tape' (k : nat),
    Game.update 0 g [6; 5; 1; 1; 0; 2 ^ 52; 9; 9] = Ok (a, g', tape')
    ∧ tape' = drop k [6; 5; 1; 1; 0; 2 ^ 52; 9; 9]
    ∧ (3 ≤ k)%nat.
Proof.
  intros g.
  assert (∃ a g' tape',
            Game.update 0 g [6; 5; 1; 1; 0; 2 ^ 52; 9; 9] = Ok (a, g', tape'))
    as (a & g' & tape' & H) by (eexists _, _, _; by vm_compute).
  destruct (update_draws 0 g g' _ tape' a false (5, 5) [(4, 5)]
              eq_refl eq_refl H) as (k & Hk & Hk3).
  rewrite bool_decide_eq_true_2 in Hk3 by reflexivity.
  exists a, g', tape', k. split; [exact H|]. split; [exact Hk|exact Hk3].
Defined.

(** X17. The scores and lengths after a tick. The player gains 10 points,
    or 20 with DOUBLE_POINTS in its mapping, and one cell when its head was
    on the food before the tick, and nothing otherwise; the opponent gains
    10 points and one cell when it is alive and its head was on the food,
    and nothing otherwise. *)
Theorem update_scores (ticks : Z) (g g' : Game.t) (tape tape' : list Z)
    (a ae : bool) (hd : Cell) (rest : list Cell) :
  Snake.body (Game.player g) = hd :: rest →
  Game.ai_will_eat g = Ok ae →
  Game.update ticks g tape = Ok (a, g', tape') →
  Snake.score (Game.player g')
  = Snake.score (Game.player g)
    + (if bool_decide (hd = Game.food g)
       then if bool_decide
                 (DOUBLE_POINTS ∈ dom (Snake.power_ups (Game.player g)))
            then 20 else 10
       else 0)
  ∧ length (Snake.body (Game.player g'))
    = (length (Snake.body (Game.player g))
       + (if bool_decide (hd = Game.food g) then 1 else 0))%nat
  ∧ ∀ ai, Game.ai_snake g = Some ai →
          ∃ ai', Game.ai_snake g' = Some ai'
                 ∧ Snake.score ai' = Snake.score ai + (if ae then 10 else 0)
                 ∧ length (Snake.body ai')
                   = (length (Snake.body ai) + (if ae then 1 else 0))%nat.
Proof.
  intros Hb Hae
    (hd' & ae' & g1 & g2 & t2 & g3 & g4 & [rest' Hb0]%body_first_Ok
     & Hae' & H1 & H2 & H3 & H4 & H5)%update_Ok.
  rewrite Hb in Hb0. injection Hb0 as <- <-.
  rewrite Hae in Hae'. injection Hae' as <-.
  destruct (early_phases g g1 g2 g3 _ rest ae tape t2 tape' Hb Hae H1 H2 H3)
    as (_ & Hb3 & Hsc3 & _ & Hopp & _).
  destruct (late_phases ticks g3 g4 g' a H4 H5)
    as (_ & _ & Hb' & Hsc' & _ & Hopp' & _).
  rewrite Hb', Hsc', Hb3, Hsc3, Hb. split; [done|]. split.
  { destruct (bool_decide (hd = Game.food g)); cbn [length]; [lia|].
    rewrite length_removelast; cbn [length]; lia. }
  intros ai Hs. rewrite Hs in Hopp.
  destruct Hopp as (ai3 & Hs3 & _ & Hsc & Hbody).
  rewrite Hs3 in Hopp'. destruct Hopp' as (ai' & Hs' & Hbb & Hsc'' & _).
  exists ai'. rewrite Hbb, Hsc'', Hsc. split; [done|]. split; [done|].
  destruct (Snake.alive ai).
  - destruct Hbody as (h & r & d & -> & _ & ->).
    destruct ae; cbn [length]; [lia|].
    rewrite length_removelast; cbn [length]; lia.
  - destruct Hbody as [-> ->]. lia.
Qed.

Lemma update_scores_witness :
  let g :=
    Game.mk (Snake.mk [(5, 5); (4, 5)] RIGHT 30 false true
                      {[DOUBLE_POINTS := 7]})
            (Some (Snake.mk [(7, 7)] UP 0 true true ∅))
            (5, 5) None {[(8, 8)]} 1 2 true in
  ∃ a g' tape',
    Game.update 0 g [1; 1; 2 ^ 52] = Ok (a, g', tape')
    ∧ Snake.score (Game.player g') = 50
    ∧ length (Snake.body (Game.player g')) = 3%nat.
Proof.
  intros g.
  assert (∃ a g' tape', Game.update 0 g [1; 1; 2 ^ 52] = Ok (a, g', tape'))
    as (a & g' & tape' & H) by (eexists _, _, _; by vm_compute).
  destruct (update_scores 0 g g' _ tape' a false (5, 5) [(4, 5)]
              eq_refl eq_refl H) as (Hsc & Hlen & _).
  rewrite bool_decide_eq_true_2 in Hsc, Hlen by reflexivity.
  exists a, g', tape'. split; [exact H|]. split; [exact Hsc|exact Hlen].
Defined.

Lemma move_snakes_alive (pe ae : bool) (g g1 : Game.t) :
  Game.move_snakes pe ae g = Ok g1 →
  Snake.alive (Game.player g1) = Snake.alive (Game.player g)
  ∧ ∀ ai, Game.ai_snake g = Some ai →
          ∃ ai1, Game.ai_snake g1 = Some ai1
                 ∧ Snake.alive ai1 = Snake.alive ai
                 ∧ (Snake.alive ai = false → ai1 = ai).
Proof.
  intros (p1 & (h & r & _ & ->)%move_Ok & Hg1)%move_snakes_Ok.
  destruct Hg1 as [[-> Hdead]|(ai & ai1 & ai2 & Hs & Hal & Hai1
                                & (h' & r' & _ & ->)%move_Ok & ->)].
  - split; [done|]. intros ai Hs. by exists ai.
  - split; [done|]. intros ai0 Hs0. rewrite Hs in Hs0. injection Hs0 as <-.
    eexists. split; [done|]. rewrite Hai1. split; [done|]. congruence.
Qed.

Lemma ai_eats_alive (pe ae : bool) (g2 g3 : Game.t) (t2 t3 : list Z) :
  Game.ai_eats pe ae g2 t2 = Ok ((), g3, t3) →
  Game.player g3 = Game.player g2
  ∧ (ae = false → Game.ai_snake g3 = Game.ai_snake g2)
  ∧ ∀ ai, Game.ai_snake g2 = Some ai →
          ∃ ai3, Game.ai_snake g3 = Some ai3
                 ∧ Snake.alive ai3 = Snake.alive ai.
Proof.
  intros H3%ai_eats_Ok. destruct ae.
  - destruct H3 as (ai & Hs & H3). cbn zeta in H3.
    assert (∃ c, g3 = Game.set_food c
                        (Game.set_ai_snake
                           (Some (Snake.set_score (Snake.score ai + 10) ai))
                           g2)) as [c ->].
    { destruct pe.
      - destruct H3 as [-> _]. exists (Game.food g2). by destruct g2.
      - destruct H3 as (c & -> & _). by exists c. }
    split; [done|]. split; [done|]. intros ? Hs'. rewrite Hs in Hs'.
    injection Hs' as <-. by eexists.
  - destruct H3 as [-> _]. split; [done|]. split; [done|].
    intros ai Hs. by exists ai.
Qed.

(** The [alive] flags up to the collision checks of a tick. *)
Lemma alive_before_checks (ticks : Z) (g g1 g2 g3 g4 : Game.t) (hd : Cell)
    (ae : bool) (tape t2 t3 : list Z) :
  Game.ai_will_eat g = Ok ae →
  Game.move_snakes (bool_decide (hd = Game.food g)) ae g = Ok g1 →
  Game.player_eats (bool_decide (hd = Game.food g)) g1 tape
  = Ok ((), g2, t2) →
  Game.ai_eats (bool_decide (hd = Game.food g)) ae g2 t2 = Ok ((), g3, t3) →
  Game.collect_power_up ticks g3 = Ok g4 →
  Snake.alive (Game.player g4) = Snake.alive (Game.player g)
  ∧ ∀ ai, Game.ai_snake g = Some ai →
          ∃ ai4, Game.ai_snake g4 = Some ai4
                 ∧ Snake.alive ai4 = Snake.alive ai
                 ∧ (Snake.alive ai = false → ai4 = ai).
Proof.
  intros Hae H1 H2 H3 H4.
  assert (Game.ai_snake g4 = Game.ai_snake g3
          ∧ Snake.alive (Game.player g4) = Snake.alive (Game.player g3))
    as [-> ->].
  { by apply collect_power_up_Ok in H4 as [->|(pu & _ & ->)]. }
  assert (Game.ai_snake g2 = Game.ai_snake g1
          ∧ Snake.alive (Game.player g2) = Snake.alive (Game.player g1))
    as [Hs2 Hp2].
  { apply player_eats_Ok in H2.
    destruct (bool_decide (hd = Game.food g)); [|by destruct H2 as [-> _]].
    by destruct H2 as (c & t1 & _ & _ & [->|(x & y & k & -> & _)]). }
  pose proof (ai_will_eat_Ok _ _ Hae) as Hae'.
  apply move_snakes_alive in H1 as [Hp1 Hopp1].
  apply ai_eats_alive in H3 as (-> & Hsame & Hopp3).
  rewrite Hp2, Hp1. split; [done|].
  intros ai Hs. destruct (Hopp1 ai Hs) as (ai1 & Hs1 & Hal1 & Hdead1).
  rewrite <-Hs2 in Hs1.
  destruct (Hopp3 ai1 Hs1) as (ai3 & Hs3 & Hal3).
  exists ai3. split; [done|]. split; [congruence|].
  intros Hdead. rewrite <-(Hdead1 Hdead).
  destruct ae.
  - destruct Hae' as (ai0 & _ & Hs0 & Hal0 & _). congruence.
  - rewrite (Hsame eq_refl) in Hs3. congruence.
Qed.

Lemma update_alive_player (ticks : Z) (g g' : Game.t) (tape tape' : list Z)
    (a : bool) :
  Game.update ticks g tape = Ok (a, g', tape') →
  Snake.alive (Game.player g') = a && Snake.alive (Game.player g).
Proof.
  intros (hd & ae & g1 & g2 & t2 & g3 & g4 & _ & Hae & H1 & H2 & H3 & H4
          & H5)%update_Ok.
  destruct (alive_before_checks ticks g g1 g2 g3 g4 hd ae tape t2 tape'
              Hae H1 H2 H3 H4) as [<- _].
  by apply check_collisions_spec in H5
    as [(-> & _ & ->)|[(-> & _ & -> & _)|(-> & _ & ai4 & _ & _ & _ & ->)]].
Qed.

(** X18. The [alive] flags after a tick. The tick answers [False] exactly
    when the player, as moved, collides, and then the player is dead and
    the opponent's flag has not been looked at; when it answers [True] the
    player's flag is as before, and the opponent is alive exactly when it
    was alive and, as moved, does not collide. No flag goes from dead to
    alive, and a dead opponent is not touched at all. *)
Theorem update_alive (ticks : Z) (g g' : Game.t) (tape tape' : list Z)
    (a : bool) :
  Game.update ticks g tape = Ok (a, g', tape') →
  (a = false ↔ collides (Game.obstacles g') (Snake.body (Game.player g')))
  ∧ Snake.alive (Game.player g') = a && Snake.alive (Game.player g)
  ∧ ∀ ai, Game.ai_snake g = Some ai →
          ∃ ai', Game.ai_snake g' = Some ai'
                 ∧ (Snake.alive ai = false → ai' = ai)
                 ∧ if a
                   then Snake.alive ai' = true
                        ↔ Snake.alive ai = true
                          ∧ ¬ collides (Game.obstacles g') (Snake.body ai')
                   else Snake.alive ai' = Snake.alive ai.
Proof.
  intros (hd & ae & g1 & g2 & t2 & g3 & g4 & _ & Hae & H1 & H2 & H3 & H4
          & H5)%update_Ok.
  destruct (late_phases ticks g3 g4 g' a H4 H5) as (_ & _ & _ & _ & _ & _ & Hcol & _).
  split; [done|]. clear Hcol.
  destruct (alive_before_checks ticks g g1 g2 g3 g4 hd ae tape t2 tape'
              Hae H1 H2 H3 H4) as [<- Hopp].
  apply check_collisions_spec in H5
    as [(-> & _ & ->)|[(-> & _ & -> & Hfree)
                      |(-> & _ & ai4 & Hs4 & Hal4 & Hcol4 & ->)]]; fields.
  - split; [done|]. intros ai (ai4 & Hs4 & Hal & Hdead)%Hopp.
    exists ai4. by split_and!.
  - split; [done|]. intros ai (ai4 & Hs4 & Hal & Hdead)%Hopp.
    exists ai4. split; [done|]. split; [done|]. rewrite <-Hal. split.
    + intros Hal4. split; [done|]. by apply Hfree.
    + by intros [? _].
  - split; [done|]. intros ai (ai4' & Hs4' & Hal & Hdead)%Hopp.
    rewrite Hs4 in Hs4'. injection Hs4' as <-.
    eexists. split; [done|]. split.
    + intros Hd. congruence.
    + fields. split; [done|]. by intros [_ []].
Qed.

Lemma update_alive_witness :
  let g :=
    Game.mk (Snake.mk [(39, 5); (38, 5)] RIGHT 30 false true ∅)
            (Some (Snake.mk [(7, 7)] UP 0 true true ∅))
            (5, 5) None {[(8, 8)]} 1 2 true in
  ∃ a g' tape',
    Game.update 0 g [] = Ok (a, g', tape')
    ∧ Snake.alive (Game.player g') = false.
Proof.
  intros g.
  assert (∃ g' tape', Game.update 0 g [] = Ok (false, g', tape'))
    as (g' & tape' & H) by (eexists _, _; by vm_compute).
  destruct (update_alive 0 g g' _ tape' false H) as (_ & Hal & _).
  exists false, g', tape'. split; [exact H|exact Hal].
Defined.

Lemma check_collisions_frame (g4 g' : Game.t) (a : bool) :
  Game.check_collisions g4 = Ok (a, g') →
  Game.power_up g' = Game.power_up g4
  ∧ Snake.body (Game.player g') = Snake.body (Game.player g4)
  ∧ Snake.power_ups (Game.player g') = Snake.power_ups (Game.player g4).
Proof.
  by intros [(_ & _ & ->)|[(_ & _ & -> & _)|(_ & _ & ai & _ & _ & _ & ->)]
            ]%check_collisions_spec.
Qed.

(** X19. Collecting the power-up of the grid. After a tick no power-up is
    left lying under the player's head. In a tick in which the player does
    not eat, the power-up is collected exactly when the player's new head
    is on it: it is then taken off the grid and its type is entered in the
    player's mapping with the clock reading of the tick; otherwise the
    power-up and the mapping stay as they are. *)
Theorem update_pickup (ticks : Z) (g g' : Game.t) (tape tape' : list Z)
    (a : bool) (hd : Cell) (rest : list Cell) :
  Snake.body (Game.player g) = hd :: rest →
  Game.update ticks g tape = Ok (a, g', tape') →
  (∀ pu, Game.power_up g' = Some pu →
         head (Snake.body (Game.player g'))
         ≠ Some (PowerUp.x pu, PowerUp.y pu))
  ∧ (hd ≠ Game.food g →
     match Game.power_up g with
     | Some pu =>
         if bool_decide (offset hd (Snake.direction (Game.player g))
                         = (PowerUp.x pu, PowerUp.y pu))
         then Game.power_up g' = None
              ∧ Snake.power_ups (Game.player g')
                = <[PowerUp.type pu := ticks]>
                    (Snake.power_ups (Game.player g))
         else Game.power_up g' = Some pu
              ∧ Snake.power_ups (Game.player g')
                = Snake.power_ups (Game.player g)
     | None =>
         Game.power_up g' = None
         ∧ Snake.power_ups (Game.player g')
           = Snake.power_ups (Game.player g)
     end).
Proof.
  intros Hb
    (hd' & ae & g1 & g2 & t2 & g3 & g4 & [rest' Hb0]%body_first_Ok
     & Hae & H1 & H2 & H3 & H4 & H5)%update_Ok.
  rewrite Hb in Hb0. injection Hb0 as <- <-.
  apply check_collisions_frame in H5 as (-> & -> & ->).
  pose proof (collect_power_up_spec _ _ _ H4) as Hcol.
  split.
  { destruct Hcol as [[-> Hoff]|(pu & _ & _ & ->)]; [done|].
    by intros pu'. }
  intros Hne. rewrite bool_decide_eq_false_2 in H1, H2, H3 by done.
  apply player_eats_Ok in H2 as [-> ->].
  assert (Game.power_up g1 = Game.power_up g
          ∧ Snake.body (Game.player g1)
            = offset hd (Snake.direction (Game.player g))
                :: removelast (hd :: rest)
          ∧ Snake.power_ups (Game.player g1)
            = Snake.power_ups (Game.player g)) as (Hpu1 & Hb1 & Hm1).
  { apply move_snakes_Ok in H1 as (p1 & (h & r & Hb' & ->)%move_Ok & Hg1).
    rewrite Hb in Hb'. injection Hb' as <- <-.
    by destruct Hg1 as [[-> _]|(ai & ai1 & ai2 & _ & _ & _ & _ & ->)]. }
  assert (Game.power_up g3 = Game.power_up g1
          ∧ Game.player g3 = Game.player g1) as [Hpu3 Hp3].
  { apply ai_eats_Ok in H3. destruct ae; [|by destruct H3 as [-> _]].
    destruct H3 as (ai & _ & H3). cbn zeta in H3. cbn [negb] in H3.
    by destruct H3 as (c & -> & _). }
  rewrite <-Hpu1, <-Hpu3, <-Hm1, <-Hp3.
  rewrite <-Hp3 in Hb1.
  destruct Hcol as [[-> Hoff]|(pu & Hpu & Hhd & ->)].
  - destruct (Game.power_up g3) as [pu|] eqn:Hpu; [|done].
    rewrite bool_decide_eq_false_2; [done|].
    intros Heq. apply (Hoff pu eq_refl). by rewrite Hb1, Heq.
  - rewrite Hpu. rewrite Hb1 in Hhd. cbn [head] in Hhd.
    rewrite bool_decide_eq_true_2 by congruence. done.
Qed.

Lemma update_pickup_witness :
  let g :=
    Game.mk (Snake.mk [(5, 5); (4, 5)] RIGHT 30 false true ∅) None
            (9, 9) (Some (PowerUp.init 6 5 SLOW_DOWN)) ∅ 1 1 true in
  ∃ a g' tape',
    Game.update 1234 g [] = Ok (a, g', tape')
    ∧ Game.power_up g' = None
    ∧ Snake.power_ups (Game.player g') = {[SLOW_DOWN := 1234]}.
Proof.
  intros g.
  assert (∃ a g' tape', Game.update 1234 g [] = Ok (a, g', tape'))
    as (a & g' & tape' & H) by (eexists _, _, _; by vm_compute).
  destruct (update_pickup 1234 g g' _ tape' a (5, 5) [(4, 5)] eq_refl H)
    as [_ Hpick].
  exists a, g', tape'. split; [exact H|]. apply Hpick. by intros [=].
Defined.

(** ** More about a round *)

Lemma chain_cons (a b : Cell) (rest : list Cell) :
  chain (a :: b :: rest) ↔ adjacent a b ∧ chain (b :: rest).
Proof. done. Qed.

Lemma chain_removelast (body : list Cell) : chain body → chain (removelast body).
Proof.
  induction body as [|a [|b [|c rest]] IH]; [done..|].
  change (removelast (a :: b :: c :: rest))
    with (a :: removelast (b :: c :: rest)).
  change (removelast (b :: c :: rest)) with (b :: removelast (c :: rest)) in *.
  rewrite !chain_cons. intros [Hab Hrest]. split; [done|]. by apply IH.
Qed.

Lemma chain_step (hd : Cell) (d : Direction) (rest : list Cell) (grow : bool) :
  chain (hd :: rest) →
  chain (offset hd d :: (if grow then hd :: rest else removelast (hd :: rest))).
Proof.
  intros Hc. destruct grow.
  - apply chain_cons. split; [apply offset_adjacent|done].
  - destruct rest as [|b rest]; [done|].
    change (removelast (hd :: b :: rest)) with (hd :: removelast (b :: rest)).
    apply chain_cons. split; [apply offset_adjacent|].
    by apply (chain_removelast (hd :: b :: rest)).
Qed.

Lemma NoDup_removelast {A : Type} (l : list A) : NoDup l → NoDup (removelast l).
Proof.
  induction l as [|a [|b l] IH]; [done|by constructor|].
  change (removelast (a :: b :: l)) with (a :: removelast (b :: l)).
  intros [Ha Hl]%NoDup_cons. apply NoDup_cons. split; [|by apply IH].
  intros ?%in_removelast. done.
Qed.

Lemma tidy_step (obstacles : gset Cell) (hd nh : Cell) (rest : list Cell)
    (grow : bool) :
  tidy obstacles (hd :: rest) →
  ¬ collides obstacles
      (nh :: (if grow then hd :: rest else removelast (hd :: rest))) →
  tidy obstacles (nh :: (if grow then hd :: rest else removelast (hd :: rest))).
Proof.
  intros [Hnd Hin] Hcol. cbn [collides] in Hcol.
  assert (NoDup (if grow then hd :: rest else removelast (hd :: rest))
          ∧ ∀ c, c ∈ (if grow then hd :: rest else removelast (hd :: rest)) →
                 c ∈ hd :: rest) as [Hnd' Hsub].
  { destruct grow; [done|]. split; [by apply NoDup_removelast|].
    intros c. apply in_removelast. }
  split.
  - apply NoDup_cons. split; [|done]. intros ?. apply Hcol. by right; left.
  - intros c [->|Hc%Hsub]%elem_of_cons; [|by apply Hin]. split.
    + apply elem_of_grid. unfold out_of_bounds in Hcol. lia.
    + intros ?. apply Hcol. by right; right.
Qed.

(** After a tick that answers [True], a living opponent does not collide. *)
Lemma late_checks (ticks : Z) (g3 g4 g' : Game.t) :
  Game.collect_power_up ticks g3 = Ok g4 →
  Game.check_collisions g4 = Ok (true, g') →
  ∀ ai', Game.ai_snake g' = Some ai' → Snake.alive ai' = true →
         ¬ collides (Game.obstacles g') (Snake.body ai').
Proof.
  intros _ [(? & _)|[(_ & _ & -> & Hfree)|(_ & _ & ai & _ & _ & _ & ->)]
           ]%check_collisions_spec; [done..|].
  by intros ai' [= <-].
Qed.

(** X20. Throughout a round, each snake's body is a chain of neighbouring
    cells; and as long as the player is alive, the body of the player and
    the body of a living opponent have no cell twice, lie inside the grid
    and touch no obstacle. *)
Theorem bodies_tidy_in_round (g : Game.t) :
  in_round g →
  chain (Snake.body (Game.player g))
  ∧ (∀ ai, Game.ai_snake g = Some ai → chain (Snake.body ai))
  ∧ (Snake.alive (Game.player g) = true →
     tidy (Game.obstacles g) (Snake.body (Game.player g))
     ∧ ∀ ai, Game.ai_snake g = Some ai → Snake.alive ai = true →
             tidy (Game.obstacles g) (Snake.body ai)).
Proof.
  induction 1 as [mode food running tape tape' g Hinit
                 |events g g' b _ IH Hin
                 |ticks tape tape' g g' a Hround IH Hup].
  - pose proof (init_game_obstacles _ _ _ _ _ _ Hinit) as [Hsize Hobs].
    apply init_game_Ok in Hinit as (Hp & Ha & _).
    rewrite Hp, Ha. split; [done|]. split.
    { intros ai Hs. destruct (mode =? 2); [|done]. by injection Hs as <-. }
    intros _. split.
    + split; [apply NoDup_singleton|].
      intros c ->%list_elem_of_singleton. split; [by apply elem_of_grid|].
      intros Hc. by destruct (Hobs _ Hc) as (_ & _ & ? & _).
    + intros ai Hs _. destruct (mode =? 2) eqn:Hmode; [|done].
      injection Hs as <-. split; [apply NoDup_singleton|].
      intros c ->%list_elem_of_singleton. split; [by apply elem_of_grid|].
      destruct (mode =? 3) eqn:Hmode3; [lia|].
      apply size_empty_inv in Hsize. by rewrite (leibniz_equiv _ _ Hsize).
  - destruct (handle_input_turns events g) as [d Hd].
    rewrite Hin in Hd. cbn [snd] in Hd. rewrite Hd. by fields.
  - pose proof (bodies_in_round g Hround) as [Hne Hne_ai].
    destruct (Snake.body (Game.player g)) as [|hd rest] eqn:Hb; [done|].
    pose proof Hup as (hd' & ae & g1 & g2 & t2 & g3 & g4
                       & [rest' Hb0]%body_first_Ok
                       & Hae & H1 & H2 & H3 & H4 & H5)%update_Ok.
    rewrite Hb in Hb0. injection Hb0 as <- <-.
    destruct (early_phases g g1 g2 g3 _ rest ae tape t2 tape' Hb Hae H1 H2 H3)
      as (Ho3 & Hb3 & _ & _ & Hopp & _).
    destruct (late_phases ticks g3 g4 g' a H4 H5)
      as (_ & Ho' & Hb' & _ & _ & Hopp' & Hcol & Hdead).
    destruct IH as (Hchain & Hchain_ai & Htidy).
    assert (∀ ai', Game.ai_snake g' = Some ai' →
              ∃ ai, Game.ai_snake g = Some ai
                    ∧ (Snake.alive ai' = true → Snake.alive ai = true)
                    ∧ if Snake.alive ai then
                        ∃ h r d,
                          Snake.body ai = h :: r
                          ∧ Snake.body ai'
                            = offset h d
                                :: (if ae then h :: r
                                    else removelast (h :: r))
                      else Snake.body ai' = Snake.body ai) as Hai.
    { intros ai' Hs'. destruct (Game.ai_snake g) as [ai|] eqn:Hs.
      - destruct Hopp as (ai3 & Hs3 & Hal3 & _ & Hbody).
        rewrite Hs3 in Hopp'. destruct Hopp' as (ai'' & Hs'' & Hbb & _ & Hal').
        rewrite Hs' in Hs''. injection Hs'' as <-.
        exists ai. split; [done|]. split; [by rewrite <-Hal3|].
        rewrite Hbb. destruct (Snake.alive ai).
        + destruct Hbody as (h & r & d & ? & _ & ?). by exists h, r, d.
        + by destruct Hbody.
      - destruct Hopp as [Hs3 _]. rewrite Hs3 in Hopp'. congruence. }
    rewrite Hb', Hb3, Ho', Ho3. split; [by apply chain_step|]. split.
    { intros ai' (ai & Hs & _ & Hbody)%Hai. specialize (Hchain_ai ai Hs).
      destruct (Snake.alive ai).
      - destruct Hbody as (h & r & d & Hbai & ->). rewrite Hbai in Hchain_ai.
        by apply chain_step.
      - by rewrite Hbody. }
    intros Halive. destruct a; [|by rewrite Hdead in Halive].
    assert (Snake.alive (Game.player g) = true) as Hal.
    { apply update_alive_player in Hup. by rewrite Halive in Hup. }
    destruct (Htidy Hal) as [Htp Hta]. split.
    + apply tidy_step; [done|]. rewrite <-Hb3, <-Hb', <-Ho3, <-Ho'.
      intros ?%Hcol. done.
    + intros ai' Hs' Hal'. pose proof (late_checks _ _ _ _ H4 H5 ai' Hs' Hal')
        as Hfree.
      destruct (Hai ai' Hs') as (ai & Hs & Hal_ai & Hbody).
      rewrite (Hal_ai Hal') in Hbody.
      destruct Hbody as (h & r & d & Hbai & Hbai').
      rewrite Hbai'. apply tidy_step.
      * rewrite <-Hbai. by apply Hta; [|apply Hal_ai].
      * by rewrite <-Hbai', <-Ho3, <-Ho'.
Qed.

Lemma bodies_tidy_in_round_witness :
  ∃ g0 g1,
    Game.init_game 3 (Some (1, 1)) true
      [0; 0; 1; 1; 2; 2; 3; 3; 4; 4; 5; 5; 6; 6; 7; 7; 8; 8; 9; 9; 10; 10;
       11; 11; 12; 12; 30; 20] = Ok (g0, [])
    ∧ Game.update 0 g0 [] = Ok (true, g1, [])
    ∧ tidy (Game.obstacles g1) (Snake.body (Game.player g1)).
Proof.
  assert (∃ g0,
            Game.init_game 3 (Some (1, 1)) true
              [0; 0; 1; 1; 2; 2; 3; 3; 4; 4; 5; 5; 6; 6; 7; 7; 8; 8; 9; 9;
               10; 10; 11; 11; 12; 12; 30; 20] = Ok (g0, []))
    as [g0 H0] by (eexists; by vm_compute).
  assert (∃ g1, Game.update 0 g0 [] = Ok (true, g1, [])) as [g1 H1].
  { vm_compute in H0. injection H0 as <-. eexists. by vm_compute. }
  exists g0, g1. split; [exact H0|]. split; [exact H1|].
  assert (in_round g1) as Hround.
  { eapply in_round_update; [|exact H1]. eapply in_round_init, H0. }
  destruct (bodies_tidy_in_round g1 Hround) as (_ & _ & Htidy).
  destruct Htidy as [Ht _]; [|exact Ht].
  pose proof (update_alive_player _ _ _ _ _ _ H1) as ->.
  by pose proof (init_game_Ok _ _ _ _ _ _ H0) as (-> & _).
Defined.

(** X23. Throughout a round the scores count the cells gained. The player,
    who starts with one cell and no points, has between 10 and 20 points
    for every further cell of its body; the AI snake has exactly 10. *)
Theorem score_counts_cells (g : Game.t) :
  in_round g →
  (10 * (Z.of_nat (length (Snake.body (Game.player g))) - 1)
   ≤ Snake.score (Game.player g)
   ≤ 20 * (Z.of_nat (length (Snake.body (Game.player g))) - 1))
  ∧ ∀ ai, Game.ai_snake g = Some ai →
          Snake.score ai = 10 * (Z.of_nat (length (Snake.body ai)) - 1).
Proof.
  induction 1 as [mode food running tape tape' g Hinit
                 |events g g' b _ IH Hin
                 |ticks tape tape' g g' a Hround IH Hup].
  - apply init_game_Ok in Hinit as (-> & -> & _). split; [cbn; lia|].
    intros ai Hs. destruct (mode =? 2); [|done]. by injection Hs as <-.
  - destruct (handle_input_turns events g) as [d Hd].
    rewrite Hin in Hd. cbn [snd] in Hd. rewrite Hd. by fields.
  - pose proof (bodies_in_round g Hround) as [Hne _].
    destruct (Snake.body (Game.player g)) as [|hd rest] eqn:Hb; [done|].
    apply update_Ok in Hup as (hd' & ae & g1 & g2 & t2 & g3 & g4
                               & [rest' Hb0]%body_first_Ok
                               & Hae & H1 & H2 & H3 & H4 & H5).
    rewrite Hb in Hb0. injection Hb0 as <- <-.
    destruct (early_phases g g1 g2 g3 _ rest ae tape t2 tape' Hb Hae H1 H2 H3)
      as (_ & Hb3 & Hsc3 & _ & Hopp & _).
    destruct (late_phases ticks g3 g4 g' a H4 H5)
      as (_ & _ & Hb' & Hsc' & _ & Hopp' & _).
    destruct IH as [IHp IHa].
    rewrite Hb', Hsc', Hb3, Hsc3. split.
    + unfold points_for.
      destruct (bool_decide (hd = Game.food g)); cbn [length] in *.
      * case_bool_decide; lia.
      * rewrite length_removelast. cbn [length]. lia.
    + intros ai' Hs'. destruct (Game.ai_snake g) as [ai|] eqn:Hs.
      2:{ destruct Hopp as [Hs3 _]. rewrite Hs3 in Hopp'. congruence. }
      destruct Hopp as (ai3 & Hs3 & _ & Hsc & Hbody).
      rewrite Hs3 in Hopp'. destruct Hopp' as (ai'' & Hs'' & Hbb & Hsc'' & _).
      rewrite Hs' in Hs''. injection Hs'' as <-.
      rewrite Hbb, Hsc'', Hsc, (IHa ai eq_refl).
      destruct (Snake.alive ai).
      * destruct Hbody as (h & r & d & -> & _ & ->).
        destruct ae; cbn [length]; [lia|].
        rewrite length_removelast. cbn [length]. lia.
      * destruct Hbody as [-> ->]. lia.
Qed.

Lemma score_counts_cells_witness :
  ∃ g0 g1 g2,
    Game.init_game 2 None true [20; 15; 10; 7; 21; 15] = Ok (g0, [])
    ∧ Game.update 0 g0 [] = Ok (true, g1, [])
    ∧ Game.update 0 g1 [5; 5; 2 ^ 52] = Ok (true, g2, [])
    ∧ Snake.body (Game.player g2) = [(22, 15); (21, 15)]
    ∧ 10 ≤ Snake.score (Game.player g2) ≤ 20.
Proof.
  assert (∃ g0, Game.init_game 2 None true [20; 15; 10; 7; 21; 15]
                = Ok (g0, [])) as [g0 H0] by (eexists; by vm_compute).
  assert (∃ g1 g2, Game.update 0 g0 [] = Ok (true, g1, [])
                   ∧ Game.update 0 g1 [5; 5; 2 ^ 52] = Ok (true, g2, [])
                   ∧ Snake.body (Game.player g2) = [(22, 15); (21, 15)])
    as (g1 & g2 & H1 & H2 & Hb).
  { vm_compute in H0. injection H0 as <-. eexists _, _.
    split; [by vm_compute|]. split; by vm_compute. }
  exists g0, g1, g2. split; [exact H0|]. split; [exact H1|].
  split; [exact H2|]. split; [exact Hb|].
  assert (in_round g2) as Hround.
  { eapply in_round_update; [|exact H2].
    eapply in_round_update; [|exact H1]. eapply in_round_init, H0. }
  destruct (score_counts_cells g2 Hround) as [Hsc _].
  rewrite Hb in Hsc. exact Hsc.
Defined.

(** ** What can keep a tick from completing *)

Lemma spawn_food_loop_safe (fuel : nat) (g : Game.t) :
  ∀ tape : list Z,
    (∃ c tape', Game.spawn_food_loop fuel g tape
                = Ok ((), Game.set_food c g, tape'))
    ∨ Game.spawn_food_loop fuel g tape = Raise TapeExhausted.
Proof.
  induction fuel as [|fuel IH]; intros tape; [by right|].
  cbn [Game.spawn_food_loop].
  destruct tape as [|rx [|ry tape]]; [by right..|].
  cbn [random.randint mbind outcome_bind].
  destruct (_ && _ && _); [|apply IH]. left. by eexists _, _.
Qed.

Lemma choice_PowerUpTypes (r : Z) (tape : list Z) :
  ∃ kind, random.choice PowerUpTypes (r :: tape) = Ok (kind, tape).
Proof.
  unfold random.choice.
  destruct (lookup_lt_is_Some_2 PowerUpTypes
              (Z.to_nat (r `mod` Z.of_nat (length PowerUpTypes))))
    as [kind ->]; [|by exists kind].
  pose proof (Z.mod_pos_bound r (Z.of_nat (length PowerUpTypes))).
  cbn [length PowerUpTypes] in *. lia.
Qed.

Lemma spawn_power_up_loop_safe (fuel : nat) (g : Game.t) :
  ∀ tape : list Z,
    (∃ pu tape', Game.spawn_power_up_loop fuel g tape
                 = Ok ((), Game.set_power_up (Some pu) g, tape'))
    ∨ Game.spawn_power_up_loop fuel g tape = Raise TapeExhausted.
Proof.
  induction fuel as [|fuel IH]; intros tape; [by right|].
  cbn [Game.spawn_power_up_loop].
  destruct tape as [|rx [|ry tape]]; [by right..|].
  cbn [random.randint mbind outcome_bind].
  destruct (_ && _ && _); [|apply IH].
  destruct tape as [|r tape]; [by right|].
  destruct (choice_PowerUpTypes r tape) as [kind ->]. left. by eexists _, _.
Qed.

Lemma player_eats_safe (pe : bool) (g1 : Game.t) (tape : list Z) :
  (∃ g2 t2, Game.player_eats pe g1 tape = Ok ((), g2, t2)
            ∧ Snake.body (Game.player g2) = Snake.body (Game.player g1)
            ∧ Game.ai_snake g2 = Game.ai_snake g1)
  ∨ (Game.player_eats pe g1 tape = Raise TapeExhausted ∧ pe = true).
Proof.
  unfold Game.player_eats. destruct pe; [|left; by eexists _, _].
  unfold Game.spawn_food.
  match goal with
  | |- context [Game.spawn_food_loop ?n ?gs tape] =>
      destruct (spawn_food_loop_safe n gs tape) as [(c & t1 & ->)| ->]
  end; [|by right].
  cbn [mbind outcome_bind].
  destruct t1 as [|r t1]; [by right|].
  cbn [random.random mbind outcome_bind].
  destruct (random.lt _ _); [|left; by eexists _, _].
  unfold Game.spawn_power_up.
  destruct t1 as [|r' t1]; [by right|].
  cbn [random.random mbind outcome_bind].
  destruct (random.lt _ _); [|left; by eexists _, _].
  match goal with
  | |- context [Game.spawn_power_up_loop ?n ?gs t1] =>
      destruct (spawn_power_up_loop_safe n gs t1) as [(pu & t2 & ->)| ->]
  end; [|by right].
  left. by eexists _, _.
Qed.

Lemma ai_eats_safe (pe ae : bool) (g2 : Game.t) (t2 : list Z) :
  (ae = true → ∃ ai, Game.ai_snake g2 = Some ai) →
  (∃ g3 t3, Game.ai_eats pe ae g2 t2 = Ok ((), g3, t3)
            ∧ Snake.body (Game.player g3) = Snake.body (Game.player g2)
            ∧ ∀ ai3, Game.ai_snake g3 = Some ai3 →
                     ∃ ai2, Game.ai_snake g2 = Some ai2
                            ∧ Snake.body ai3 = Snake.body ai2
                            ∧ Snake.alive ai3 = Snake.alive ai2)
  ∨ (Game.ai_eats pe ae g2 t2 = Raise TapeExhausted
     ∧ pe = false ∧ ae = true).
Proof.
  intros Hsome. unfold Game.ai_eats.
  destruct ae.
  2:{ left. eexists _, _. split; [done|]. split; [done|].
      intros ai3 Hs. by exists ai3. }
  destruct (Hsome eq_refl) as [ai Hs]. rewrite Hs.
  destruct pe; cbn [negb].
  { left. eexists _, _. split; [done|]. split; [done|].
    intros ai3 [= <-]. by exists ai. }
  unfold Game.spawn_food.
  match goal with
  | |- context [Game.spawn_food_loop ?n ?gs t2] =>
      destruct (spawn_food_loop_safe n gs t2) as [(c & t3 & ->)| ->]
  end; [|by right].
  left. eexists _, _. split; [done|]. split; [done|].
  intros ai3 [= <-]. by exists ai.
Qed.

(** With no body empty, nothing but the sampling can stop a tick. *)
Lemma update_safe (ticks : Z) (g : Game.t) (tape : list Z) :
  Snake.body (Game.player g) ≠ [] →
  (∀ ai, Game.ai_snake g = Some ai → Snake.alive ai = true →
         Snake.body ai ≠ []) →
  (∃ a g' tape', Game.update ticks g tape = Ok (a, g', tape'))
  ∨ (Game.update ticks g tape = Raise TapeExhausted
     ∧ (head (Snake.body (Game.player g)) = Some (Game.food g)
        ∨ ∃ ai, Game.ai_snake g = Some ai ∧ Snake.alive ai = true
                ∧ head (Snake.body ai) = Some (Game.food g))).
Proof.
  intros Hp' Ha'.
  destruct (Snake.body (Game.player g)) as [|hd rest] eqn:Hb; [done|].
  destruct (ai_will_eat_total g Ha') as [ae Hae].
  rewrite <-Hb in Hp'.
  destruct (move_snakes_total (bool_decide (hd = Game.food g)) ae g Hp' Ha')
    as (g1 & Hmove & Hp1 & Ha1 & _ & Hsome).
  unfold Game.update, Snake.body_first. rewrite Hb.
  cbn [mbind outcome_bind]. rewrite Hae. cbn [mbind outcome_bind].
  rewrite Hmove. cbn [mbind outcome_bind].
  destruct (player_eats_safe (bool_decide (hd = Game.food g)) g1 tape)
    as [(g2 & t2 & -> & Hb2 & Hs2)|[-> Hpe]].
  2:{ right. split; [done|]. left. apply bool_decide_eq_true in Hpe.
      by rewrite Hpe. }
  cbn [mbind outcome_bind].
  destruct (ai_eats_safe (bool_decide (hd = Game.food g)) ae g2 t2)
    as [(g3 & t3 & -> & Hb3 & Hs3)|(-> & _ & ->)].
  { intros ->. apply ai_will_eat_Ok in Hae as (ai & _ & Hs & _).
    rewrite Hs2. by apply (Hsome ai). }
  2:{ right. split; [done|]. right.
      apply ai_will_eat_Ok in Hae as (ai & r & Hs & Hal & Hbai).
      exists ai. by rewrite Hbai. }
  cbn [mbind outcome_bind]. left.
  destruct (finish_total ticks g3) as (a & g' & Hfin).
  { by rewrite Hb3, Hb2. }
  { intros ai3 (ai2 & Hs2' & -> & ->)%Hs3. rewrite Hs2 in Hs2'.
    by apply Ha1. }
  apply bind_Ok in Hfin as (g4 & -> & ([a' g''] & Hcheck & [= -> ->])%bind_Ok).
  cbn [mbind outcome_bind]. rewrite Hcheck. by exists a, g', t3.
Qed.

(** X21. In a round a tick never fails on a missing snake or an empty
    body. For every supply of draws it either returns, or it has run out
    of draws while looking for a free cell, which can only happen in a
    tick in which the head of the player or of the living opponent was on
    the food. *)
Theorem update_in_round_safe (ticks : Z) (g : Game.t) (tape : list Z) :
  in_round g →
  (∃ a g' tape', Game.update ticks g tape = Ok (a, g', tape'))
  ∨ (Game.update ticks g tape = Raise TapeExhausted
     ∧ (head (Snake.body (Game.player g)) = Some (Game.food g)
        ∨ ∃ ai, Game.ai_snake g = Some ai ∧ Snake.alive ai = true
                ∧ head (Snake.body ai) = Some (Game.food g))).
Proof.
  intros [Hp Ha]%bodies_in_round. apply update_safe; [done|].
  intros ai Hs _. by apply Ha.
Qed.

Lemma update_in_round_safe_witness :
  ∃ g0,
    Game.init_game 2 None true [20; 15; 10; 7; 21; 15] = Ok (g0, [])
    ∧ ∀ e, Game.update 0 g0 [] = Raise e → e = TapeExhausted.
Proof.
  assert (∃ g0, Game.init_game 2 None true [20; 15; 10; 7; 21; 15]
                = Ok (g0, [])) as [g0 H0] by (eexists; by vm_compute).
  exists g0. split; [exact H0|]. intros e He.
  destruct (update_in_round_safe 0 g0 [] (in_round_init _ _ _ _ _ _ H0))
    as [(a & g' & tape' & H)|[H _]]; congruence.
Defined.

(** ** The opponent in a tick *)

Lemma bfs_search_start (start : Cell) (obstacles : option (gset Cell))
    (self : Snake.t) :
  Snake.bfs_search start start obstacles self = Some [start].
Proof.
  pose proof (bfs_search_correct start start obstacles self) as Hf.
  destruct (Snake.bfs_search start start obstacles self) as [path|];
    cbn in Hf.
  - destruct Hf as (ds & -> & _ & _ & Hmin).
    specialize (Hmin [] I eq_refl). pose proof (key_pos ds).
    assert (ds = []) as -> by (apply key_inj; cbn in *; lia). done.
  - by destruct (Hf [] I).
Qed.

Lemma ai_move_onto_open (food_pos : Cell) (obstacles : option (gset Cell))
    (self : Snake.t) (head : Cell) (rest : list Cell)
    (p0 p1 : Cell) (tl : list Cell) :
  Snake.is_ai self = true →
  Snake.body self = head :: rest →
  Snake.bfs_search head food_pos obstacles self = Some (p0 :: p1 :: tl) →
  ∃ d, p1 = offset head d
       ∧ open (default ∅ obstacles) (Snake.body self) p1
       ∧ Snake.ai_move food_pos obstacles self
         = Ok ((), Snake.set_direction d self).
Proof.
  intros Hai Hb Hp.
  pose proof (bfs_search_correct head food_pos obstacles self) as Hf.
  rewrite Hp in Hf. destruct Hf as (ds & Hw & Hr & _).
  pose proof Hw as Hw'. symmetry in Hw'.
  apply walk_cons_inv in Hw' as (-> & d & ds' & -> & ->).
  destruct Hr as [Ho _]. rewrite Hw in Hp.
  exists d. split; [done|]. split; [done|].
  by apply (ai_move_path food_pos obstacles self head rest d ds').
Qed.

Lemma move_snakes_opponent (pe ae : bool) (g g1 : Game.t) (ai : Snake.t) :
  Game.move_snakes pe ae g = Ok g1 →
  Game.ai_snake g = Some ai →
  Snake.alive ai = true →
  ∃ ai1 ai2,
    Snake.ai_move (Game.food g) (Some (Game.obstacles g)) ai = Ok ((), ai1)
    ∧ Snake.move ae ai1 = Ok ((), ai2)
    ∧ Game.ai_snake g1 = Some ai2.
Proof.
  unfold Game.move_snakes. intros ([[] p1] & _ & Hrest)%bind_Ok Hs Hal.
  fields. rewrite Hs, Hal in Hrest.
  apply bind_Ok in Hrest as ([[] ai1] & H1 & ([[] ai2] & H2 & [= <-])%bind_Ok).
  by exists ai1, ai2.
Qed.

(** X22. The opponent does not die while it can reach the food. When the
    search from the head of the living AI snake to the food finds a path of
    more than one cell, then after the tick the AI snake is alive, as long
    as before, and its head is on the second cell of that path. *)
Theorem opponent_survives (ticks : Z) (g g' : Game.t) (tape tape' : list Z)
    (a : bool) (ai : Snake.t) (h : Cell) (r : list Cell) (p0 p1 : Cell)
    (tl : list Cell) :
  Game.ai_snake g = Some ai →
  Snake.alive ai = true →
  Snake.is_ai ai = true →
  Snake.body ai = h :: r →
  Snake.bfs_path h (Game.food g) (Some (Game.obstacles g)) ai
  = Ok (Some (p0 :: p1 :: tl), ai) →
  Game.update ticks g tape = Ok (a, g', tape') →
  ∃ ai', Game.ai_snake g' = Some ai'
         ∧ Snake.alive ai' = true
         ∧ Snake.body ai' = p1 :: removelast (h :: r).
Proof.
  intros Hs Hal Hai Hb [= Hp]
    (hd & ae & g1 & g2 & t2 & g3 & g4 & _ & Hae & H1 & H2 & H3 & H4
     & H5)%update_Ok.
  assert (ae = false) as ->.
  { destruct ae; [|done].
    apply ai_will_eat_Ok in Hae as (ai0 & r0 & Hs0 & _ & Hb0).
    rewrite Hs in Hs0. injection Hs0 as <-. rewrite Hb in Hb0.
    injection Hb0 as -> _. by rewrite bfs_search_start in Hp. }
  destruct (ai_move_onto_open _ _ _ _ _ _ _ _ Hai Hb Hp)
    as (d & -> & (Hx & Hy & Hobs & Hbody) & Hmove).
  destruct (move_snakes_opponent _ _ _ _ _ H1 Hs Hal)
    as (ai1 & ai2 & Hmove' & Hstep & Hs1).
  rewrite Hmove in Hmove'. injection Hmove' as <-.
  rewrite (move_eq false (Snake.set_direction d ai) h r Hb) in Hstep.
  injection Hstep as <-.
  assert (Game.obstacles g1 = Game.obstacles g) as Ho1.
  { apply move_snakes_Ok in H1 as (p1 & (h1 & r1 & _ & ->)%move_Ok & Hg1).
    by destruct Hg1 as [[-> _]|(? & ? & ? & _ & _ & _ & _ & ->)]. }
  destruct (player_eats_frame _ _ _ _ _ H2) as (Ho2 & Hs2 & _).
  destruct (ai_eats_frame _ _ _ _ _ _ H3) as (Ho3 & _ & Hs3 & _).
  cbn iota in Hs3.
  assert (Game.obstacles g4 = Game.obstacles g3
          ∧ Game.ai_snake g4 = Game.ai_snake g3) as [Ho4 Hs4].
  { by apply collect_power_up_Ok in H4 as [->|(pu & _ & ->)]. }
  rewrite <-Hs2, <-Hs3, <-Hs4 in Hs1.
  rewrite <-Ho1, <-Ho2, <-Ho3, <-Ho4 in Hobs. cbn [default] in Hobs.
  apply check_collisions_spec in H5
    as [(_ & _ & ->)|[(_ & _ & -> & _)
                     |(_ & _ & ai4 & Hs4' & _ & Hcol & ->)]].
  - eexists. split; [exact Hs1|]. by fields.
  - eexists. split; [exact Hs1|]. by fields.
  - exfalso. rewrite Hs1 in Hs4'. injection Hs4' as <-.
    fields. destruct Hcol as [Hout|[Hin|Hin]].
    + unfold out_of_bounds in Hout. lia.
    + apply Hbody. rewrite Hb. by apply in_removelast.
    + done.
Qed.

Lemma opponent_survives_witness :
  let ai := Snake.mk [(10, 7); (9, 7)] RIGHT 0 true true ∅ in
  let g :=
    Game.mk (Snake.mk [(5, 5); (4, 5)] RIGHT 0 false true ∅) (Some ai)
            (10, 9) None ∅ 1 2 true in
  ∃ a g' ai',
    Game.update 0 g [] = Ok (a, g', [])
    ∧ Game.ai_snake g' = Some ai'
    ∧ Snake.alive ai' = true
    ∧ Snake.body ai' = [(10, 8); (10, 7)].
Proof.
  intros ai g.
  assert (∃ a g', Game.update 0 g [] = Ok (a, g', [])) as (a & g' & H)
    by (eexists _, _; by vm_compute).
  assert (Snake.bfs_path (10, 7) (Game.food g) (Some (Game.obstacles g)) ai
          = Ok (Some [(10, 7); (10, 8); (10, 9)], ai)) as Hp by by vm_compute.
  destruct (opponent_survives 0 g g' [] [] a ai (10, 7) [(9, 7)]
              (10, 7) (10, 8) [(10, 9)] eq_refl eq_refl eq_refl eq_refl Hp H)
    as (ai' & Hs' & Hal' & Hb').
  exists a, g', ai'. split; [exact H|]. split; [exact Hs'|].
  split; [exact Hal'|exact Hb'].
Defined.

(** * The screens *)

Lemma show_high_scores_rest (frames : list Frame) :
  ∀ rest, Screens.show_high_scores frames = Some rest →
          ∃ k : nat, (1 ≤ k)%nat ∧ rest = drop k frames.
Proof.
  induction frames as [|[events t] frames IH]; intros rest; [done|].
  cbn [Screens.show_high_scores]. destruct (foldl _ _ _).
  - intros (k & Hk & ->)%IH. exists (S k). split; [lia|done].
  - intros [= <-]. exists 1%nat. split; [lia|done].
Qed.

Lemma show_instructions_loop_rest (frames : list Frame) :
  ∀ page rest, Screens.show_instructions_loop page frames = Some rest →
               ∃ k : nat, (1 ≤ k)%nat ∧ rest = drop k frames.
Proof.
  induction frames as [|[events t] frames IH]; intros page rest; [done|].
  cbn [Screens.show_instructions_loop]. destruct (foldl _ _ _) as [[] page'].
  - intros (k & Hk & ->)%IH. exists (S k). split; [lia|done].
  - intros [= <-]. exists 1%nat. split; [lia|done].
Qed.

(** One batch of events in the menu: the entry stays one of the six, a mode
    returned is one of the three, and the frames left are a rest of the
    frames given. *)
Lemma menu_batch_spec (events : list Event) :
  ∀ (selected : Z) (frames : list Frame),
    0 ≤ selected < 6 →
    match Screens.menu_batch events selected frames with
    | Screens.Chosen mode rest =>
        (mode = None ∨ mode = Some 1 ∨ mode = Some 2 ∨ mode = Some 3)
        ∧ ∃ k : nat, rest = drop k frames
    | Screens.Next selected' rest =>
        0 ≤ selected' < 6 ∧ ∃ k : nat, rest = drop k frames
    | Screens.Beneath => True
    end.
Proof.
  induction events as [|e events IH]; intros selected frames Hs.
  { split; [done|]. by exists 0%nat. }
  assert (∀ s, 0 ≤ s `mod` Screens.options < 6) as Hmod
    by (intros s; apply Z.mod_pos_bound; done).
  destruct e as [|[]|]; cbn [Screens.menu_batch]; try by apply IH.
  - split; [by left|]. by exists 0%nat.
  - destruct (selected =? 5) eqn:H5.
    { split; [by left|]. by exists 0%nat. }
    destruct (selected =? 4) eqn:H4.
    { destruct (Screens.show_high_scores frames) as [rest|] eqn:Hsub; [|done].
      apply show_high_scores_rest in Hsub as (k & _ & ->).
      specialize (IH selected (drop k frames) Hs).
      destruct (Screens.menu_batch events selected (drop k frames)); [| |done].
      - destruct IH as [? [j ->]]. split; [done|]. rewrite drop_drop. by eexists.
      - destruct IH as [? [j ->]]. split; [done|]. rewrite drop_drop. by eexists. }
    destruct (selected =? 3) eqn:H3.
    { unfold Screens.show_instructions.
      destruct (Screens.show_instructions_loop 0 frames) as [rest|] eqn:Hsub;
        [|done].
      apply show_instructions_loop_rest in Hsub as (k & _ & ->).
      specialize (IH selected (drop k frames) Hs).
      destruct (Screens.menu_batch events selected (drop k frames)); [| |done].
      - destruct IH as [? [j ->]]. split; [done|]. rewrite drop_drop. by eexists.
      - destruct IH as [? [j ->]]. split; [done|]. rewrite drop_drop. by eexists. }
    split; [|by exists 0%nat].
    assert (selected = 0 ∨ selected = 1 ∨ selected = 2) as [->|[->| ->]] by lia;
      auto.
Qed.

Lemma show_menu_loop_spec (fuel : nat) :
  ∀ (selected : Z) (frames : list Frame) (mode : option Z) (rest : list Frame),
    0 ≤ selected < 6 →
    Screens.show_menu_loop fuel selected frames = Some (mode, rest) →
    (mode = None ∨ mode = Some 1 ∨ mode = Some 2 ∨ mode = Some 3)
    ∧ ∃ k : nat, (1 ≤ k)%nat ∧ rest = drop k frames.
Proof.
  induction fuel as [|fuel IH]; intros selected frames mode rest Hs; [done|].
  destruct frames as [|[events t] frames]; [done|].
  cbn [Screens.show_menu_loop].
  pose proof (menu_batch_spec events selected frames Hs) as Hb.
  destruct (Screens.menu_batch events selected frames)
    as [mode' rest'|selected' rest'|]; [| |done].
  - intros [= <- <-]. destruct Hb as [Hm [k ->]]. split; [done|].
    exists (S k). split; [lia|done].
  - destruct Hb as [Hs' [k ->]].
    intros [Hm (j & Hj & ->)]%IH; [|done]. split; [done|].
    exists (S (k + j)). split; [lia|]. by rewrite drop_drop.
Qed.

(** X24. When [show_menu] returns, it returns [None] or one of the modes 1,
    2 and 3, and it has used up at least one batch of events; what is left
    of the input is a rest of what it was given. *)
Theorem show_menu_modes (frames : list Frame) (mode : option Z)
    (rest : list Frame) :
  Screens.show_menu frames = Some (mode, rest) →
  (mode = None ∨ mode = Some 1 ∨ mode = Some 2 ∨ mode = Some 3)
  ∧ ∃ k : nat, (1 ≤ k)%nat ∧ rest = drop k frames.
Proof. by apply show_menu_loop_spec. Qed.

Lemma show_menu_modes_witness :
  Screens.show_menu
    [([KEYDOWN K_DOWN], 0); ([other_event; KEYDOWN K_RETURN; QUIT], 5); ([], 9)]
  = Some (Some 2, [([], 9)])
  ∧ (Some 2 = None ∨ Some 2 = Some 1 ∨ Some 2 = Some 2 ∨ Some 2 = Some 3).
Proof.
  assert (Screens.show_menu
            [([KEYDOWN K_DOWN], 0); ([other_event; KEYDOWN K_RETURN; QUIT], 5);
             ([], 9)]
          = Some (Some 2, [([], 9)])) as H by by vm_compute.
  split; [exact H|]. by destruct (show_menu_modes _ _ _ H) as [Hm _].
Defined.

Lemma menu_batch_down (n : nat) (events : list Event) :
  ∀ (selected : Z) (frames : list Frame),
    0 ≤ selected < 6 →
    Screens.menu_batch (replicate n (KEYDOWN K_DOWN) ++ events) selected frames
    = Screens.menu_batch events ((selected + Z.of_nat n) `mod` 6) frames.
Proof.
  induction n as [|n IH]; intros selected frames Hs.
  { cbn [replicate app]. by rewrite Z.add_0_r, Z.mod_small. }
  cbn [replicate app Screens.menu_batch]. rewrite IH.
  - unfold Screens.options. rewrite Zplus_mod_idemp_l. f_equal. f_equal. lia.
  - by apply Z.mod_pos_bound.
Qed.

Lemma menu_batch_up (n : nat) (events : list Event) :
  ∀ (selected : Z) (frames : list Frame),
    0 ≤ selected < 6 →
    Screens.menu_batch (replicate n (KEYDOWN K_UP) ++ events) selected frames
    = Screens.menu_batch events ((selected - Z.of_nat n) `mod` 6) frames.
Proof.
  induction n as [|n IH]; intros selected frames Hs.
  { cbn [replicate app]. by rewrite Z.sub_0_r, Z.mod_small. }
  cbn [replicate app Screens.menu_batch]. rewrite IH.
  - unfold Screens.options. rewrite Zminus_mod_idemp_l. f_equal. f_equal. lia.
  - by apply Z.mod_pos_bound.
Qed.

(** X25. Moving through the menu wraps around. A first batch of [d] presses
    of Down, then [u] presses of Up, then Return selects entry
    [(d - u) mod 6], counted from 0: [show_menu] returns mode 1, 2 or 3 on
    the first three entries and [None] on the last, Quit, whatever follows
    Return in the batch. *)
Theorem menu_navigation (d u : nat) (events : list Event) (t : Z)
    (frames : list Frame) :
  (Z.of_nat d - Z.of_nat u) `mod` 6 ≠ 3 →
  (Z.of_nat d - Z.of_nat u) `mod` 6 ≠ 4 →
  Screens.show_menu
    ((replicate d (KEYDOWN K_DOWN) ++ replicate u (KEYDOWN K_UP)
        ++ KEYDOWN K_RETURN :: events, t) :: frames)
  = Some (if (Z.of_nat d - Z.of_nat u) `mod` 6 =? 5 then None
          else Some ((Z.of_nat d - Z.of_nat u) `mod` 6 + 1),
          frames).
Proof.
  intros H3 H4. unfold Screens.show_menu.
  cbn [length Screens.show_menu_loop].
  rewrite menu_batch_down by done. rewrite menu_batch_up
    by (by apply Z.mod_pos_bound).
  rewrite Z.add_0_l, Zminus_mod_idemp_l. cbn [Screens.menu_batch].
  destruct (_ =? 5); [done|].
  apply Z.eqb_neq in H3, H4. by rewrite H3, H4.
Qed.

Lemma menu_navigation_witness :
  Screens.show_menu
    [(replicate 7 (KEYDOWN K_DOWN) ++ replicate 11 (KEYDOWN K_UP)
        ++ [KEYDOWN K_RETURN; QUIT], 0); ([], 1)]
  = Some (Some 3, [([], 1)]).
Proof. by apply (menu_navigation 7 11 [QUIT] 0 [([], 1)]). Defined.








(** * The end of a round and the main loop *)

Lemma mode_key_Some (game_mode : Z) (key : string) :
  Screens.mode_key game_mode = Some key →
  (game_mode = 1 ∧ key = "classic")
  ∨ (game_mode = 2 ∧ key = "ai_battle")
  ∨ (game_mode = 3 ∧ key = "obstacle").
Proof.
  unfold Screens.mode_key.
  destruct (game_mode =? 1) eqn:H1;
    [intros [= <-]; left; split; [lia|done]|].
  destruct (game_mode =? 2) eqn:H2;
    [intros [= <-]; right; left; split; [lia|done]|].
  destruct (game_mode =? 3) eqn:H3;
    [intros [= <-]; right; right; split; [lia|done]|done].
Qed.



Lemma find_app {A : Type} (f : A → bool) (l1 l2 : list A) :
  find f (l1 ++ l2)
  = match find f l1 with Some a => Some a | None => find f l2 end.
Proof.
  induction l1 as [|a l1 IH]; [done|]. cbn [app find]. by destruct (f a).
Qed.

Lemma game_over_batch_find (events : list Event) :
  Screens.game_over_batch events
  = (λ e, negb (Screens.closes e)) <$> find decides events.
Proof.
  induction events as [|e events IH]; [done|].
  cbn [Screens.game_over_batch find]. unfold decides at 1.
  destruct (Screens.closes e) eqn:Hc; [by cbn; rewrite Hc|]. cbn [orb].
  by destruct e as [|[]|].
Qed.

(** X28. The answer of the game-over screen is that of the first event, in
    the order in which they come in, that is a QUIT or a press of Escape or
    of Return: [True], back to the menu, when it is Return, and [False]
    otherwise. The screen stays open as long as there is no such event. *)
Theorem game_over_answer (frames : list Frame) :
  fst <$> Screens.game_over_loop frames
  = (λ e, negb (Screens.closes e)) <$> find decides (concat frames.*1).
Proof.
  induction frames as [|[events t] frames IH]; [done|].
  cbn [Screens.game_over_loop fmap list_fmap concat fst].
  rewrite find_app. rewrite game_over_batch_find.
  destruct (find decides events) as [e|]; [done|]. cbn [fmap option_fmap option_map].
  exact IH.
Qed.

Lemma update_mode_running (ticks : Z) (g g' : Game.t) (tape tape' : list Z)
    (a : bool) :
  Game.update ticks g tape = Ok (a, g', tape') →
  Game.game_mode g' = Game.game_mode g ∧ Game.running g' = Game.running g.
Proof.
  intros (hd & ae & g1 & g2 & t2 & g3 & g4 & _ & Hae & H1 & H2 & H3 & H4
          & H5)%update_Ok.
  assert (Game.game_mode g1 = Game.game_mode g
          ∧ Game.running g1 = Game.running g) as [<- <-].
  { apply move_snakes_Ok in H1 as (p1 & _ & Hg1).
    by destruct Hg1 as [[-> _]|(ai & ai1 & ai2 & _ & _ & _ & _ & ->)]. }
  assert (Game.game_mode g2 = Game.game_mode g1
          ∧ Game.running g2 = Game.running g1) as [<- <-].
  { apply player_eats_Ok in H2.
    destruct (bool_decide (hd = Game.food g)); [|by destruct H2 as [-> _]].
    by destruct H2 as (c & t1 & _ & _ & [->|(x & y & k & -> & _)]). }
  assert (Game.game_mode g3 = Game.game_mode g2
          ∧ Game.running g3 = Game.running g2) as [<- <-].
  { apply ai_eats_Ok in H3. destruct ae; [|by destruct H3 as [-> _]].
    destruct H3 as (ai & Hs & H3). cbn zeta in H3.
    destruct (bool_decide (hd = Game.food g)).
    - by destruct H3 as [-> _].
    - by destruct H3 as (c & -> & _). }
  assert (Game.game_mode g4 = Game.game_mode g3
          ∧ Game.running g4 = Game.running g3) as [<- <-].
  { by apply collect_power_up_Ok in H4 as [->|(pu & _ & ->)]. }
  by apply check_collisions_spec in H5
    as [(_ & _ & ->)|[(_ & _ & -> & _)|(_ & _ & ai & _ & _ & _ & ->)]].
Qed.

Lemma update_answer (ticks : Z) (g g' : Game.t) (tape tape' : list Z)
    (a : bool) :
  Game.update ticks g tape = Ok (a, g', tape') →
  a = false ↔ collides (Game.obstacles g') (Snake.body (Game.player g')).
Proof.
  intros (hd & ae & g1 & g2 & t2 & g3 & g4 & _ & _ & _ & _ & _ & H4
          & H5)%update_Ok.
  by destruct (late_phases ticks g3 g4 g' a H4 H5)
    as (_ & _ & _ & _ & _ & _ & Hcol & _).
Qed.

Lemma handle_input_go (events : list Event) (g g1 : Game.t) :
  Game.handle_input events g = (true, g1) →
  Game.running g1 = Game.running g.
Proof.
  intros Hin. pose proof (handle_input_false events g) as Hfalse.
  pose proof (handle_input_running events g) as Hrun.
  rewrite Hin in Hfalse, Hrun. cbn [fst snd] in *.
  destruct (Game.running g1) eqn:H1, (Game.running g) eqn:H0; try done.
  - assert (true = false) as [=]. apply Hrun. by left.
  - destruct (proj1 Hrun eq_refl) as [?|(l1 & l2 & -> & _)]; [done|].
    assert (true = false) as [=]. apply Hfalse.
    exists QUIT. split; [|by left]. apply elem_of_app. right. by left.
Qed.

(** The play loop of a round, from a state of the round with the player
    alive. *)
Lemma play_spec (frames : list Frame) :
  ∀ (g : Game.t) (tape : list Z),
    in_round g →
    Snake.alive (Game.player g) = true →
    match Screens.play frames g tape with
    | Ok (Some (g', frames', tape')) =>
        in_round g'
        ∧ Game.game_mode g' = Game.game_mode g
        ∧ (∃ k : nat, frames' = drop k frames
                      ∧ (Game.running g = true → (1 ≤ k)%nat))
        ∧ (Snake.alive (Game.player g') = false →
           Game.running g' = true
           ∧ collides (Game.obstacles g') (Snake.body (Game.player g')))
        ∧ (Game.running g' = false → Snake.alive (Game.player g') = true)
    | Ok None => True
    | Raise e => e = TapeExhausted
    end.
Proof.
  induction frames as [|[events ticks] frames IH]; intros g tape Hround Hal.
  { cbn [Screens.play]. destruct (Game.running g) eqn:Hrun; [done|].
    split_and!; [done..| |by rewrite Hal|done].
    exists 0%nat. by split. }
  cbn [Screens.play]. destruct (Game.running g) eqn:Hrun.
  2:{ split_and!; [done..| |by rewrite Hal|done]. exists 0%nat. by split. }
  destruct (Game.handle_input events g) as [go g1] eqn:Hin.
  assert (in_round g1) as Hround1 by by eapply in_round_input.
  assert (Snake.alive (Game.player g1) = true
          ∧ Game.game_mode g1 = Game.game_mode g) as [Hal1 Hmode1].
  { destruct (handle_input_turns events g) as [d Hd].
    rewrite Hin in Hd. cbn [snd] in Hd. rewrite Hd. by fields. }
  destruct go.
  2:{ split_and!; [done..| |by rewrite Hal1|done]. exists 1%nat. by split. }
  pose proof (handle_input_go _ _ _ Hin) as Hrun1. rewrite Hrun in Hrun1.
  pose proof (bodies_in_round g1 Hround1) as [Hp Ha].
  destruct (update_safe ticks g1 tape Hp) as [(a & g2 & tape2 & Hup)|[-> _]];
    [by intros ai Hs _; apply Ha| |done].
  rewrite Hup. cbn [mbind outcome_bind].
  assert (in_round g2) as Hround2 by by eapply in_round_update.
  pose proof (update_mode_running _ _ _ _ _ _ Hup) as [Hmode2 Hrun2].
  pose proof (update_alive_player _ _ _ _ _ _ Hup) as Hal2.
  rewrite Hal1, andb_true_r in Hal2.
  destruct a.
  - specialize (IH g2 tape2 Hround2 Hal2).
    destruct (Screens.play frames g2 tape2) as [[[[g' frames'] tape']|]|e];
      [|done..].
    destruct IH as (? & Hmode & (k & -> & _) & ? & ?).
    split_and!; [done|congruence| |done..].
    exists (S k). split; [done|lia].
  - split_and!; [done|congruence| | |congruence].
    + exists 1%nat. by split.
    + intros _. split; [congruence|].
      by apply (update_answer _ _ _ _ _ _ Hup).
Qed.

(** X29. How the play loop of a round ends. Started in a state of the
    round with the player alive and [running] set, the loop takes at least
    one frame and leaves a state of the round in the same mode. When it
    leaves the player dead, the player's body collides and [running] is
    still set, so that the game-over screen follows; when it leaves
    [running] cleared, by a QUIT, the player is alive. *)
Theorem play_ends (frames frames' : list Frame) (g g' : Game.t)
    (tape tape' : list Z) :
  in_round g →
  Game.running g = true →
  Snake.alive (Game.player g) = true →
  Screens.play frames g tape = Ok (Some (g', frames', tape')) →
  in_round g'
  ∧ Game.game_mode g' = Game.game_mode g
  ∧ (∃ k : nat, (1 ≤ k)%nat ∧ frames' = drop k frames)
  ∧ (Snake.alive (Game.player g') = false →
     Game.running g' = true
     ∧ collides (Game.obstacles g') (Snake.body (Game.player g')))
  ∧ (Game.running g' = false → Snake.alive (Game.player g') = true).
Proof.
  intros Hround Hrun Hal Hplay.
  pose proof (play_spec frames g tape Hround Hal) as Hspec.
  rewrite Hplay in Hspec.
  destruct Hspec as (? & ? & (k & -> & Hk) & ? & ?).
  split_and!; [done..| |done|done]. exists k. split; [by apply Hk|done].
Qed.

Lemma play_ends_witness :
  ∃ g0 g' tape',
    Game.init_game 1 None true [3; 4] = Ok (g0, [])
    ∧ Screens.play [([KEYDOWN K_UP], 0); ([], 1); ([QUIT], 2); ([], 3)] g0 []
      = Ok (Some (g', [([], 3)], tape'))
    ∧ Snake.alive (Game.player g') = true.
Proof.
  assert (∃ g0, Game.init_game 1 None true [3; 4] = Ok (g0, []))
    as [g0 H0] by (eexists; by vm_compute).
  assert (Game.running g0 = true ∧ Snake.alive (Game.player g0) = true
          ∧ ∃ g' tape',
              Screens.play [([KEYDOWN K_UP], 0); ([], 1); ([QUIT], 2); ([], 3)]
                           g0 []
              = Ok (Some (g', [([], 3)], tape'))
              ∧ Game.running g' = false)
    as (Hrun & Hal & g' & tape' & Hplay & Hquit).
  { vm_compute in H0. injection H0 as <-. split; [done|]. split; [done|].
    eexists _, _. split; by vm_compute. }
  exists g0, g', tape'. split; [exact H0|]. split; [exact Hplay|].
  destruct (play_ends _ _ _ _ _ _ (in_round_init _ _ _ _ _ _ H0) Hrun Hal Hplay)
    as (_ & _ & _ & _ & Halive).
  exact (Halive Hquit).
Defined.

Lemma spawn_obstacle_loop_safe (fuel : nat) (player : Snake.t)
    (food : option Cell) (obstacles : gset Cell) :
  ∀ tape : list Z,
    (∃ r, Game.spawn_obstacle_loop fuel player food obstacles tape = Ok r)
    ∨ Game.spawn_obstacle_loop fuel player food obstacles tape
      = Raise TapeExhausted.
Proof.
  induction fuel as [|fuel IH]; intros tape; [by right|].
  cbn [Game.spawn_obstacle_loop].
  destruct tape as [|rx [|ry tape]]; [by right..|].
  cbn [random.randint mbind outcome_bind].
  destruct (_ && _ && _); [|apply IH]. left. by eexists.
Qed.

Lemma spawn_obstacles_range_safe (n : nat) (player : Snake.t)
    (food : option Cell) :
  ∀ (obstacles : gset Cell) (tape : list Z),
    (∃ r, Game.spawn_obstacles_range n player food obstacles tape = Ok r)
    ∨ Game.spawn_obstacles_range n player food obstacles tape
      = Raise TapeExhausted.
Proof.
  induction n as [|n IH]; intros obstacles tape; [left; by eexists|].
  cbn [Game.spawn_obstacles_range].
  destruct (spawn_obstacle_loop_safe (S (length tape)) player food obstacles
              tape) as [[[obs1 t1] ->]| ->]; [|by right].
  cbn [mbind outcome_bind]. apply IH.
Qed.

(** [init_game] raises nothing but the exhaustion of the draws, and leaves
    the mode it was given, the [running] flag it found and a living
    player. *)
Lemma init_game_safe (mode : Z) (food : option Cell) (running : bool)
    (tape : list Z) :
  match Game.init_game mode food running tape with
  | Ok (g, _) =>
      Game.game_mode g = mode ∧ Game.running g = running
      ∧ Snake.alive (Game.player g) = true
  | Raise e => e = TapeExhausted
  end.
Proof.
  unfold Game.init_game.
  assert ((∃ r, (if mode =? 3
                 then Game.spawn_obstacles 1
                        (Snake.init (GRID_WIDTH `div` 2) (GRID_HEIGHT `div` 2)
                                    false) food tape
                 else Ok (∅, tape)) = Ok r)
          ∨ (if mode =? 3
             then Game.spawn_obstacles 1
                    (Snake.init (GRID_WIDTH `div` 2) (GRID_HEIGHT `div` 2)
                                false) food tape
             else Ok (∅, tape)) = Raise TapeExhausted)
    as [[[obstacles t1] ->]| ->]; [|cbn [mbind outcome_bind]|done].
  { destruct (mode =? 3); [|left; by eexists].
    apply spawn_obstacles_range_safe. }
  unfold Game.spawn_food.
  match goal with
  | |- context [Game.spawn_food_loop ?n ?gs t1] =>
      destruct (spawn_food_loop_safe n gs t1) as [(c & t2 & ->)| ->]
  end; [|done].
  by cbn [mbind outcome_bind].
Qed.

Lemma mode_scores_default : mode_scores (Session.load_high_scores None).
Proof.
  eexists. split; [done|]. intros key Hin.
  repeat (apply elem_of_cons in Hin as [->|Hin]);
    [..|by apply elem_of_nil in Hin]; by eexists.
Qed.

(** What the head of [game_over] keeps: a dictionary with a number for
    each mode, the integer scores at least as high as they were loaded,
    and the file in step with the dictionary. *)
Lemma record_score_kept (hs0 hs : json) (saved : list json) (g : Game.t) :
  1 ≤ Game.game_mode g ≤ 3 →
  mode_scores hs →
  (∀ m0 key n, hs0 = JObject m0 → m0 !! key = Some (JInt n) →
               ∃ m n', hs = JObject m ∧ m !! key = Some (JInt n') ∧ n ≤ n') →
  last saved = Some hs ∨ (saved = [] ∧ hs = hs0) →
  ∃ hs' saved',
    Session.record_score g hs saved = Session.Recorded hs' saved'
    ∧ mode_scores hs'
    ∧ (∀ m0 key n, hs0 = JObject m0 → m0 !! key = Some (JInt n) →
                   ∃ m n', hs' = JObject m ∧ m !! key = Some (JInt n')
                           ∧ n ≤ n')
    ∧ (last saved' = Some hs' ∨ (saved' = [] ∧ hs' = hs0)).
Proof.
  intros Hmode (m & -> & Hkeys) Hmono Hlast.
  assert (∃ key entry, Screens.mode_key (Game.game_mode g) = Some key
                       ∧ m !! key = Some entry ∧ number entry = true)
    as (key & entry & Hkey & Hentry & Hnum).
  { unfold Screens.mode_key.
    assert (Game.game_mode g = 1 ∨ Game.game_mode g = 2
            ∨ Game.game_mode g = 3) as [->|[->| ->]] by lia; cbn.
    - destruct (Hkeys "classic") as (entry & ? & ?); [by left|].
      by eexists _, entry.
    - destruct (Hkeys "ai_battle") as (entry & ? & ?); [by right; left|].
      by eexists _, entry.
    - destruct (Hkeys "obstacle") as (entry & ? & ?);
        [by right; right; left|].
      by eexists _, entry. }
  unfold Session.record_score. rewrite Hkey, Hentry.
  destruct (Session.exceeds (Snake.score (Game.player g)) entry)
    as [[]|] eqn:Hex.
  - eexists _, _. split; [done|]. split; [|split].
    + eexists. split; [done|]. intros k Hk.
      destruct (decide (key = k)) as [->|Hne].
      * rewrite lookup_insert_eq. by eexists.
      * rewrite lookup_insert_ne by done. by apply Hkeys.
    + intros m0 k n Hm0 Hk.
      destruct (Hmono m0 k n Hm0 Hk) as (m' & n' & [= <-] & Hn' & Hle).
      destruct (decide (key = k)) as [->|Hne].
      * eexists _, _. split; [done|]. rewrite lookup_insert_eq.
        split; [done|]. rewrite Hentry in Hn'. injection Hn' as ->.
        cbn in Hex. injection Hex as Hex. lia.
      * eexists _, n'. split; [done|]. by rewrite lookup_insert_ne.
    + left. apply last_snoc.
  - eexists _, _. split; [done|]. split; [by exists m|]. by split.
  - by destruct entry as [| | |[]| | |].
Qed.

(** The menu of a run whose high scores are a dictionary is [show_menu];
    on any other high scores it is [show_menu] until the screen of the
    high scores is opened. *)
Lemma menu_batch_cases (hs : json) (events : list Event) :
  ∀ (selected : Z) (frames : list Frame),
    Session.menu_batch hs events selected frames
    = Ok (Screens.menu_batch events selected frames)
    ∨ ((∀ m, hs ≠ JObject m)
       ∧ Session.menu_batch hs events selected frames = Raise AttributeError).
Proof.
  induction events as [|e events IH]; intros selected frames; [by left|].
  destruct e as [|[]|]; cbn [Session.menu_batch Screens.menu_batch];
    try apply IH; try by left.
  destruct (selected =? 5); [by left|].
  destruct (selected =? 4).
  - destruct hs as [| | | | | |m]; try (by right).
    cbn [Session.show_high_scores mbind outcome_bind].
    destruct (Screens.show_high_scores frames); [apply IH|by left].
  - destruct (selected =? 3); [|by left].
    destruct (Screens.show_instructions frames); [apply IH|by left].
Qed.

Lemma show_menu_loop_cases (hs : json) (fuel : nat) :
  ∀ (selected : Z) (frames : list Frame),
    Session.show_menu_loop fuel hs selected frames
    = Ok (Screens.show_menu_loop fuel selected frames)
    ∨ ((∀ m, hs ≠ JObject m)
       ∧ Session.show_menu_loop fuel hs selected frames
         = Raise AttributeError).
Proof.
  induction fuel as [|fuel IH]; intros selected frames; [by left|].
  destruct frames as [|[events t] frames]; [by left|].
  cbn [Session.show_menu_loop Screens.show_menu_loop].
  destruct (menu_batch_cases hs events selected frames) as [->|[? ->]];
    [|by right].
  cbn [mbind outcome_bind].
  destruct (Screens.menu_batch events selected frames); [by left|apply IH|by left].
Qed.

Lemma show_menu_object (m : gmap string json) (frames : list Frame) :
  Session.show_menu (JObject m) frames = Ok (Screens.show_menu frames).
Proof.
  unfold Session.show_menu, Screens.show_menu.
  by destruct (show_menu_loop_cases (JObject m) (length frames) 0 frames)
    as [->|[Hno _]]; [|destruct (Hno m)].
Qed.

Lemma play_rest (frames : list Frame) :
  ∀ (g g' : Game.t) (tape tape' : list Z) (frames' : list Frame),
    Screens.play frames g tape = Ok (Some (g', frames', tape')) →
    (length frames' ≤ length frames)%nat.
Proof.
  induction frames as [|[events ticks] frames IH];
    intros g g' tape tape' frames'; cbn [Screens.play].
  { destruct (Game.running g); [done|]. by intros [= <- <- <-]. }
  destruct (Game.running g); [|by intros [= <- <- <-]].
  destruct (Game.handle_input events g) as [[] g1].
  2:{ intros [= <- <- <-]. cbn [length]. lia. }
  intros ([[a g2] tape2] & _ & Hrest)%bind_Ok. destruct a.
  - apply IH in Hrest. cbn [length]. lia.
  - injection Hrest as <- <- <-. cbn [length]. lia.
Qed.

Lemma game_over_loop_rest (frames : list Frame) :
  ∀ (again : bool) (rest : list Frame),
    Screens.game_over_loop frames = Some (again, rest) →
    (length rest ≤ length frames)%nat.
Proof.
  induction frames as [|[events t] frames IH]; intros again rest; [done|].
  cbn [Screens.game_over_loop]. destruct (Screens.game_over_batch events).
  - intros [= <- <-]. cbn [length]. lia.
  - intros ?%IH. cbn [length]. lia.
Qed.

(** The bound on the passes of the main loop is never what stops it. *)
Lemma run_loop_fuel (fuel1 : nat) :
  ∀ (fuel2 : nat) (food : option Cell) (hs : json) (saved : list json)
    (frames : list Frame) (tape : list Z),
    (length frames ≤ fuel1)%nat → (length frames ≤ fuel2)%nat →
    Session.run_loop fuel1 food hs saved frames tape
    = Session.run_loop fuel2 food hs saved frames tape.
Proof.
  induction fuel1 as [|fuel1 IH]; intros fuel2 food hs saved frames tape H1 H2.
  { destruct frames; [by destruct fuel2|cbn in H1; lia]. }
  destruct fuel2 as [|fuel2].
  { by destruct frames; [|cbn in H2; lia]. }
  cbn [Session.run_loop]. unfold Session.show_menu.
  destruct (show_menu_loop_cases hs (length frames) 0 frames) as [->|[_ ->]];
    [|done].
  destruct (Screens.show_menu_loop (length frames) 0 frames)
    as [[[mode|] frames1]|] eqn:Hmenu; [|done..].
  apply show_menu_loop_spec in Hmenu as [_ (k & Hk & ->)]; [|done].
  destruct (Game.init_game mode food true tape) as [[g0 tape0]|e]; [|done].
  destruct (Screens.play (drop k frames) g0 tape0)
    as [[[[g1 frames2] tape1]|]|e] eqn:Hplay; [|done..].
  apply play_rest in Hplay. rewrite length_drop in Hplay.
  destruct (Game.running g1); [|done].
  destruct (Session.record_score g1 hs saved) as [hs' saved'|]; [|done].
  destruct (Screens.game_over_loop frames2) as [[[] frames3]|] eqn:Hover;
    [|done..].
  apply game_over_loop_rest in Hover. apply IH; lia.
Qed.

Lemma run_loop_spec (hs0 : json) (fuel : nat) :
  ∀ (food : option Cell) (hs : json) (saved : list json)
    (frames : list Frame) (tape : list Z),
    mode_scores hs →
    (∀ m0 key n, hs0 = JObject m0 → m0 !! key = Some (JInt n) →
                 ∃ m n', hs = JObject m ∧ m !! key = Some (JInt n')
                         ∧ n ≤ n') →
    last saved = Some hs ∨ (saved = [] ∧ hs = hs0) →
    match Session.run_loop fuel food hs saved frames tape with
    | Session.Quit hs' saved' _ _ =>
        mode_scores hs'
        ∧ (last saved' = Some hs' ∨ (saved' = [] ∧ hs' = hs0))
        ∧ ∀ m0 key n, hs0 = JObject m0 → m0 !! key = Some (JInt n) →
                      ∃ m n', hs' = JObject m ∧ m !! key = Some (JInt n')
                              ∧ n ≤ n'
    | Session.Raised e => e = TapeExhausted
    | Session.Failed _ => False
    | Session.Waiting => True
    end.
Proof.
  induction fuel as [|fuel IH]; intros food hs saved frames tape Hkeys Hmono
    Hlast; [done|].
  cbn [Session.run_loop].
  pose proof Hkeys as (m & -> & _). rewrite show_menu_object.
  destruct (Screens.show_menu frames) as [[[mode|] frames1]|] eqn:Hmenu;
    [|done..].
  apply show_menu_loop_spec in Hmenu as [Hmode _]; [|done].
  assert (1 ≤ mode ≤ 3) as Hrange.
  { destruct Hmode as [?|[[= ->]|[[= ->]|[= ->]]]]; [done|lia..]. }
  pose proof (init_game_safe mode food true tape) as Hinit.
  destruct (Game.init_game mode food true tape) as [[g0 tape0]|e] eqn:Hg0;
    [|done].
  destruct Hinit as (Hmode0 & _ & Hal0).
  pose proof (play_spec frames1 g0 tape0 (in_round_init _ _ _ _ _ _ Hg0) Hal0)
    as Hplay.
  destruct (Screens.play frames1 g0 tape0)
    as [[[[g1 frames2] tape1]|]|e]; [|done..].
  destruct Hplay as (_ & Hmode1 & _).
  destruct (Game.running g1); [|done].
  destruct (record_score_kept hs0 (JObject m) saved g1) as
    (hs' & saved' & -> & Hkeys' & Hmono' & Hlast'); [congruence|done..|].
  destruct (Screens.game_over_loop frames2) as [[[] frames3]|]; [|done..].
  by apply IH.
Qed.

(** X30. A run of the program whose score file is missing, or holds a
    dictionary with a number under the key of each of the three modes,
    never fails with a [KeyError], a [TypeError], an [AttributeError] or
    an [IndexError]: it ends with [pygame.quit()], or its input or its
    random draws are used up. When it ends, the high scores still are such
    a dictionary; they are the dictionary last handed over to be saved, or
    the one loaded if none was; and no integer score is lower than it was
    loaded. *)
Theorem run_safe (file : option json) (frames : list Frame)
    (tape : list Z) :
  mode_scores (Session.load_high_scores file) →
  match Session.run file frames tape with
  | Session.Quit hs saved _ _ =>
      mode_scores hs
      ∧ (last saved = Some hs
         ∨ (saved = [] ∧ hs = Session.load_high_scores file))
      ∧ ∀ m0 key n,
          Session.load_high_scores file = JObject m0 →
          m0 !! key = Some (JInt n) →
          ∃ m n', hs = JObject m ∧ m !! key = Some (JInt n') ∧ n ≤ n'
  | Session.Raised e => e = TapeExhausted
  | Session.Failed _ => False
  | Session.Waiting => True
  end.
Proof.
  intros Hkeys. unfold Session.run. apply run_loop_spec; [done| |by right].
  intros m0 key n -> Hn. by exists m0, n.
Qed.

Lemma run_safe_witness :
  let file :=
    Some (JObject {[ "classic" := JFloat (Finite 7 (-1));
                     "ai_battle" := JBool true;
                     "obstacle" := JInt 40;
                     "name" := JString "anna" ]}) in
  ∃ hs saved,
    Session.run file
      [([KEYDOWN K_RETURN], 0); ([], 1); ([], 2); ([KEYDOWN K_ESCAPE], 3);
       ([KEYDOWN K_ESCAPE], 4)]
      [21; 15; 5; 5; 2 ^ 52]
    = Session.Quit hs saved [] []
    ∧ hs = JObject {[ "classic" := JInt 10;
                      "ai_battle" := JBool true;
                      "obstacle" := JInt 40;
                      "name" := JString "anna" ]}
    ∧ (last saved = Some hs
       ∨ (saved = [] ∧ hs = Session.load_high_scores file)).
Proof.
  intros file.
  assert (mode_scores (Session.load_high_scores file)) as Hkeys.
  { eexists. split; [done|]. intros key Hin.
    repeat (apply elem_of_cons in Hin as [->|Hin]);
      [..|by apply elem_of_nil in Hin]; by eexists. }
  assert (∃ hs saved,
            Session.run file
              [([KEYDOWN K_RETURN], 0); ([], 1); ([], 2);
               ([KEYDOWN K_ESCAPE], 3); ([KEYDOWN K_ESCAPE], 4)]
              [21; 15; 5; 5; 2 ^ 52]
            = Session.Quit hs saved [] []
            ∧ hs = JObject {[ "classic" := JInt 10;
                              "ai_battle" := JBool true;
                              "obstacle" := JInt 40;
                              "name" := JString "anna" ]})
    as (hs & saved & Hrun & Hhigh).
  { eexists _, _. split; by vm_compute. }
  exists hs, saved. split; [exact Hrun|]. split; [exact Hhigh|].
  pose proof (run_safe file
                [([KEYDOWN K_RETURN], 0); ([], 1); ([], 2);
                 ([KEYDOWN K_ESCAPE], 3); ([KEYDOWN K_ESCAPE], 4)]
                [21; 15; 5; 5; 2 ^ 52] Hkeys) as Hsafe.
  rewrite Hrun in Hsafe. exact (proj1 (proj2 Hsafe)).
Defined.
